(** * The editor's text widget: indentation and listener dispatch

    A shallow embedding of [porcupine/textwidget.py]: the function
    [spacecount] and the class [EditorText], a subclass of tkinter's
    [Text].  The toolkit's widget is modelled as far as the methods use
    it: a buffer of lines addressed by text indices, the insert mark, the
    selection, the modified flag, the undo option, the binding of the
    modification event and the queue of idle callbacks.  Select-all and
    the clipboard methods pass requests on to the toolkit, which is
    modelled with its selection tag, the clipboard and the windowing
    system.  The line-jump dialog of [plugins/gotoline.py] and the search
    for a virtual environment of [plugins/python_venv.py] follow. *)

From Stdlib Require Import ZArith NArith Lia String Ascii.
From stdpp Require Import base list.

Local Open Scope Z_scope.

(** ** Python strings

    A Python [str] is a sequence of code points. *)

Abbreviation char := N (only parsing).
Abbreviation str := (list N) (only parsing).

Definition newline : char := 10%N.
Definition tab : char := 9%N.
Definition space : char := 32%N.

(** A literal of the source, code point by code point. *)
Definition py (s : string) : str :=
  map (fun a => N_of_ascii a) (list_ascii_of_string s).

(** [str.isspace] on one character: the code points whose general
    category is Zs or whose bidirectional class is WS, B or S. *)
Definition isspace (c : char) : bool :=
  ((9 <=? c) && (c <=? 13) || (28 <=? c) && (c <=? 32)
   || (c =? 133) || (c =? 160) || (c =? 5760)
   || (8192 <=? c) && (c <=? 8202)
   || (c =? 8232) || (c =? 8233) || (c =? 8239) || (c =? 8287)
   || (c =? 12288))%N.

(** [str.isspace] on a string: true when the string is not empty and all
    its characters are whitespace. *)
Definition str_isspace (s : str) : bool :=
  match s with
  | [] => false
  | _ => forallb isspace s
  end.

(** [c * n] for a one-character string [c]: empty when [n <= 0]. *)
Definition str_mul (c : char) (n : Z) : str := repeat c (Z.to_nat n).

(** [str.rstrip()] with no argument. *)
Fixpoint rstrip (s : str) : str :=
  match s with
  | [] => []
  | c :: s' =>
      match rstrip s' with
      | [] => if isspace c then [] else [c]
      | r => c :: r
      end
  end.

(** [s.endswith(c)] for a one-character suffix [c]. *)
Definition endswith (s : str) (c : char) : bool :=
  match last s with
  | Some d => (d =? c)%N
  | None => false
  end.

(** ** [spacecount] *)

(** The loop of [spacecount]: [result] is the counter, the [break] leaves
    the loop with the counter as it is. *)
Fixpoint spacecount_loop (string : str) (result : nat) : nat :=
  match string with
  | [] => result
  | char :: rest =>
      if (char =? newline)%N || negb (isspace char) then result
      else spacecount_loop rest (S result)
  end.

Definition spacecount (string : str) : nat := spacecount_loop string 0.

(** The characters [spacecount] counts, in the words of the claim:
    whitespace other than the newline. *)
Definition indent_char (c : char) : bool :=
  isspace c && negb (c =? newline)%N.

(** [n] is the length of the longest prefix of [s] made of characters
    that satisfy [P]. *)
Definition longest_prefix_len (P : char -> bool) (s : str) (n : nat) : Prop :=
  (n <= length s)%nat /\
  Forall (fun c => P c = true) (take n s) /\
  forall m, (m <= length s)%nat ->
            Forall (fun c => P c = true) (take m s) -> (m <= n)%nat.

(** ** The toolkit's text widget

    The buffer is the list of its lines, each without the newline that
    ends it; the toolkit keeps a newline after the last character, so a
    buffer of [n] lines holds [n] newlines and the index [end] is line
    [n+1], column 0. *)

Record Pos := mkPos { pline : nat; pcol : nat }.

#[global] Instance Pos_eq_dec : EqDecision Pos.
Proof. solve_decision. Defined.

Definition pos_ltb (p q : Pos) : bool :=
  (pline p <? pline q)%nat || (pline p =? pline q)%nat && (pcol p <? pcol q)%nat.

Definition pos_leb (p q : Pos) : bool := negb (pos_ltb q p).

(** Text indices as the source writes them: ['%d.%d'], ['insert'],
    ['end'], an index the widget returned, and the modifiers
    [+n l], [-n l] and [-n c]. *)
Inductive Index :=
| LineChar (line col : Z)
| MarkInsert
| IdxEnd
| At (p : Pos)
| PlusLines (i : Index) (n : nat)
| MinusLines (i : Index) (n : nat)
| MinusChars (i : Index) (n : nat).

(** What a listener can see of the widget when it is called. *)
Record View := mkView {
  v_modified : bool;
  v_bound : bool;
  v_insert : Pos;
  v_cursorpos : Pos
}.

Definition Callback := nat.

Inductive Event :=
| CalledOnModified (c : Callback) (v : View)
| CalledOnCursorMove (c : Callback) (v : View)
| Printed (words : list string).

Inductive IdleTask := TaskCursorMove | TaskAutoindent | TaskStripWhitespace.

(** The widget: the state of the toolkit's [Text] and the attributes
    that [EditorText.__init__] adds. [tk_undo] is the toolkit's [undo]
    option, which the keyword arguments of the constructor set; what the
    toolkit keeps in its history is the toolkit's own and is not part of
    the state. [trace] records the calls that leave the widget: listeners
    and [print]. *)
Record EditorText := mkEditorText {
  lines : list (list N);
  insert_mark : Pos;
  sel_ranges : list (Pos * Pos);
  modified : bool;
  tk_undo : bool;
  bound_Modified : bool;
  idle : list IdleTask;
  settings_indent : Z;
  _cursorpos : Pos;
  on_cursor_move : list Callback;
  on_modified : list Callback;
  trace : list Event
}.

Definition view (t : EditorText) : View :=
  mkView (modified t) (bound_Modified t) (insert_mark t) (_cursorpos t).

(** An edit of the buffer: the new lines, insert mark and selection. The
    modified flag is set. *)
Definition set_buffer (ls : list (list N)) (ins : Pos) (sel : list (Pos * Pos))
    (t : EditorText) : EditorText :=
  mkEditorText ls ins sel true
    (tk_undo t)
    (bound_Modified t) (idle t) (settings_indent t) (_cursorpos t)
    (on_cursor_move t) (on_modified t) (trace t).

Definition set_modified (b : bool) (t : EditorText) : EditorText :=
  mkEditorText (lines t) (insert_mark t) (sel_ranges t) b
    (tk_undo t)
    (bound_Modified t) (idle t) (settings_indent t) (_cursorpos t)
    (on_cursor_move t) (on_modified t) (trace t).

Definition set_bound (b : bool) (t : EditorText) : EditorText :=
  mkEditorText (lines t) (insert_mark t) (sel_ranges t) (modified t)
    (tk_undo t)
    b (idle t) (settings_indent t) (_cursorpos t)
    (on_cursor_move t) (on_modified t) (trace t).

Definition set_idle (q : list IdleTask) (t : EditorText) : EditorText :=
  mkEditorText (lines t) (insert_mark t) (sel_ranges t) (modified t)
    (tk_undo t)
    (bound_Modified t) q (settings_indent t) (_cursorpos t)
    (on_cursor_move t) (on_modified t) (trace t).

Definition set_cursorpos (p : Pos) (t : EditorText) : EditorText :=
  mkEditorText (lines t) (insert_mark t) (sel_ranges t) (modified t)
    (tk_undo t)
    (bound_Modified t) (idle t) (settings_indent t) p
    (on_cursor_move t) (on_modified t) (trace t).

Definition set_sel (sel : list (Pos * Pos)) (t : EditorText) : EditorText :=
  mkEditorText (lines t) (insert_mark t) sel (modified t)
    (tk_undo t)
    (bound_Modified t) (idle t) (settings_indent t) (_cursorpos t)
    (on_cursor_move t) (on_modified t) (trace t).

Definition log (e : Event) (t : EditorText) : EditorText :=
  mkEditorText (lines t) (insert_mark t) (sel_ranges t) (modified t)
    (tk_undo t)
    (bound_Modified t) (idle t) (settings_indent t) (_cursorpos t)
    (on_cursor_move t) (on_modified t) (trace t ++ [e]).

(** *** Resolving an index

    Out-of-range indices are clamped, never refused: a line before the
    first is the start of the buffer, a line after the last is [end], a
    column past the end of its line is the newline that ends the line. *)

(** The toolkit reads the two numbers of an index [line.char] with C's
    [strtol] into an [int]: a decimal outside the range of a 64-bit
    [long] counts as the nearest end of that range, and the [int] keeps
    the low 32 bits of the result. The toolkit counts the lines of the
    buffer and the characters of a line in an [int] as well, so a number
    within the buffer is read as it is written. *)
Definition strtol (z : Z) : Z := Z.max (- 2 ^ 63) (Z.min (2 ^ 63 - 1) z).

Definition c_int (z : Z) : Z := (z + 2 ^ 31) mod 2 ^ 32 - 2 ^ 31.

(** The index of the line, from 0, that the line number [l] gives in a
    buffer of [n] lines, and the index of the character that the column
    [c] gives in a line of [n] characters. *)
Definition line_index (n : nat) (l : Z) : Z :=
  if (1 <=? l) && (l <=? Z.of_nat n) then l - 1 else c_int (strtol l - 1).

Definition char_index (n : nat) (c : Z) : Z :=
  if (0 <=? c) && (c <=? Z.of_nat n) then c else c_int (strtol c).

Definition line_at (ls : list (list N)) (l : nat) : list N :=
  default [] (ls !! (l - 1)%nat).

Definition end_pos (ls : list (list N)) : Pos := mkPos (S (length ls)) 0.

Definition clamp_col (ls : list (list N)) (l c : nat) : Pos :=
  if (length ls <? l)%nat then end_pos ls
  else mkPos l (Nat.min c (length (line_at ls l))).

Definition back_char (ls : list (list N)) (p : Pos) : Pos :=
  match pcol p with
  | S c => mkPos (pline p) c
  | O => if (1 <? pline p)%nat
         then mkPos (pline p - 1) (length (line_at ls (pline p - 1)))
         else mkPos 1 0
  end.

Fixpoint resolve (ls : list (list N)) (ins : Pos) (i : Index) : Pos :=
  match i with
  | LineChar l c =>
      let lineIndex := line_index (length ls) l in
      if lineIndex <? 0 then mkPos 1 0
      else
        let line := S (Z.to_nat lineIndex) in
        clamp_col ls line
          (Z.to_nat (char_index (length (line_at ls line)) c))
  | MarkInsert => ins
  | IdxEnd => end_pos ls
  | At p => if (pline p <? 1)%nat then mkPos 1 0 else clamp_col ls (pline p) (pcol p)
  | PlusLines i n =>
      let p := resolve ls ins i in clamp_col ls (pline p + n) (pcol p)
  | MinusLines i n =>
      let p := resolve ls ins i in
      clamp_col ls (Nat.max 1 (pline p - n)) (pcol p)
  | MinusChars i n => Nat.iter n (back_char ls) (resolve ls ins i)
  end.

(** The text from position [p] to the end of the buffer, and the number
    of characters before [p]. *)
Definition with_newlines (ls : list (list N)) : list N :=
  concat (map (fun l => l ++ [newline]) ls).

Definition text_from (ls : list (list N)) (p : Pos) : list N :=
  match drop (pline p - 1) ls with
  | [] => []
  | l :: rest => drop (pcol p) l ++ newline :: with_newlines rest
  end.

Definition offset (ls : list (list N)) (p : Pos) : nat :=
  (length (with_newlines (take (pline p - 1) ls)) + pcol p)%nat.

(** [Text.get(index1, index2)]: the characters from [index1] up to, not
    including, [index2]; empty when [index2] is not after [index1]. *)
Definition get_range (ls : list (list N)) (p q : Pos) : list N :=
  take (offset ls q - offset ls p) (text_from ls p).

(** The lines of [pre ++ s ++ post] when only [s] may hold newlines. *)
Fixpoint splice (pre s post : list N) : list (list N) :=
  match s with
  | [] => [pre ++ post]
  | c :: s' =>
      if (c =? newline)%N then pre :: splice [] s' post
      else splice (pre ++ [c]) s' post
  end.

(** Where the text [s] ends when it is written from [p] on. *)
Fixpoint advance (p : Pos) (s : list N) : Pos :=
  match s with
  | [] => p
  | c :: s' =>
      advance (if (c =? newline)%N then mkPos (S (pline p)) 0
               else mkPos (pline p) (S (pcol p))) s'
  end.

(** A position after text [s] was inserted at [p]. A position at [p]
    itself moves when its gravity is right ([stay = false]), as the
    insert mark's is. *)
Definition shift_insert (stay : bool) (p : Pos) (s : list N) (m : Pos) : Pos :=
  if pos_ltb m p || stay && bool_decide (m = p) then m
  else if (pline m =? pline p)%nat
       then let e := advance p s in mkPos (pline e) (pcol e + (pcol m - pcol p))
       else mkPos (pline m + (pline (advance p s) - pline p)) (pcol m).

(** A position after the text from [p] to [q] was deleted. *)
Definition shift_delete (p q m : Pos) : Pos :=
  if pos_leb m p then m
  else if pos_ltb m q then p
  else if (pline m =? pline q)%nat
       then mkPos (pline p) (pcol p + (pcol m - pcol q))
       else mkPos (pline m - (pline q - pline p)) (pcol m).

(** [Text.insert(index, chars)]. Text inserted at [end] goes before the
    last newline. Marks with right gravity, the insert mark among them,
    move with the text inserted at their position. *)
Definition tk_insert (i : Index) (s : list N) (t : EditorText) : EditorText :=
  match s with
  | [] => t
  | _ =>
      let ls := lines t in
      let p0 := resolve ls (insert_mark t) i in
      let p := if (length ls <? pline p0)%nat then back_char ls p0 else p0 in
      let l := line_at ls (pline p) in
      set_buffer
        (take (pline p - 1) ls
           ++ splice (take (pcol p) l) s (drop (pcol p) l)
           ++ drop (pline p) ls)
        (shift_insert false p s (insert_mark t))
        (map (fun r => (shift_insert false p s (fst r), shift_insert true p s (snd r)))
             (sel_ranges t))
        t
  end.

(** [Text.delete(index1, index2)]. Nothing is deleted when [index2] is
    not after [index1]. The newline at the end of the buffer stays: a
    range that reaches [end] stops before it, and takes the newline
    before [index1] instead when [index1] starts a line. *)
Definition tk_delete (i1 i2 : Index) (t : EditorText) : EditorText :=
  let ls := lines t in
  let p0 := resolve ls (insert_mark t) i1 in
  let q0 := resolve ls (insert_mark t) i2 in
  if pos_ltb p0 q0 then
    let at_end := (length ls <? pline q0)%nat in
    let q := if at_end then back_char ls q0 else q0 in
    let p := if at_end && (pcol p0 =? 0)%nat then back_char ls p0 else p0 in
    if pos_ltb p q then
      set_buffer
        (take (pline p - 1) ls
           ++ (take (pcol p) (line_at ls (pline p))
                 ++ drop (pcol q) (line_at ls (pline q)))
           :: drop (pline q) ls)
        (shift_delete p q (insert_mark t))
        (filter (fun r => pos_ltb (fst r) (snd r) = true)
           (map (fun r => (shift_delete p q (fst r), shift_delete p q (snd r)))
                (sel_ranges t)))
        t
    else t
  else t.

(** What the toolkit's history does when it is asked to undo or to redo
    is the toolkit's own: [NothingToDo] when the stack of that direction
    is empty, otherwise the buffer, the insert mark, the selection and the
    modified flag that the toolkit leaves. *)
Inductive HistoryStep :=
| NothingToDo
| Edited (ls : list (list N)) (ins : Pos) (sel : list (Pos * Pos)) (flag : bool).

Definition set_text (ls : list (list N)) (ins : Pos) (sel : list (Pos * Pos))
    (flag : bool) (t : EditorText) : EditorText :=
  mkEditorText ls ins sel flag
    (tk_undo t)
    (bound_Modified t) (idle t) (settings_indent t) (_cursorpos t)
    (on_cursor_move t) (on_modified t) (trace t).

(** ** Methods as state transformers that may raise *)

Inductive Exc := ZeroDivisionError | TclError | ValueError.

#[global] Instance Exc_eq_dec : EqDecision Exc.
Proof. solve_decision. Defined.

Inductive Res (A : Type) :=
| Ok (a : A)
| Raise (e : Exc).
Arguments Ok {A} a.
Arguments Raise {A} e.

(** The state survives an exception, as the attributes of [self] do. *)
Definition M (A : Type) : Type := EditorText -> EditorText * Res A.

Definition ret {A} (a : A) : M A := fun t => (t, Ok a).

Definition raise {A} (e : Exc) : M A := fun t => (t, Raise e).

Definition bind {A B} (m : M A) (k : A -> M B) : M B :=
  fun t =>
    match m t with
    | (t', Ok a) => k a t'
    | (t', Raise e) => (t', Raise e)
    end.

Definition gets {A} (f : EditorText -> A) : M A := fun t => (t, Ok (f t)).

Definition modify (f : EditorText -> EditorText) : M unit :=
  fun t => (f t, Ok tt).

Declare Scope py_scope.
Delimit Scope py_scope with py.
Notation "x <- m ;; k" := (bind m (fun x => k))
  (at level 100, m at next level, right associativity) : py_scope.
Notation "m ;; k" := (bind m (fun _ => k))
  (at level 100, right associativity) : py_scope.
Local Open Scope py_scope.

(** [try: body; except e: handler], followed by [orelse], which runs when
    [body] raised nothing and is not guarded. *)
Definition try_except_else {A B} (body : M A) (e : Exc) (handler : M B)
    (orelse : A -> M B) : M B :=
  fun t =>
    match body t with
    | (t', Ok a) => orelse a t'
    | (t', Raise e') =>
        if bool_decide (e' = e) then handler t' else (t', Raise e')
    end.

(** [for x in xs: body(x)]. *)
Fixpoint for_each {A} (xs : list A) (body : A -> M unit) : M unit :=
  match xs with
  | [] => ret tt
  | x :: rest => body x ;; for_each rest body
  end.

(** [range(a, b)]. *)
Definition py_range (a b : Z) : list Z :=
  map (fun i => a + Z.of_nat i) (seq 0 (Z.to_nat (b - a))).

(** [a % b] on integers: the remainder has the sign of [b]. *)
Definition py_mod (a b : Z) : M Z :=
  if b =? 0 then raise ZeroDivisionError else ret (a mod b).

(** [x, y = xs]. *)
Definition unpack2 {A} (xs : list A) : M (A * A) :=
  match xs with
  | [x; y] => ret (x, y)
  | _ => raise ValueError
  end.

(** *** The methods of the toolkit's widget *)

Definition index (i : Index) : M Pos :=
  gets (fun t => resolve (lines t) (insert_mark t) i).

Definition get (i1 i2 : Index) : M (list N) :=
  gets (fun t =>
          get_range (lines t)
            (resolve (lines t) (insert_mark t) i1)
            (resolve (lines t) (insert_mark t) i2)).

Definition insert (i : Index) (chars : list N) : M unit :=
  modify (tk_insert i chars).

Definition delete (i1 i2 : Index) : M unit := modify (tk_delete i1 i2).

(** [tag_ranges('sel')]: the ends of the selected ranges, in a row. *)
Definition tag_ranges_sel : M (list Pos) :=
  gets (fun t => concat (map (fun r => [fst r; snd r]) (sel_ranges t))).

Definition edit_modified (arg : bool) : M unit := modify (set_modified arg).

(** [edit_undo] and [edit_redo]. With the toolkit's [undo] option on
    they raise [TclError] when there is nothing to undo or to redo, and
    make the edits of the history otherwise; [step] is what the history
    holds for the call. With the option off, the default of the toolkit,
    they do nothing and raise nothing. *)
Definition edit_undo (step : HistoryStep) : M unit :=
  fun t =>
    if tk_undo t then
      match step with
      | NothingToDo => (t, Raise TclError)
      | Edited ls ins sel flag => (set_text ls ins sel flag t, Ok tt)
      end
    else (t, Ok tt).

Definition edit_redo (step : HistoryStep) : M unit :=
  fun t =>
    if tk_undo t then
      match step with
      | NothingToDo => (t, Raise TclError)
      | Edited ls ins sel flag => (set_text ls ins sel flag t, Ok tt)
      end
    else (t, Ok tt).

Definition unbind_Modified : M unit := modify (set_bound false).
Definition bind_Modified : M unit := modify (set_bound true).

Definition after_idle (task : IdleTask) : M unit :=
  modify (fun t => set_idle (idle t ++ [task]) t).

(** [int(index.split('.')[0])]: the line of an index the widget returned. *)
Definition lineno_of (p : Pos) : Z := Z.of_nat (pline p).

(** [print(...)]. *)
Definition print (words : list string) : M unit :=
  modify (log (Printed words)).

(** A listener is called with no arguments. What it does belongs to the
    collaborator that registered it: the call is recorded, with what the
    listener can see of the widget at that moment, and the listener is
    taken to return. *)
Definition call (kind : Callback -> View -> Event) (callback : Callback) : M unit :=
  modify (fun t => log (kind callback (view t)) t).

(** ** [EditorText] *)

Inductive Ret := RetBreak | RetNone.

Definition _do_modified : M unit :=
  unbind_Modified ;;
  edit_modified false ;;
  bind_Modified ;;
  callbacks <- gets on_modified ;;
  for_each callbacks (call CalledOnModified).

Definition _do_cursor_move : M unit :=
  cursorpos <- index MarkInsert ;;
  cached <- gets _cursorpos ;;
  if bool_decide (cursorpos <> cached) then
    modify (set_cursorpos cursorpos) ;;
    callbacks <- gets on_cursor_move ;;
    for_each callbacks (call CalledOnCursorMove)
  else ret tt.

Definition indent (lineno : Z) : M Z :=
  line <- get (LineChar lineno 0) (PlusLines (LineChar lineno 0) 1) ;;
  let spaces := Z.of_nat (spacecount line) in
  indent <- gets settings_indent ;;
  r <- py_mod spaces indent ;;
  let spaces2add := indent - r in
  insert (LineChar lineno 0) (str_mul space spaces2add) ;;
  _do_cursor_move ;;
  ret (spaces + spaces2add).

Definition dedent (lineno : Z) : M Z :=
  line <- get (LineChar lineno 0) (PlusLines (LineChar lineno 0) 1) ;;
  let spaces := Z.of_nat (spacecount line) in
  if spaces =? 0 then ret 0
  else
    indent <- gets settings_indent ;;
    r <- py_mod spaces indent ;;
    let howmany2del := if r =? 0 then indent else r in
    delete (LineChar lineno 0) (LineChar lineno howmany2del) ;;
    _do_cursor_move ;;
    ret (spaces - howmany2del).

Definition _on_backspace : M Ret :=
  sel <- tag_ranges_sel ;;
  let fallthrough := (after_idle TaskCursorMove ;; ret RetNone) in
  match sel with
  | [] =>
      cursor <- index MarkInsert ;;
      let lineno := lineno_of cursor in
      before_cursor <- get (LineChar lineno 0) MarkInsert ;;
      if str_isspace before_cursor then dedent lineno ;; ret RetBreak
      else fallthrough
  | _ => fallthrough
  end.

Definition _on_closing_brace : M bool :=
  cursor <- index MarkInsert ;;
  let lineno := lineno_of cursor in
  beforethis <- get (LineChar lineno 0) MarkInsert ;;
  if str_isspace beforethis then dedent lineno ;; ret true
  else ret false.

Definition _on_tab (shifted : bool) : M Ret :=
  let action := if shifted then dedent else indent in
  try_except_else (ranges <- tag_ranges_sel ;; unpack2 ranges) ValueError
    (cursor <- index MarkInsert ;;
     let lineno := lineno_of cursor in
     before_cursor <- get (LineChar lineno 0) MarkInsert ;;
     if str_isspace before_cursor || bool_decide (before_cursor = [])
     then action lineno ;; ret tt
     else print ["complete"; if shifted then "previous" else "next"]%string)
    (fun '(sel_start, sel_end) =>
       let first_lineno := lineno_of sel_start in
       let last_lineno := lineno_of sel_end in
       for_each (py_range first_lineno (last_lineno + 1))
         (fun lineno => action lineno ;; ret tt)) ;;
  ret RetBreak.

Definition block_opener (s : list N) : bool :=
  endswith s (N_of_ascii ":") || endswith s (N_of_ascii "(")
  || endswith s (N_of_ascii "[") || endswith s (N_of_ascii "{").

Definition _autoindent : M unit :=
  cursor <- index MarkInsert ;;
  let lineno := lineno_of cursor in
  prevline <- get (MinusLines (LineChar lineno 0) 1) (LineChar lineno 0) ;;
  (if block_opener (rstrip prevline) then indent lineno ;; ret tt else ret tt) ;;
  insert MarkInsert (str_mul space (Z.of_nat (spacecount prevline))).

Definition _strip_whitespace : M unit :=
  cursor <- index MarkInsert ;;
  let lineno := lineno_of cursor in
  line <- get (MinusLines (LineChar lineno 0) 1) (MinusChars (LineChar lineno 0) 1) ;;
  let spaces := spacecount (reverse line) in
  if (spaces =? 0)%nat then ret tt
  else
    delete (MinusChars (MinusChars (LineChar lineno 0) 1) spaces)
           (MinusChars (LineChar lineno 0) 1).

Definition _on_return : M unit :=
  after_idle TaskAutoindent ;;
  after_idle TaskStripWhitespace ;;
  after_idle TaskCursorMove.

Definition undo (step : HistoryStep) : M Ret :=
  try_except_else (edit_undo step) TclError (ret RetNone)
    (fun _ => _do_cursor_move ;; ret RetBreak).

Definition redo (step : HistoryStep) : M Ret :=
  try_except_else (edit_redo step) TclError (ret RetNone)
    (fun _ => _do_cursor_move ;; ret RetBreak).

(** *** The event loop around the handlers

    The idle callbacks run in the order they were scheduled, once the
    toolkit's own handling of the key is done; an exception of one is
    reported by the toolkit and does not stop the next. *)

Definition run_task (task : IdleTask) : M unit :=
  match task with
  | TaskCursorMove => _do_cursor_move
  | TaskAutoindent => _autoindent
  | TaskStripWhitespace => _strip_whitespace
  end.

Definition reported (m : M unit) : M unit := fun t => (fst (m t), Ok tt).

Definition run_idle : M unit :=
  tasks <- gets idle ;;
  modify (set_idle []) ;;
  for_each tasks (fun task => reported (run_task task)).

(** The toolkit's class binding of a key that inserts text: the selection
    is replaced when the cursor is in it. *)
Definition tk_TextInsert (s : list N) : M unit :=
  sel <- gets sel_ranges ;;
  cursor <- index MarkInsert ;;
  match sel with
  | (first, _) :: _ =>
      let last := default first (snd <$> last sel) in
      if pos_leb first cursor && pos_leb cursor last
      then delete (At first) (At last) else ret tt
  | [] => ret tt
  end ;;
  insert MarkInsert s.

(** The Return key: the widget's binding runs first and returns [None],
    so the class binding inserts the newline; then the idle callbacks. *)
Definition press_Return : M unit :=
  _on_return ;;
  tk_TextInsert [newline] ;;
  run_idle.

(** ** Reading a line as [indent] and [dedent] read it *)

(** [self.get('%d.0' % lineno, '%d.0+1l' % lineno)] *)
Definition line_text (lineno : Z) (t : EditorText) : list N :=
  get_range (lines t)
    (resolve (lines t) (insert_mark t) (LineChar lineno 0))
    (resolve (lines t) (insert_mark t) (PlusLines (LineChar lineno 0) 1)).

(** The leading-space count of a line, as the two methods compute it. *)
Definition leading (lineno : Z) (t : EditorText) : Z :=
  Z.of_nat (spacecount (line_text lineno t)).

(** The number of characters in the buffer, newlines included. *)
Definition buffer_size (t : EditorText) : nat := length (with_newlines (lines t)).

(** What a cursor-move check leaves behind. *)
Definition log_calls (kind : Callback -> View -> Event) (callbacks : list Callback)
    (t : EditorText) : EditorText :=
  mkEditorText (lines t) (insert_mark t) (sel_ranges t) (modified t)
    (tk_undo t)
    (bound_Modified t) (idle t) (settings_indent t) (_cursorpos t)
    (on_cursor_move t) (on_modified t)
    (trace t ++ map (fun c => kind c (view t)) callbacks).

Definition cursor_moved (t : EditorText) : EditorText :=
  if bool_decide (insert_mark t <> _cursorpos t)
  then log_calls CalledOnCursorMove (on_cursor_move t)
         (set_cursorpos (insert_mark t) t)
  else t.

(** [spaces2add] of [indent] and [howmany2del] of [dedent], for the line
    [lineno] of the widget [t]. *)
Definition spaces2add (lineno : Z) (t : EditorText) : Z :=
  settings_indent t - leading lineno t mod settings_indent t.

Definition howmany2del (lineno : Z) (t : EditorText) : Z :=
  if leading lineno t mod settings_indent t =? 0 then settings_indent t
  else leading lineno t mod settings_indent t.

(** The smallest multiple of [w] strictly greater than [s], and the
    largest multiple of [w] strictly less than [s]. *)
Definition smallest_multiple_above (w s r : Z) : Prop :=
  (w | r) /\ s < r /\ forall m, (w | m) -> s < m -> r <= m.

Definition largest_multiple_below (w s r : Z) : Prop :=
  (w | r) /\ r < s /\ forall m, (w | m) -> m < s -> m <= r.

(** A widget as [__init__] leaves it when it is built with the toolkit's
    [undo] option on, then filled: the buffer holds [ls], the cursor is
    at [cursor], the indent width is [w], two listeners wait for cursor
    moves and one for modifications. *)
Definition widget_of_lines (ls : list (list N)) (cursor : Pos) (w : Z) :
    EditorText :=
  mkEditorText ls cursor [] false true true [] w (mkPos 1 0)
    [1%nat; 2%nat] [3%nat] [].

Definition widget (ls : list string) (cursor : Pos) (w : Z) : EditorText :=
  widget_of_lines (map py ls) cursor w.

(** The effect of [indent] and of [dedent] on the text of one line, for
    the indent width [w]. *)
Definition indent_line (w : Z) (line : list N) : list N :=
  repeat space
    (Z.to_nat (w - Z.of_nat (spacecount (line ++ [newline])) mod w)) ++ line.

Definition dedent_line (w : Z) (line : list N) : list N :=
  if Z.of_nat (spacecount (line ++ [newline])) =? 0 then line
  else
    drop (Z.to_nat
            (if Z.of_nat (spacecount (line ++ [newline])) mod w =? 0 then w
             else Z.of_nat (spacecount (line ++ [newline])) mod w)) line.

(** [applied_in_order action a b t t']: calling [action] on the lines
    [a], [a+1], ..., [b], once each and in this order, takes the widget
    from [t] to [t']. *)
Inductive applied_in_order (action : Z -> M Z) :
    Z -> Z -> EditorText -> EditorText -> Prop :=
| applied_done (a b : Z) (t : EditorText) :
    b < a -> applied_in_order action a b t t
| applied_step (a b : Z) (t t1 t' : EditorText) (r : Z) :
    a <= b ->
    action a t = (t1, Ok r) ->
    applied_in_order action (a + 1) b t1 t' ->
    applied_in_order action a b t t'.

(** ** Select-all, the clipboard and the line-jump dialog *)

Definition pos_min (p q : Pos) : Pos := if pos_ltb q p then q else p.
Definition pos_max (p q : Pos) : Pos := if pos_ltb p q then q else p.

(** The ranges of a tag once the characters from [lo] to [hi] have it
    too: ranges that overlap or touch become one. *)
Fixpoint add_range (lo hi : Pos) (rs : list (Pos * Pos)) : list (Pos * Pos) :=
  match rs with
  | [] => [(lo, hi)]
  | r :: rest =>
      if pos_ltb (snd r) lo then r :: add_range lo hi rest
      else if pos_ltb hi (fst r) then (lo, hi) :: r :: rest
      else add_range (pos_min lo (fst r)) (pos_max hi (snd r)) rest
  end.

(** [tag_add('sel', index1, index2)]: nothing when [index2] is not after
    [index1]. *)
Definition tk_tag_add_sel (i1 i2 : Index) (t : EditorText) : EditorText :=
  let p := resolve (lines t) (insert_mark t) i1 in
  let q := resolve (lines t) (insert_mark t) i2 in
  if pos_ltb p q then set_sel (add_range p q (sel_ranges t)) t else t.

Definition tag_add_sel (i1 i2 : Index) : M unit := modify (tk_tag_add_sel i1 i2).

Definition _on_ctrl_a : M Ret :=
  tag_add_sel (LineChar 1 0) (MinusChars IdxEnd 1) ;;
  ret RetBreak.

(** The widget together with what the clipboard methods reach outside
    it: the clipboard, and the windowing system, on which the toolkit's
    paste depends. *)
Record Desktop := mkDesktop {
  desk_text : EditorText;
  desk_clipboard : option (list N);
  desk_x11 : bool
}.

Definition with_text (t : EditorText) (d : Desktop) : Desktop :=
  mkDesktop t (desk_clipboard d) (desk_x11 d).

(** A method of the widget, run on the desktop. *)
Definition lift {A} (m : M A) (d : Desktop) : Desktop * Res A :=
  (with_text (fst (m (desk_text d))) d, snd (m (desk_text d))).

(** [sel.first] and [sel.last]: the start of the first selected range
    and the end of the last. *)
Definition sel_first_last (t : EditorText) : option (Pos * Pos) :=
  match sel_ranges t with
  | [] => None
  | r :: rest => Some (fst r, snd (List.last rest r))
  end.

Inductive VirtualEvent := VCut | VCopy | VPaste.

(** The toolkit's class bindings of the three events. Copy puts the
    selected text on the clipboard; cut deletes it as well; both do
    nothing without a selection. Paste does nothing when the clipboard
    holds no text; otherwise it inserts the text at the cursor, after
    deleting the selection on every windowing system but X11. *)
Definition tk_textCopy (d : Desktop) : Desktop :=
  match sel_first_last (desk_text d) with
  | None => d
  | Some (a, b) =>
      mkDesktop (desk_text d)
        (Some (get_range (lines (desk_text d)) a b)) (desk_x11 d)
  end.

Definition tk_textCut (d : Desktop) : Desktop :=
  match sel_first_last (desk_text d) with
  | None => d
  | Some (a, b) =>
      mkDesktop (tk_delete (At a) (At b) (desk_text d))
        (Some (get_range (lines (desk_text d)) a b)) (desk_x11 d)
  end.

Definition tk_textPaste (d : Desktop) : Desktop :=
  match desk_clipboard d with
  | None => d
  | Some s =>
      let t1 :=
        if desk_x11 d then desk_text d
        else match sel_first_last (desk_text d) with
             | None => desk_text d
             | Some (a, b) => tk_delete (At a) (At b) (desk_text d)
             end in
      with_text (tk_insert MarkInsert s t1) d
  end.

Definition event_generate (e : VirtualEvent) (d : Desktop) : Desktop :=
  match e with
  | VCut => tk_textCut d
  | VCopy => tk_textCopy d
  | VPaste => tk_textPaste d
  end.

Definition cut (d : Desktop) : Desktop * Res unit :=
  lift _do_cursor_move (event_generate VCut d).

Definition copy (d : Desktop) : Desktop * Res unit :=
  lift _do_cursor_move (event_generate VCopy d).

Definition paste (d : Desktop) : Desktop * Res unit :=
  lift
    (try_except_else (ranges <- tag_ranges_sel ;; unpack2 ranges) ValueError
       (ret tt)
       (fun '(sel_start, sel_end) => delete (At sel_start) (At sel_end)) ;;
     _do_cursor_move)
    (event_generate VPaste d).

(** The text of the whole buffer, the last newline included. *)
Definition buffer_text (t : EditorText) : list N := with_newlines (lines t).

(** A position of the buffer: on one of its lines, not past the newline
    that ends the line. *)
Definition valid_pos (ls : list (list N)) (p : Pos) : Prop :=
  (1 <= pline p <= length ls)%nat /\ (pcol p <= length (line_at ls (pline p)))%nat.

(** [mark_set('insert', index)]: the insert mark never goes past the last
    newline; nothing else of the widget changes. *)
Definition tk_mark_set_insert (i : Index) (t : EditorText) : EditorText :=
  let p := resolve (lines t) (insert_mark t) i in
  mkEditorText (lines t)
    (if (length (lines t) <? pline p)%nat then back_char (lines t) p else p)
    (sel_ranges t) (modified t) (tk_undo t)
    (bound_Modified t) (idle t) (settings_indent t) (_cursorpos t)
    (on_cursor_move t) (on_modified t) (trace t).

Definition mark_set_insert (i : Index) : M unit := modify (tk_mark_set_insert i).

(** [gotoline] of [plugins/gotoline.py], on the text widget of the tab.
    [answer] is what the dialog returned: a line number, or [None] when
    it was cancelled. Scrolling to the cursor and taking the focus change
    nothing of the widget modelled here. *)
Definition gotoline (answer : option Z) : M unit :=
  match answer with
  | Some lineno =>
      cursor <- index MarkInsert ;;
      let column := Z.of_nat (pcol cursor) in
      mark_set_insert (LineChar lineno column)
  | None => ret tt
  end.

(** The number of spaces the Return key leaves at the start of the new
    line: one indent level, counted from the leading spaces [cur] already
    has, when [prev] ends with a block opener, and as many spaces as
    [prev] has leading whitespace. *)
Definition autoindent_width (w : Z) (prev cur : list N) : nat :=
  ((if block_opener (rstrip (prev ++ [newline]))
    then Z.to_nat (w - Z.of_nat (spacecount (cur ++ [newline])) mod w)
    else 0)
   + spacecount (prev ++ [newline]))%nat.

(** The lines of the buffer after an insertion at the position [p], and
    after the deletion of the text from [p] to [q], as [tk_insert] and
    [tk_delete] build them. *)
Definition insert_lines (ls : list (list N)) (p : Pos) (s : list N) :
    list (list N) :=
  take (pline p - 1) ls
    ++ splice (take (pcol p) (line_at ls (pline p))) s
         (drop (pcol p) (line_at ls (pline p)))
    ++ drop (pline p) ls.

Definition delete_lines (ls : list (list N)) (p q : Pos) : list (list N) :=
  take (pline p - 1) ls
    ++ (take (pcol p) (line_at ls (pline p))
          ++ drop (pcol q) (line_at ls (pline q)))
    :: drop (pline q) ls.

(** ** The virtual-environment plugin

    [is_venv] and [_find_venv] of [plugins/python_venv.py]. A path of
    pathlib is its sequence of parts, in the POSIX flavour: the first part
    of an absolute path is its root. Of the file system the two functions
    ask which paths exist and which entries a directory has; the platform
    is the value of [sys.platform]. Log messages are not modelled. *)

Record FileSystem := mkFileSystem {
  win32 : bool;
  path_exists : list (list N) -> bool;
  (* the names of the entries of a directory, in the order the operating
     system yields them; none when the path is no directory *)
  scandir : list (list N) -> list (list N)
}.

(** [path / name] for a name of one part. *)
Definition truediv (path : list (list N)) (name : string) : list (list N) :=
  path ++ [py name].

(** [sep.join(parts)]. *)
Fixpoint join (sep : list N) (parts : list (list N)) : list N :=
  match parts with
  | [] => []
  | [p] => p
  | p :: rest => p ++ sep ++ join sep rest
  end.

Fixpoint startswith (prefix s : list N) : bool :=
  match prefix, s with
  | [], _ => true
  | _ :: _, [] => false
  | a :: prefix', b :: s' => (a =? b)%N && startswith prefix' s'
  end.

(** [str(path)]: the root, then the other parts joined by slashes; a
    path without parts is the current directory. *)
Definition path_str (path : list (list N)) : list N :=
  match path with
  | [] => py "."
  | first :: rest =>
      if startswith (py "/") first then first ++ join (py "/") rest
      else join (py "/") path
  end.

(** [a < b] on strings: by code points, a proper prefix first. *)
Fixpoint str_ltb (a b : list N) : bool :=
  match a, b with
  | _, [] => false
  | [], _ :: _ => true
  | x :: a', y :: b' => if (x =? y)%N then str_ltb a' b' else (x <? y)%N
  end.

(** [p < q] on paths of one flavour: their parts are compared as
    sequences, at the first part that differs. *)
Fixpoint path_ltb (p q : list (list N)) : bool :=
  match p, q with
  | _, [] => false
  | [], _ :: _ => true
  | x :: p', y :: q' => if bool_decide (x = y) then path_ltb p' q' else str_ltb x y
  end.

(** [k1 < k2] on pairs of a length and a path: at the first component
    that differs; equal pairs are not below each other. *)
Definition key_ltb (k1 k2 : nat * list (list N)) : bool :=
  if (fst k1 =? fst k2)%nat
  then if bool_decide (snd k1 = snd k2) then false
       else path_ltb (snd k1) (snd k2)
  else (fst k1 <? fst k2)%nat.

(** [min(iterable, key=key)] on a sequence with the first item [best]:
    a later item replaces the best one when its key is below. *)
Fixpoint py_min {A K : Type} (lt : K -> K -> bool) (key : A -> K)
    (best : A) (items : list A) : A :=
  match items with
  | [] => best
  | item :: rest =>
      py_min lt key (if lt (key item) (key best) then item else best) rest
  end.

(** A name matches the pattern [*env*] when [env] occurs in it. *)
Fixpoint contains (sub s : list N) : bool :=
  startswith sub s
  || match s with
     | [] => false
     | _ :: s' => contains sub s'
     end.

(** [path.glob("*env*")]: the entries of the directory whose name
    matches, in the order of the directory. *)
Definition glob_env (fs : FileSystem) (path : list (list N)) :
    list (list (list N)) :=
  map (fun name => path ++ [name])
    (List.filter (contains (py "env")) (scandir fs path)).

Definition is_venv (fs : FileSystem) (path : list (list N)) : bool :=
  let landmarks := [truediv path "pyvenv.cfg"] in
  let landmarks :=
    if win32 fs
    then landmarks ++ [truediv (truediv path "Scripts") "python.exe"]
                   ++ [truediv (truediv path "Scripts") "activate.bat"]
    else landmarks ++ [truediv (truediv path "bin") "python3"]
                   ++ [truediv (truediv path "bin") "activate"] in
  forallb (path_exists fs) landmarks.

Definition venv_key (e : list (list N)) : nat * list (list N) :=
  (length (path_str e), e).

Definition _find_venv (fs : FileSystem) (project_root : list (list N)) :
    option (list (list N)) :=
  let possible_envs := List.filter (is_venv fs) (glob_env fs project_root) in
  match possible_envs with
  | e :: rest => Some (py_min key_ltb venv_key e rest)
  | [] => None
  end.

(** The order of the keys, on the names of two entries of one directory:
    the shorter name first, and the code-point order among names of one
    length. *)
Definition preferred (a b : list N) : bool :=
  if (length a =? length b)%nat then str_ltb a b
  else (length a <? length b)%nat.

(** The names of the entries [_find_venv] chooses from. *)
Definition venv_names (fs : FileSystem) (project_root : list (list N)) :
    list (list N) :=
  List.filter (fun name => is_venv fs (project_root ++ [name]))
    (List.filter (contains (py "env")) (scandir fs project_root)).

(** A file system of a POSIX platform where every path exists and every
    directory has the given entries. *)
Definition file_system_of (entries : list string) : FileSystem :=
  mkFileSystem false (fun _ => true) (fun _ => map py entries).

(** * Properties *)

(** ** [spacecount] *)

Lemma spacecount_loop_acc (s : list N) (acc : nat) :
  spacecount_loop s acc = (acc + spacecount s)%nat.
Proof.
  unfold spacecount. revert acc.
  induction s as [|c s IH]; intros acc; simpl.
  - lia.
  - destruct ((c =? newline)%N || negb (isspace c)); [lia|].
    rewrite (IH (S acc)), (IH 1%nat). lia.
Qed.

Lemma spacecount_cons (c : N) (s : list N) :
  spacecount (c :: s) = if indent_char c then S (spacecount s) else 0%nat.
Proof.
  unfold spacecount at 1, indent_char. simpl.
  destruct (isspace c), (c =? newline)%N; simpl; try reflexivity;
    now rewrite spacecount_loop_acc.
Qed.

Lemma spacecount_nil : spacecount [] = 0%nat.
Proof. reflexivity. Qed.

Lemma spacecount_le_length (s : list N) : (spacecount s <= length s)%nat.
Proof.
  induction s as [|c s IH]; [reflexivity|].
  rewrite spacecount_cons. destruct (indent_char c); simpl; lia.
Qed.

Lemma spacecount_repeat_space (k : nat) (s : list N) :
  spacecount (repeat space k ++ s) = (k + spacecount s)%nat.
Proof.
  induction k as [|k IH]; [reflexivity|].
  simpl repeat. simpl app. rewrite spacecount_cons, IH. reflexivity.
Qed.

Lemma spacecount_drop (k : nat) (s : list N) :
  (k <= spacecount s)%nat -> spacecount (drop k s) = (spacecount s - k)%nat.
Proof.
  revert s. induction k as [|k IH]; intros s Hk.
  - rewrite drop_0. lia.
  - destruct s as [|c s]; [rewrite spacecount_nil in Hk; lia|].
    rewrite spacecount_cons in *. simpl drop.
    destruct (indent_char c); [|lia].
    rewrite IH by lia. lia.
Qed.

Lemma spacecount_prefix (s : list N) :
  Forall (fun c => indent_char c = true) (take (spacecount s) s).
Proof.
  induction s as [|c s IH]; [constructor|].
  rewrite spacecount_cons. destruct (indent_char c) eqn:E; simpl.
  - constructor; assumption.
  - constructor.
Qed.

Lemma spacecount_maximal (s : list N) (m : nat) :
  (m <= length s)%nat ->
  Forall (fun c => indent_char c = true) (take m s) ->
  (m <= spacecount s)%nat.
Proof.
  revert m. induction s as [|c s IH]; intros m Hm Hall.
  - simpl in Hm. lia.
  - destruct m as [|m]; [lia|].
    simpl in Hm, Hall. inversion Hall as [|? ? Hc Hrest]; subst.
    rewrite spacecount_cons, Hc.
    apply le_n_S, IH; [lia|assumption].
Qed.

(** ** The buffer *)

Lemma with_newlines_app (l1 l2 : list (list N)) :
  with_newlines (l1 ++ l2) = with_newlines l1 ++ with_newlines l2.
Proof. unfold with_newlines. now rewrite map_app, concat_app. Qed.

Lemma with_newlines_snoc_length (l1 : list (list N)) (x : list N) :
  length (with_newlines (l1 ++ [x])) = (length (with_newlines l1) + S (length x))%nat.
Proof.
  rewrite with_newlines_app, length_app. unfold with_newlines at 2. simpl.
  rewrite app_nil_r, length_app. simpl. lia.
Qed.

Lemma with_newlines_insert_length (ls : list (list N)) (i : nat) (x y : list N) :
  ls !! i = Some x ->
  (length (with_newlines (<[i := y]> ls)) + length x
   = length (with_newlines ls) + length y)%nat.
Proof.
  revert i. induction ls as [|l ls IH]; intros i Hi; [discriminate|].
  destruct i as [|i]; simpl in *.
  - inversion Hi; subst.
    change (with_newlines (?a :: ?b)) with ((a ++ [newline]) ++ with_newlines b).
    rewrite !length_app. simpl. lia.
  - change (with_newlines (?a :: ?b)) with ((a ++ [newline]) ++ with_newlines b).
    rewrite !length_app. specialize (IH i Hi). lia.
Qed.

Lemma c_int_id (z : Z) : - 2 ^ 31 <= z < 2 ^ 31 -> c_int z = z.
Proof.
  intros H. unfold c_int. rewrite Z.mod_small; lia.
Qed.

Lemma c_int_range (z : Z) : - 2 ^ 31 <= c_int z < 2 ^ 31.
Proof.
  unfold c_int. pose proof (Z.mod_pos_bound (z + 2 ^ 31) (2 ^ 32)). lia.
Qed.

Lemma strtol_id (z : Z) : - 2 ^ 63 <= z < 2 ^ 63 -> strtol z = z.
Proof. unfold strtol. lia. Qed.

Lemma line_index_in (n : nat) (l : Z) :
  1 <= l <= Z.of_nat n -> line_index n l = l - 1.
Proof.
  intros H. unfold line_index.
  destruct (Z.leb_spec 1 l), (Z.leb_spec l (Z.of_nat n)); cbn [andb]; lia.
Qed.

Lemma line_index_int (n : nat) (l : Z) :
  - 2 ^ 31 < l <= 2 ^ 31 -> line_index n l = l - 1.
Proof.
  intros H. unfold line_index.
  destruct ((1 <=? l) && (l <=? Z.of_nat n)); [reflexivity|].
  rewrite strtol_id, c_int_id; lia.
Qed.

(** The number of the line that a number is read as is read as that
    line again. *)
Lemma line_index_again (n : nat) (l : Z) :
  line_index n (line_index n l + 1) = line_index n l.
Proof.
  set (k := line_index n l). unfold line_index at 1.
  destruct ((1 <=? k + 1) && (k + 1 <=? Z.of_nat n)) eqn:E; [lia|].
  assert (H : - 2 ^ 31 <= k < 2 ^ 31).
  { subst k. unfold line_index in *.
    destruct ((1 <=? l) && (l <=? Z.of_nat n)) eqn:E';
      [|apply c_int_range].
    replace (l - 1 + 1) with l in E by lia. congruence. }
  rewrite strtol_id, Z.add_simpl_r, c_int_id; lia.
Qed.

Lemma char_index_in (n : nat) (c : Z) :
  0 <= c <= Z.of_nat n -> char_index n c = c.
Proof.
  intros H. unfold char_index.
  destruct (Z.leb_spec 0 c), (Z.leb_spec c (Z.of_nat n)); cbn [andb]; lia.
Qed.

Lemma char_index_int (n : nat) (c : Z) :
  - 2 ^ 31 <= c < 2 ^ 31 -> char_index n c = c.
Proof.
  intros H. unfold char_index.
  destruct ((0 <=? c) && (c <=? Z.of_nat n)); [reflexivity|].
  rewrite strtol_id, c_int_id; lia.
Qed.

Lemma resolve_LineChar (ls : list (list N)) (ins : Pos) (l c : Z) :
  resolve ls ins (LineChar l c)
  = if line_index (length ls) l <? 0 then mkPos 1 0
    else clamp_col ls (S (Z.to_nat (line_index (length ls) l)))
           (Z.to_nat
              (char_index
                 (length (line_at ls (S (Z.to_nat (line_index (length ls) l)))))
                 c)).
Proof. reflexivity. Qed.

Lemma resolve_line_start (ls : list (list N)) (ins : Pos) (lineno : Z) :
  1 <= lineno <= Z.of_nat (length ls) ->
  resolve ls ins (LineChar lineno 0) = mkPos (Z.to_nat lineno) 0.
Proof.
  intros H. rewrite resolve_LineChar, line_index_in by assumption.
  rewrite char_index_in by lia. unfold clamp_col.
  destruct (lineno - 1 <? 0) eqn:E1; [apply Z.ltb_lt in E1; lia|].
  replace (S (Z.to_nat (lineno - 1))) with (Z.to_nat lineno) by lia.
  destruct (length ls <? Z.to_nat lineno)%nat eqn:E2;
    [apply Nat.ltb_lt in E2; lia|].
  reflexivity.
Qed.

Lemma resolve_line_beyond (ls : list (list N)) (ins : Pos) (lineno c : Z) :
  Z.of_nat (length ls) < lineno <= 2 ^ 31 ->
  resolve ls ins (LineChar lineno c) = end_pos ls.
Proof.
  intros H. rewrite resolve_LineChar, line_index_int by lia. unfold clamp_col.
  destruct (lineno - 1 <? 0) eqn:E1; [apply Z.ltb_lt in E1; lia|].
  destruct (length ls <? S (Z.to_nat (lineno - 1)))%nat eqn:E2;
    [reflexivity|apply Nat.ltb_ge in E2; lia].
Qed.

Lemma resolve_line_before (ls : list (list N)) (ins : Pos) (lineno c : Z) :
  - 2 ^ 31 < lineno < 1 -> resolve ls ins (LineChar lineno c) = mkPos 1 0.
Proof.
  intros H. rewrite resolve_LineChar, line_index_int by lia.
  destruct (lineno - 1 <? 0) eqn:E1; [reflexivity|].
  apply Z.ltb_ge in E1. lia.
Qed.

Lemma resolve_line_col (ls : list (list N)) (ins : Pos) (lineno c : Z)
    (line : list N) :
  1 <= lineno ->
  ls !! (Z.to_nat lineno - 1)%nat = Some line ->
  0 <= c <= Z.of_nat (length line) ->
  resolve ls ins (LineChar lineno c) = mkPos (Z.to_nat lineno) (Z.to_nat c).
Proof.
  intros H1 Hl Hc.
  pose proof (lookup_lt_Some _ _ _ Hl) as Hlt.
  rewrite resolve_LineChar, line_index_in by lia.
  replace (S (Z.to_nat (lineno - 1))) with (Z.to_nat lineno) by lia.
  unfold clamp_col, line_at. rewrite Hl. cbn [default from_option id].
  rewrite char_index_in by assumption.
  destruct (lineno - 1 <? 0) eqn:E1; [apply Z.ltb_lt in E1; lia|].
  destruct (length ls <? Z.to_nat lineno)%nat eqn:E2;
    [apply Nat.ltb_lt in E2; lia|].
  f_equal. lia.
Qed.

(** A line number that the toolkit reads as a line of the buffer stands
    for the number of that line. *)
Lemma resolve_LineChar_read (ls : list (list N)) (ins : Pos) (l c : Z) :
  resolve ls ins (LineChar l c)
  = resolve ls ins (LineChar (line_index (length ls) l + 1) c).
Proof.
  rewrite !resolve_LineChar. now rewrite line_index_again.
Qed.

(** The toolkit's [int]: 2147483649 is read as a line before the first,
    4294967298 as line 2. *)
Example line_number_wraps :
  resolve [py "ab"; py "cd"] (mkPos 1 0) (LineChar 2147483649 0) = mkPos 1 0
  /\ resolve [py "ab"; py "cd"] (mkPos 1 0) (LineChar 4294967298 1) = mkPos 2 1
  /\ resolve [py "ab"; py "cd"] (mkPos 1 0) (LineChar 3 0) = mkPos 3 0.
Proof. repeat split. Qed.

Lemma resolve_PlusLines (ls : list (list N)) (ins : Pos) (i : Index) (n : nat) :
  resolve ls ins (PlusLines i n)
  = clamp_col ls (pline (resolve ls ins i) + n) (pcol (resolve ls ins i)).
Proof. reflexivity. Qed.

Lemma resolve_next_line_start (ls : list (list N)) (ins : Pos) (lineno : Z) :
  1 <= lineno <= Z.of_nat (length ls) ->
  resolve ls ins (PlusLines (LineChar lineno 0) 1)
  = mkPos (S (Z.to_nat lineno)) 0.
Proof.
  intros H. rewrite resolve_PlusLines, resolve_line_start by assumption.
  unfold clamp_col, end_pos. simpl pline. simpl pcol.
  destruct (length ls <? Z.to_nat lineno + 1)%nat eqn:E.
  - apply Nat.ltb_lt in E. f_equal. lia.
  - f_equal. lia.
Qed.

Lemma get_range_line (ls : list (list N)) (i : nat) (line : list N) :
  ls !! i = Some line ->
  get_range ls (mkPos (S i) 0) (mkPos (S (S i)) 0) = line ++ [newline].
Proof.
  intros Hl. unfold get_range, offset, text_from. simpl pline. simpl pcol.
  replace (S (S i) - 1)%nat with (S i) by lia.
  replace (S i - 1)%nat with i by lia.
  rewrite (take_S_r _ _ _ Hl), with_newlines_snoc_length.
  rewrite (drop_S _ _ _ Hl), drop_0.
  replace (length (with_newlines (take i ls)) + S (length line) + 0
           - (length (with_newlines (take i ls)) + 0))%nat
    with (length (line ++ [newline])) by (rewrite length_app; simpl; lia).
  change (line ++ newline :: with_newlines (drop (S i) ls))
    with (line ++ [newline] ++ with_newlines (drop (S i) ls)).
  rewrite app_assoc. apply take_app_length.
Qed.

Lemma line_text_valid (t : EditorText) (lineno : Z) (line : list N) :
  1 <= lineno ->
  lines t !! (Z.to_nat lineno - 1)%nat = Some line ->
  line_text lineno t = line ++ [newline].
Proof.
  intros H1 Hl. unfold line_text.
  pose proof (lookup_lt_Some _ _ _ Hl) as Hlt.
  rewrite resolve_line_start, resolve_next_line_start by lia.
  replace (Z.to_nat lineno) with (S (Z.to_nat lineno - 1)) at 1 2 by lia.
  now apply get_range_line.
Qed.

Lemma line_text_beyond (t : EditorText) (lineno : Z) :
  Z.of_nat (length (lines t)) < lineno <= 2 ^ 31 -> line_text lineno t = [].
Proof.
  intros H. unfold line_text.
  rewrite resolve_PlusLines, resolve_line_beyond by assumption.
  unfold clamp_col, end_pos. simpl pline. simpl pcol.
  destruct (length (lines t) <? S (length (lines t)) + 1)%nat eqn:E;
    [|apply Nat.ltb_ge in E; lia].
  unfold get_range. now rewrite Nat.sub_diag, take_0.
Qed.

Lemma line_index_bounds (n : nat) (l : Z) :
  - 2 ^ 31 <= line_index n l
  /\ (line_index n l < 2 ^ 31 \/ line_index n l < Z.of_nat n).
Proof.
  unfold line_index. destruct ((1 <=? l) && (l <=? Z.of_nat n)) eqn:E.
  - apply andb_true_iff in E as [E1 E2].
    apply Z.leb_le in E1. apply Z.leb_le in E2. lia.
  - pose proof (c_int_range (strtol l - 1)). lia.
Qed.

Lemma line_text_read (t : EditorText) (lineno : Z) :
  line_text lineno t
  = line_text (line_index (length (lines t)) lineno + 1) t.
Proof.
  unfold line_text. rewrite !resolve_PlusLines.
  now rewrite (resolve_LineChar_read _ _ lineno).
Qed.

Lemma tk_delete_read (t : EditorText) (lineno c1 c2 : Z) :
  tk_delete (LineChar lineno c1) (LineChar lineno c2) t
  = tk_delete (LineChar (line_index (length (lines t)) lineno + 1) c1)
      (LineChar (line_index (length (lines t)) lineno + 1) c2) t.
Proof.
  unfold tk_delete.
  now rewrite (resolve_LineChar_read _ _ lineno c1),
              (resolve_LineChar_read _ _ lineno c2).
Qed.

Lemma valid_line (t : EditorText) (lineno : Z) :
  1 <= lineno <= Z.of_nat (length (lines t)) ->
  exists line, lines t !! (Z.to_nat lineno - 1)%nat = Some line.
Proof.
  intros H. apply lookup_lt_is_Some_2. lia.
Qed.

Lemma splice_repeat_space (pre post : list N) (k : nat) :
  splice pre (repeat space k) post = [pre ++ repeat space k ++ post].
Proof.
  revert pre. induction k as [|k IH]; intros pre; [reflexivity|].
  simpl. rewrite IH. now rewrite <- app_assoc.
Qed.

Lemma advance_repeat_space (p : Pos) (k : nat) :
  advance p (repeat space k) = mkPos (pline p) (pcol p + k).
Proof.
  revert p. induction k as [|k IH]; intros [l c]; simpl.
  - f_equal. lia.
  - rewrite IH. simpl. f_equal. lia.
Qed.

Lemma tk_insert_nil (t : EditorText) (i : Index) : tk_insert i [] t = t.
Proof. reflexivity. Qed.

Lemma tk_insert_spaces (t : EditorText) (i : Index) (l c k : nat)
    (line : list N) :
  resolve (lines t) (insert_mark t) i = mkPos (S l) c ->
  lines t !! l = Some line ->
  (0 < k)%nat ->
  lines (tk_insert i (repeat space k) t)
  = <[l := take c line ++ repeat space k ++ drop c line]> (lines t)
  /\ insert_mark (tk_insert i (repeat space k) t)
     = shift_insert false (mkPos (S l) c) (repeat space k) (insert_mark t).
Proof.
  intros Hp Hl Hk. destruct k as [|k]; [lia|].
  pose proof (lookup_lt_Some _ _ _ Hl) as Hlt.
  unfold tk_insert. cbn [repeat]. rewrite Hp. cbn [pline pcol].
  destruct (length (lines t) <? S l)%nat eqn:E; [apply Nat.ltb_lt in E; lia|].
  cbn [pline pcol set_buffer lines insert_mark].
  unfold line_at. replace (S l - 1)%nat with l by lia. rewrite Hl.
  cbn [default]. split; [|reflexivity].
  change (space :: repeat space k) with (repeat space (S k)).
  rewrite splice_repeat_space. simpl app at 2.
  symmetry. apply insert_take_drop. assumption.
Qed.

Lemma tk_delete_line_start (t : EditorText) (lineno : Z) (k : nat)
    (line : list N) :
  1 <= lineno ->
  lines t !! (Z.to_nat lineno - 1)%nat = Some line ->
  (0 < k <= length line)%nat ->
  lines (tk_delete (LineChar lineno 0) (LineChar lineno (Z.of_nat k)) t)
  = <[(Z.to_nat lineno - 1)%nat := drop k line]> (lines t).
Proof.
  intros H1 Hl Hk.
  pose proof (lookup_lt_Some _ _ _ Hl) as Hlt.
  unfold tk_delete.
  rewrite (resolve_line_col _ _ lineno 0 line) by (try assumption; lia).
  rewrite (resolve_line_col _ _ lineno (Z.of_nat k) line) by (try assumption; lia).
  rewrite Nat2Z.id. change (Z.to_nat 0) with 0%nat.
  unfold pos_ltb at 1. cbn [pline pcol].
  rewrite Nat.ltb_irrefl, Nat.eqb_refl. simpl orb.
  destruct (0 <? k)%nat eqn:E0; [|apply Nat.ltb_ge in E0; lia].
  simpl andb. cbv iota.
  destruct (length (lines t) <? Z.to_nat lineno)%nat eqn:E;
    [apply Nat.ltb_lt in E; lia|].
  simpl andb. cbv iota.
  unfold pos_ltb. cbn [pline pcol].
  rewrite Nat.ltb_irrefl, Nat.eqb_refl, E0. simpl.
  unfold line_at. rewrite Hl. cbn [default].
  symmetry.
  replace (Z.to_nat lineno) with (S (Z.to_nat lineno - 1)) at 3 by lia.
  apply insert_take_drop. assumption.
Qed.

(** Deleting between two indices that resolve to the same position, or
    the wrong way round, deletes nothing. *)
Lemma tk_delete_empty (t : EditorText) (i1 i2 : Index) :
  pos_ltb (resolve (lines t) (insert_mark t) i1)
          (resolve (lines t) (insert_mark t) i2) = false ->
  tk_delete i1 i2 t = t.
Proof. intros H. unfold tk_delete. now rewrite H. Qed.

Lemma pos_ltb_irrefl (p : Pos) : pos_ltb p p = false.
Proof.
  unfold pos_ltb. now rewrite !Nat.ltb_irrefl, Nat.eqb_refl.
Qed.

(** ** Listener dispatch *)

Lemma for_each_call (kind : Callback -> View -> Event)
    (callbacks : list Callback) (t : EditorText) :
  for_each callbacks (call kind) t = (log_calls kind callbacks t, Ok tt).
Proof.
  revert t. induction callbacks as [|c cs IH]; intros t.
  - destruct t. unfold log_calls. simpl. now rewrite app_nil_r.
  - cbn [for_each]. unfold bind at 1. unfold call at 1, modify.
    rewrite IH. destruct t. unfold log_calls, log, view. simpl.
    now rewrite <- app_assoc.
Qed.

Lemma do_cursor_move_eq (t : EditorText) :
  _do_cursor_move t = (cursor_moved t, Ok tt).
Proof.
  unfold _do_cursor_move, cursor_moved, bind, index, gets. simpl.
  destruct (bool_decide (insert_mark t <> _cursorpos t)); [|reflexivity].
  unfold modify. now rewrite for_each_call.
Qed.

Lemma do_modified_eq (t : EditorText) :
  _do_modified t
  = (log_calls CalledOnModified (on_modified t)
       (set_bound true (set_modified false (set_bound false t))), Ok tt).
Proof.
  unfold _do_modified, bind, unbind_Modified, edit_modified, bind_Modified,
    modify, gets.
  now rewrite for_each_call.
Qed.

Lemma cursor_moved_lines (t : EditorText) : lines (cursor_moved t) = lines t.
Proof. unfold cursor_moved. now destruct (bool_decide _). Qed.

Lemma cursor_moved_insert_mark (t : EditorText) :
  insert_mark (cursor_moved t) = insert_mark t.
Proof. unfold cursor_moved. now destruct (bool_decide _). Qed.

Lemma cursor_moved_settings (t : EditorText) :
  settings_indent (cursor_moved t) = settings_indent t.
Proof. unfold cursor_moved. now destruct (bool_decide _). Qed.

Lemma cursor_moved_cache (t : EditorText) :
  _cursorpos (cursor_moved t) = insert_mark (cursor_moved t).
Proof.
  unfold cursor_moved. destruct (bool_decide _) eqn:E; [reflexivity|].
  apply bool_decide_eq_false in E. simpl.
  destruct (decide (insert_mark t = _cursorpos t)) as [->|Hne]; [reflexivity|].
  contradiction.
Qed.

Lemma cursor_moved_line_text (t : EditorText) (lineno : Z) :
  line_text lineno (cursor_moved t) = line_text lineno t.
Proof.
  unfold line_text. now rewrite cursor_moved_lines, cursor_moved_insert_mark.
Qed.

Lemma tk_insert_settings (t : EditorText) (i : Index) (s : list N) :
  settings_indent (tk_insert i s t) = settings_indent t.
Proof. now destruct s. Qed.

Lemma tk_delete_settings (t : EditorText) (i1 i2 : Index) :
  settings_indent (tk_delete i1 i2 t) = settings_indent t.
Proof.
  unfold tk_delete. repeat (destruct (pos_ltb _ _)); reflexivity.
Qed.

(** ** [indent] and [dedent] as equations *)

Lemma indent_eq (t : EditorText) (lineno : Z) :
  settings_indent t <> 0 ->
  let w := settings_indent t in
  let s := leading lineno t in
  indent lineno t
  = (cursor_moved
       (tk_insert (LineChar lineno 0) (str_mul space (w - s mod w)) t),
     Ok (s + (w - s mod w))).
Proof.
  intros Hw w s. subst w s. unfold indent, bind, get, gets, py_mod.
  fold (line_text lineno t). fold (leading lineno t).
  destruct (settings_indent t =? 0) eqn:E; [apply Z.eqb_eq in E; contradiction|].
  unfold ret, insert, modify. now rewrite do_cursor_move_eq.
Qed.

Lemma dedent_eq (t : EditorText) (lineno : Z) :
  settings_indent t <> 0 ->
  let w := settings_indent t in
  let s := leading lineno t in
  let howmany2del := if s mod w =? 0 then w else s mod w in
  dedent lineno t
  = if s =? 0 then (t, Ok 0)
    else (cursor_moved
            (tk_delete (LineChar lineno 0) (LineChar lineno howmany2del) t),
          Ok (s - howmany2del)).
Proof.
  intros Hw w s h. subst w s h. unfold dedent, bind, get, gets, py_mod.
  fold (line_text lineno t). fold (leading lineno t).
  destruct (leading lineno t =? 0); [reflexivity|].
  destruct (settings_indent t =? 0) eqn:E; [apply Z.eqb_eq in E; contradiction|].
  unfold ret, delete, modify. now rewrite do_cursor_move_eq.
Qed.

(** ** Arithmetic of one indent level *)

Lemma next_multiple (w s : Z) :
  0 < w -> smallest_multiple_above w s (s + (w - s mod w)).
Proof.
  intros Hw. pose proof (Z.mod_pos_bound s w Hw) as Hm.
  pose proof (Z.div_mod s w ltac:(lia)) as Hd.
  repeat split.
  - exists (s / w + 1). lia.
  - lia.
  - intros m [q ->] Hlt.
    assert (s / w < q) by nia. nia.
Qed.

Lemma previous_multiple (w s : Z) :
  0 < w ->
  largest_multiple_below w s
    (s - (if s mod w =? 0 then w else s mod w)).
Proof.
  intros Hw. pose proof (Z.mod_pos_bound s w Hw) as Hm.
  pose proof (Z.div_mod s w ltac:(lia)) as Hd.
  destruct (s mod w =? 0) eqn:E.
  - apply Z.eqb_eq in E. repeat split.
    + exists (s / w - 1). lia.
    + lia.
    + intros m [q ->] Hlt. assert (q < s / w) by nia. nia.
  - apply Z.eqb_neq in E. repeat split.
    + exists (s / w). lia.
    + lia.
    + intros m [q ->] Hlt. assert (q <= s / w) by nia. nia.
Qed.

Lemma howmany2del_bounds (w s : Z) :
  0 < w -> 0 < s ->
  0 < (if s mod w =? 0 then w else s mod w) <= s
  /\ (if s mod w =? 0 then w else s mod w) <= w.
Proof.
  intros Hw Hs. pose proof (Z.mod_pos_bound s w Hw) as Hm.
  pose proof (Z.div_mod s w ltac:(lia)) as Hd.
  destruct (s mod w =? 0) eqn:E.
  - apply Z.eqb_eq in E. assert (0 < s / w) by nia. nia.
  - apply Z.eqb_neq in E. pose proof (Z.mod_le s w ltac:(lia) Hw). lia.
Qed.

(** ** [indent] and [dedent] on a line of the buffer *)

Lemma spacecount_line_le (line rest : list N) :
  (spacecount (line ++ newline :: rest) <= length line)%nat.
Proof.
  induction line as [|c line IH]; [reflexivity|].
  simpl app. rewrite spacecount_cons. destruct (indent_char c); simpl; lia.
Qed.

Lemma leading_valid (t : EditorText) (lineno : Z) (line : list N) :
  1 <= lineno ->
  lines t !! (Z.to_nat lineno - 1)%nat = Some line ->
  leading lineno t = Z.of_nat (spacecount (line ++ [newline])).
Proof.
  intros H1 Hl. unfold leading. now rewrite (line_text_valid t lineno line).
Qed.

Lemma spaces2add_pos (t : EditorText) (lineno : Z) :
  0 < settings_indent t -> 0 < spaces2add lineno t <= settings_indent t.
Proof.
  intros Hw. unfold spaces2add.
  pose proof (Z.mod_pos_bound (leading lineno t) _ Hw). lia.
Qed.

Lemma leading_after_insert (t t' : EditorText) (lineno : Z) (line x : list N) :
  1 <= lineno ->
  lines t !! (Z.to_nat lineno - 1)%nat = Some line ->
  lines t' = <[(Z.to_nat lineno - 1)%nat := x]> (lines t) ->
  line_text lineno t' = x ++ [newline].
Proof.
  intros H1 Hl Hlines. apply line_text_valid; [assumption|].
  rewrite Hlines. apply list_lookup_insert_eq.
  now apply lookup_lt_Some in Hl.
Qed.

Lemma indent_on_line (t : EditorText) (lineno : Z) (line : list N) :
  0 < settings_indent t ->
  1 <= lineno ->
  lines t !! (Z.to_nat lineno - 1)%nat = Some line ->
  exists t',
    indent lineno t = (t', Ok (leading lineno t + spaces2add lineno t))
    /\ lines t'
       = <[(Z.to_nat lineno - 1)%nat :=
             repeat space (Z.to_nat (spaces2add lineno t)) ++ line]> (lines t)
    /\ settings_indent t' = settings_indent t
    /\ insert_mark t'
       = shift_insert false (mkPos (Z.to_nat lineno) 0)
           (repeat space (Z.to_nat (spaces2add lineno t))) (insert_mark t)
    /\ _cursorpos t' = insert_mark t'
    /\ leading lineno t' = leading lineno t + spaces2add lineno t.
Proof.
  intros Hw H1 Hl.
  pose proof (lookup_lt_Some _ _ _ Hl) as Hlt.
  pose proof (spaces2add_pos t lineno Hw) as Hk.
  rewrite indent_eq by lia. fold (spaces2add lineno t). unfold str_mul.
  eexists. split; [reflexivity|].
  destruct (tk_insert_spaces t (LineChar lineno 0) (Z.to_nat lineno - 1) 0
              (Z.to_nat (spaces2add lineno t)) line) as [Hlines Hmark].
  { rewrite resolve_line_start by lia. f_equal. lia. }
  { assumption. }
  { lia. }
  rewrite take_0, drop_0 in Hlines. simpl app in Hlines.
  replace (S (Z.to_nat lineno - 1)) with (Z.to_nat lineno) in Hmark by lia.
  split; [|split; [|split; [|split]]].
  - now rewrite cursor_moved_lines.
  - now rewrite cursor_moved_settings, tk_insert_settings.
  - now rewrite cursor_moved_insert_mark.
  - apply cursor_moved_cache.
  - unfold leading at 1. rewrite cursor_moved_line_text.
    rewrite (leading_after_insert t _ lineno line _ H1 Hl Hlines).
    rewrite <- app_assoc, spacecount_repeat_space.
    rewrite (leading_valid t lineno line) by assumption. lia.
Qed.

Lemma dedent_on_line (t : EditorText) (lineno : Z) (line : list N) :
  0 < settings_indent t ->
  1 <= lineno ->
  lines t !! (Z.to_nat lineno - 1)%nat = Some line ->
  0 < leading lineno t ->
  exists t',
    dedent lineno t = (t', Ok (leading lineno t - howmany2del lineno t))
    /\ lines t'
       = <[(Z.to_nat lineno - 1)%nat :=
             drop (Z.to_nat (howmany2del lineno t)) line]> (lines t)
    /\ settings_indent t' = settings_indent t
    /\ _cursorpos t' = insert_mark t'
    /\ leading lineno t' = leading lineno t - howmany2del lineno t.
Proof.
  intros Hw H1 Hl Hs.
  pose proof (howmany2del_bounds _ _ Hw Hs) as [Hh _].
  fold (howmany2del lineno t) in Hh.
  pose proof (leading_valid t lineno line H1 Hl) as Hlead.
  pose proof (spacecount_line_le line []) as Hle.
  rewrite dedent_eq by lia. fold (howmany2del lineno t).
  destruct (leading lineno t =? 0) eqn:E; [apply Z.eqb_eq in E; lia|].
  eexists. split; [reflexivity|].
  assert (Hlines :
    lines (tk_delete (LineChar lineno 0) (LineChar lineno (howmany2del lineno t)) t)
    = <[(Z.to_nat lineno - 1)%nat :=
          drop (Z.to_nat (howmany2del lineno t)) line]> (lines t)).
  { rewrite <- (Z2Nat.id (howmany2del lineno t)) at 1 by lia.
    apply tk_delete_line_start; [assumption..|]. lia. }
  split; [|split; [|split]].
  - now rewrite cursor_moved_lines.
  - now rewrite cursor_moved_settings, tk_delete_settings.
  - apply cursor_moved_cache.
  - unfold leading at 1. rewrite cursor_moved_line_text.
    rewrite (leading_after_insert t _ lineno line _ H1 Hl Hlines).
    rewrite <- drop_app_le by lia.
    rewrite spacecount_drop by lia. lia.
Qed.


(** ** The claims about [indent] and [dedent] *)

(** C1. On a line of the buffer, with a positive indent width [w] and
    [s] leading spaces, [indent] inserts exactly [w - s mod w] spaces at
    the start of the line, leaves the other lines alone, and returns the
    leading-space count of the line as it is afterwards, which is the
    smallest multiple of [w] strictly greater than [s]. *)
Theorem indent_next_level (t : EditorText) (lineno : Z) :
  0 < settings_indent t ->
  1 <= lineno <= Z.of_nat (length (lines t)) ->
  exists t',
    indent lineno t = (t', Ok (leading lineno t + spaces2add lineno t))
    /\ spaces2add lineno t
       = settings_indent t - leading lineno t mod settings_indent t
    /\ line_text lineno t'
       = repeat space (Z.to_nat (spaces2add lineno t)) ++ line_text lineno t
    /\ lines t'
       = <[(Z.to_nat lineno - 1)%nat :=
             repeat space (Z.to_nat (spaces2add lineno t))
               ++ line_at (lines t) (Z.to_nat lineno)]> (lines t)
    /\ leading lineno t' = leading lineno t + spaces2add lineno t
    /\ smallest_multiple_above (settings_indent t) (leading lineno t)
         (leading lineno t + spaces2add lineno t).
Proof.
  intros Hw Hline.
  destruct (valid_line t lineno Hline) as [line Hl].
  destruct (indent_on_line t lineno line Hw ltac:(lia) Hl)
    as (t' & Hrun & Hlines & _).
  pose proof (spaces2add_pos t lineno Hw) as Hk.
  assert (Htext : line_text lineno t'
                  = repeat space (Z.to_nat (spaces2add lineno t))
                      ++ line_text lineno t).
  { rewrite (leading_after_insert t t' lineno line _ ltac:(lia) Hl Hlines).
    rewrite (line_text_valid t lineno line) by (assumption || lia).
    now rewrite app_assoc. }
  exists t'. split; [assumption|]. split; [reflexivity|].
  split; [assumption|]. split.
  { unfold line_at. now rewrite Hl. }
  split.
  - unfold leading at 1. rewrite Htext, spacecount_repeat_space.
    unfold leading. lia.
  - apply next_multiple. assumption.
Qed.

(** C2. With a positive indent width [w]: on a line with no leading
    space [dedent] changes nothing and returns 0; on a line of the buffer
    with [s > 0] leading spaces it deletes [s mod w] characters, or [w]
    when [s mod w = 0], from the start of the line, and returns the
    leading-space count of the line as it is afterwards, which is the
    largest multiple of [w] strictly less than [s] and is not negative. *)
Theorem dedent_previous_level (t : EditorText) (lineno : Z) :
  0 < settings_indent t ->
  1 <= lineno <= Z.of_nat (length (lines t)) ->
  if leading lineno t =? 0 then dedent lineno t = (t, Ok 0)
  else
    exists t',
      dedent lineno t = (t', Ok (leading lineno t - howmany2del lineno t))
      /\ howmany2del lineno t
         = (if leading lineno t mod settings_indent t =? 0
            then settings_indent t
            else leading lineno t mod settings_indent t)
      /\ line_text lineno t'
         = drop (Z.to_nat (howmany2del lineno t)) (line_text lineno t)
      /\ lines t'
         = <[(Z.to_nat lineno - 1)%nat :=
               drop (Z.to_nat (howmany2del lineno t))
                 (line_at (lines t) (Z.to_nat lineno))]> (lines t)
      /\ leading lineno t' = leading lineno t - howmany2del lineno t
      /\ 0 <= leading lineno t - howmany2del lineno t
      /\ largest_multiple_below (settings_indent t) (leading lineno t)
           (leading lineno t - howmany2del lineno t).
Proof.
  intros Hw Hline.
  destruct (leading lineno t =? 0) eqn:E.
  { rewrite dedent_eq by lia. now rewrite E. }
  apply Z.eqb_neq in E.
  assert (Hs : 0 < leading lineno t) by (unfold leading in *; lia).
  destruct (valid_line t lineno Hline) as [line Hl].
  destruct (dedent_on_line t lineno line Hw ltac:(lia) Hl Hs)
    as (t' & Hrun & Hlines & _).
  pose proof (howmany2del_bounds _ _ Hw Hs) as [Hh _].
  fold (howmany2del lineno t) in Hh.
  pose proof (leading_valid t lineno line ltac:(lia) Hl) as Hlead.
  pose proof (spacecount_line_le line []) as Hle.
  assert (Htext : line_text lineno t'
                  = drop (Z.to_nat (howmany2del lineno t)) (line_text lineno t)).
  { rewrite (leading_after_insert t t' lineno line _ ltac:(lia) Hl Hlines).
    rewrite (line_text_valid t lineno line) by (assumption || lia).
    rewrite drop_app_le by lia. reflexivity. }
  exists t'. split; [assumption|]. split; [reflexivity|].
  split; [assumption|]. split.
  { unfold line_at. now rewrite Hl. }
  split; [|split].
  - unfold leading at 1. rewrite Htext, spacecount_drop.
    + unfold leading in *. lia.
    + unfold leading in Hh. lia.
  - lia.
  - apply previous_multiple. assumption.
Qed.



(** C5. With a positive indent width, for every line number: [dedent]
    returns a count that is not negative and removes from the buffer at
    most as many characters as the line has leading whitespace; [indent]
    returns a count that is not negative. *)
Theorem indent_dedent_bounds (t : EditorText) (lineno : Z) :
  0 < settings_indent t ->
  (exists t' r,
      dedent lineno t = (t', Ok r)
      /\ 0 <= r
      /\ (buffer_size t' <= buffer_size t)%nat
      /\ Z.of_nat (buffer_size t - buffer_size t') <= leading lineno t)
  /\ (exists t' r, indent lineno t = (t', Ok r) /\ 0 <= r).
Proof.
  intros Hw. split.
  - rewrite dedent_eq by lia.
    destruct (leading lineno t =? 0) eqn:E.
    { exists t, 0. apply Z.eqb_eq in E. rewrite E.
      repeat split; try lia. }
    apply Z.eqb_neq in E.
    assert (Hs : 0 < leading lineno t) by (unfold leading in *; lia).
    pose proof (howmany2del_bounds _ _ Hw Hs) as [Hh _].
    fold (howmany2del lineno t) in *.
    eexists _, _. split; [reflexivity|]. split; [lia|].
    unfold buffer_size. rewrite cursor_moved_lines.
    (* the line that the toolkit reads the number as *)
    rewrite tk_delete_read.
    assert (Hread : leading lineno t
                    = leading (line_index (length (lines t)) lineno + 1) t)
      by (unfold leading; now rewrite line_text_read).
    destruct (line_index_bounds (length (lines t)) lineno) as [Hmin Hmax].
    set (l := line_index (length (lines t)) lineno + 1) in *.
    destruct (Z_lt_le_dec l 1) as [Hlow|Hlow].
    { rewrite tk_delete_empty.
      - split; [lia|]. rewrite Nat.sub_diag. lia.
      - rewrite !resolve_line_before by lia. apply pos_ltb_irrefl. }
    destruct (Z_lt_le_dec (Z.of_nat (length (lines t))) l) as [Hhigh|Hhigh].
    { exfalso. rewrite Hread in Hs. unfold leading in Hs.
      rewrite line_text_beyond, spacecount_nil in Hs by lia. lia. }
    destruct (valid_line t l ltac:(lia)) as [line Hl].
    pose proof (leading_valid t l line Hlow Hl) as Hlead.
    pose proof (spacecount_line_le line []) as Hle.
    unfold howmany2del in *. rewrite Hread in *.
    rewrite <- (Z2Nat.id (if leading l t mod settings_indent t =? 0
                          then settings_indent t
                          else leading l t mod settings_indent t)) at 1 2 by lia.
    rewrite (tk_delete_line_start t l _ line) by (assumption || lia).
    pose proof (with_newlines_insert_length (lines t) _ line
                  (drop (Z.to_nat (if leading l t mod settings_indent t =? 0
                                   then settings_indent t
                                   else leading l t mod settings_indent t)) line)
                  Hl) as Hsz.
    rewrite length_drop in Hsz. lia.
  - rewrite indent_eq by lia. eexists _, _. split; [reflexivity|].
    pose proof (Z.mod_pos_bound (leading lineno t) _ Hw).
    unfold leading in *. lia.
Qed.

Lemma indent_dedent_bounds_witness :
  (exists t' r,
      dedent 1 (widget ["     x"%string] (mkPos 1 0) 4) = (t', Ok r)
      /\ 0 <= r
      /\ (buffer_size t' <= buffer_size (widget ["     x"%string] (mkPos 1 0) 4))%nat
      /\ Z.of_nat (buffer_size (widget ["     x"%string] (mkPos 1 0) 4) - buffer_size t')
         <= leading 1 (widget ["     x"%string] (mkPos 1 0) 4))
  /\ (exists t' r,
         indent 1 (widget ["     x"%string] (mkPos 1 0) 4) = (t', Ok r) /\ 0 <= r).
Proof.
  apply (indent_dedent_bounds (widget ["     x"%string] (mkPos 1 0) 4) 1).
  reflexivity.
Defined.

Lemma indent_next_level_witness :
  (exists t', indent 1 (widget ["x"%string] (mkPos 1 0) 4) = (t', Ok 4)
              /\ lines t' = [py "    x"])
  /\ (exists t', indent 1 (widget ["   x"%string] (mkPos 1 0) 4) = (t', Ok 4)
                 /\ lines t' = [py "    x"])
  /\ (exists t', indent 1 (widget ["    x"%string] (mkPos 1 0) 4) = (t', Ok 8)
                 /\ lines t' = [py "        x"]).
Proof.
  split; [|split].
  - destruct (indent_next_level (widget ["x"%string] (mkPos 1 0) 4) 1)
      as (t' & H1 & _ & _ & H2 & _).
    + reflexivity.
    + vm_compute. split; discriminate.
    + exists t'. split; [exact H1 | exact H2].
  - destruct (indent_next_level (widget ["   x"%string] (mkPos 1 0) 4) 1)
      as (t' & H1 & _ & _ & H2 & _).
    + reflexivity.
    + vm_compute. split; discriminate.
    + exists t'. split; [exact H1 | exact H2].
  - destruct (indent_next_level (widget ["    x"%string] (mkPos 1 0) 4) 1)
      as (t' & H1 & _ & _ & H2 & _).
    + reflexivity.
    + vm_compute. split; discriminate.
    + exists t'. split; [exact H1 | exact H2].
Defined.

Lemma dedent_previous_level_witness :
  (exists t', dedent 1 (widget ["     x"%string] (mkPos 1 0) 4) = (t', Ok 4)
              /\ lines t' = [py "    x"])
  /\ (exists t', dedent 1 (widget ["    x"%string] (mkPos 1 0) 4) = (t', Ok 0)
                 /\ lines t' = [py "x"])
  /\ (exists t', dedent 1 (widget ["       x"%string] (mkPos 1 0) 4) = (t', Ok 4)
                 /\ lines t' = [py "    x"])
  /\ dedent 1 (widget ["x"%string] (mkPos 1 0) 4)
     = (widget ["x"%string] (mkPos 1 0) 4, Ok 0).
Proof.
  split; [|split; [|split]].
  - pose proof (dedent_previous_level (widget ["     x"%string] (mkPos 1 0) 4) 1
                  eq_refl ltac:(vm_compute; split; discriminate)) as H.
    change (leading 1 (widget ["     x"%string] (mkPos 1 0) 4) =? 0)
      with false in H. cbv iota in H.
    destruct H as (t' & H1 & _ & _ & H2 & _).
    exists t'. split; [exact H1 | exact H2].
  - pose proof (dedent_previous_level (widget ["    x"%string] (mkPos 1 0) 4) 1
                  eq_refl ltac:(vm_compute; split; discriminate)) as H.
    change (leading 1 (widget ["    x"%string] (mkPos 1 0) 4) =? 0)
      with false in H. cbv iota in H.
    destruct H as (t' & H1 & _ & _ & H2 & _).
    exists t'. split; [exact H1 | exact H2].
  - pose proof (dedent_previous_level (widget ["       x"%string] (mkPos 1 0) 4) 1
                  eq_refl ltac:(vm_compute; split; discriminate)) as H.
    change (leading 1 (widget ["       x"%string] (mkPos 1 0) 4) =? 0)
      with false in H. cbv iota in H.
    destruct H as (t' & H1 & _ & _ & H2 & _).
    exists t'. split; [exact H1 | exact H2].
  - exact (dedent_previous_level (widget ["x"%string] (mkPos 1 0) 4) 1
             eq_refl ltac:(vm_compute; split; discriminate)).
Defined.

(** ** Listeners *)

(** C6. A cursor-move check compares the position of the insert mark
    with the cached one. When they are equal the widget is left as it is
    and no listener is called. When they differ the cache takes the new
    position and every listener of [on_cursor_move] is called once, in the
    order of the list, each seeing the cache already equal to the position
    of the insert mark. Either way the cache equals the position of the
    insert mark when the check is over. *)
Theorem cursor_move_check (t : EditorText) :
  _do_cursor_move t
  = (if bool_decide (insert_mark t = _cursorpos t) then t
     else
       mkEditorText (lines t) (insert_mark t) (sel_ranges t) (modified t)
         (tk_undo t) (bound_Modified t) (idle t)
         (settings_indent t) (insert_mark t) (on_cursor_move t) (on_modified t)
         (trace t
            ++ map (fun c =>
                      CalledOnCursorMove c
                        (mkView (modified t) (bound_Modified t)
                           (insert_mark t) (insert_mark t)))
                 (on_cursor_move t)),
     Ok tt)
  /\ _cursorpos (fst (_do_cursor_move t)) = insert_mark (fst (_do_cursor_move t)).
Proof.
  rewrite do_cursor_move_eq. split; [|apply cursor_moved_cache].
  unfold cursor_moved.
  destruct (decide (insert_mark t = _cursorpos t)) as [Heq|Hne].
  - rewrite (bool_decide_eq_true_2 _ Heq).
    rewrite bool_decide_eq_false_2; [reflexivity|]. intros H. now apply H.
  - rewrite (bool_decide_eq_false_2 _ Hne).
    rewrite bool_decide_eq_true_2 by assumption. reflexivity.
Qed.

(** C7. The handler of the modification event clears the modified flag
    and restores its own binding, then calls every listener of
    [on_modified] once, in the order of the list; each listener sees the
    flag cleared. When the handler is over the flag is cleared and the
    handler is bound, so that the next insertion sets the flag again. *)
Theorem modified_handler (t : EditorText) :
  _do_modified t
  = (mkEditorText (lines t) (insert_mark t) (sel_ranges t) false
       (tk_undo t) true (idle t)
       (settings_indent t) (_cursorpos t) (on_cursor_move t) (on_modified t)
       (trace t
          ++ map (fun c =>
                    CalledOnModified c
                      (mkView false true (insert_mark t) (_cursorpos t)))
               (on_modified t)),
     Ok tt)
  /\ modified (fst (_do_modified t)) = false
  /\ bound_Modified (fst (_do_modified t)) = true
  /\ forall i c s, modified (tk_insert i (c :: s) (fst (_do_modified t))) = true.
Proof.
  rewrite do_modified_eq. repeat split.
Qed.

(** C8. [undo] and [redo] hand the request to the history of the
    toolkit, which signals an empty stack when its [undo] option is on.
    When the history has nothing in the requested direction they absorb
    the toolkit's error and return [None], and the widget is as before:
    no cursor-move check has run, the cache and the listeners are
    untouched even when the cursor is away from the cache. When the
    history has an edit they return ['break'] with the buffer as the
    toolkit leaves it and the cursor-move check done: the cache holds the
    new position of the cursor, and the listeners of [on_cursor_move] were
    called, once each and in order, exactly when that position is not the
    cached one. A widget built with the option off never gets the signal:
    the buffer stays as it is, the check runs and ['break'] is
    returned. *)
Theorem undo_redo_history (t : EditorText) (step : HistoryStep) :
  if tk_undo t then
    match step with
    | NothingToDo =>
        undo step t = (t, Ok RetNone) /\ redo step t = (t, Ok RetNone)
    | Edited ls ins sel flag =>
        exists t',
          undo step t = (t', Ok RetBreak)
          /\ redo step t = (t', Ok RetBreak)
          /\ lines t' = ls
          /\ insert_mark t' = ins
          /\ sel_ranges t' = sel
          /\ modified t' = flag
          /\ _cursorpos t' = ins
          /\ trace t'
             = trace t
                 ++ (if bool_decide (ins = _cursorpos t) then []
                     else map (fun c =>
                                 CalledOnCursorMove c
                                   (mkView flag (bound_Modified t) ins ins))
                            (on_cursor_move t))
    end
  else
    exists t',
      undo step t = (t', Ok RetBreak)
      /\ redo step t = (t', Ok RetBreak)
      /\ lines t' = lines t
      /\ insert_mark t' = insert_mark t
      /\ sel_ranges t' = sel_ranges t
      /\ modified t' = modified t
      /\ _cursorpos t' = insert_mark t
      /\ trace t'
         = trace t
             ++ (if bool_decide (insert_mark t = _cursorpos t) then []
                 else map (fun c =>
                             CalledOnCursorMove c
                               (mkView (modified t) (bound_Modified t)
                                  (insert_mark t) (insert_mark t)))
                        (on_cursor_move t)).
Proof.
  unfold undo, redo, try_except_else, edit_undo, edit_redo.
  destruct (tk_undo t) eqn:Hopt.
  - destruct step as [|ls ins sel flag]; [split; reflexivity|].
    unfold bind. rewrite do_cursor_move_eq. eexists.
    split; [reflexivity|]. split; [reflexivity|].
    unfold cursor_moved. cbn [set_text insert_mark _cursorpos].
    destruct (decide (ins = _cursorpos t)) as [Heq|Hne].
    + rewrite bool_decide_eq_false_2 by (intros H; now apply H).
      rewrite (bool_decide_eq_true_2 _ Heq), app_nil_r.
      repeat split. exact (eq_sym Heq).
    + rewrite (bool_decide_eq_true_2 _ Hne), (bool_decide_eq_false_2 _ Hne).
      repeat split.
  - unfold bind. rewrite do_cursor_move_eq. eexists.
    split; [reflexivity|]. split; [reflexivity|].
    rewrite cursor_moved_lines, cursor_moved_insert_mark, cursor_moved_cache,
      cursor_moved_insert_mark.
    unfold cursor_moved.
    destruct (decide (insert_mark t = _cursorpos t)) as [Heq|Hne].
    + rewrite bool_decide_eq_false_2 by (intros H; now apply H).
      rewrite (bool_decide_eq_true_2 _ Heq), app_nil_r. repeat split.
    + rewrite (bool_decide_eq_true_2 _ Hne), (bool_decide_eq_false_2 _ Hne).
      repeat split.
Qed.

(** [None] with the cursor away from the cache, which a cursor-move
    check would have brought up to date; ['break'] after the toolkit took
    back an insertion at the start of the buffer; ['break'] from a widget
    that keeps no history. *)
Example undo_nothing_then_something :
  undo NothingToDo (widget ["ab"%string] (mkPos 1 2) 4)
  = (widget ["ab"%string] (mkPos 1 2) 4, Ok RetNone)
  /\ (exists t',
        undo (Edited [py "b"] (mkPos 1 0) [] false)
          (set_cursorpos (mkPos 1 1) (widget ["ab"%string] (mkPos 1 1) 4))
        = (t', Ok RetBreak)
        /\ lines t' = [py "b"]
        /\ _cursorpos t' = mkPos 1 0
        /\ length (trace t') = 2%nat)
  /\ snd (redo NothingToDo
            (mkEditorText [py "ab"] (mkPos 1 2) [] false false true [] 4
               (mkPos 1 0) [1%nat] [] []))
     = Ok RetBreak.
Proof.
  split; [reflexivity|]. split; [|reflexivity].
  eexists. repeat split.
Qed.

(** C10. [spacecount] returns the length of the longest prefix made of
    whitespace characters other than the newline. A tab, like any other
    whitespace that is not the newline (the no-break space, say), counts;
    the newline is whitespace and ends the count. So [indent] and
    [dedent] take a leading tab for a leading space. *)
Theorem spacecount_longest_prefix (s : list N) :
  longest_prefix_len indent_char s (spacecount s)
  /\ isspace tab = true
  /\ isspace newline = true
  /\ spacecount (tab :: s) = S (spacecount s)
  /\ spacecount (160%N :: s) = S (spacecount s)
  /\ spacecount (newline :: s) = 0%nat
  /\ (exists t',
        indent 1 (widget_of_lines [tab :: py "x"] (mkPos 1 0) 4) = (t', Ok 4)
        /\ lines t' = [py "   " ++ tab :: py "x"])
  /\ (exists t',
        dedent 1 (widget_of_lines [tab :: tab :: py "x"] (mkPos 1 0) 4)
        = (t', Ok 0)
        /\ lines t' = [py "x"]).
Proof.
  split; [|repeat split].
  - split; [apply spacecount_le_length|].
    split; [apply spacecount_prefix|apply spacecount_maximal].
  - now rewrite spacecount_cons.
  - now rewrite spacecount_cons.
  - eexists. split; vm_compute; reflexivity.
  - eexists. split; vm_compute; reflexivity.
Qed.

(** ** The Tab key *)

Lemma py_range_empty (a b : Z) : b <= a -> py_range a b = [].
Proof.
  intros H. unfold py_range. now replace (Z.to_nat (b - a)) with 0%nat by lia.
Qed.

Lemma py_range_cons (a b : Z) : a < b -> py_range a b = a :: py_range (a + 1) b.
Proof.
  intros H. unfold py_range.
  replace (Z.to_nat (b - a)) with (S (Z.to_nat (b - (a + 1)))) by lia.
  cbn [seq map]. f_equal; [lia|].
  rewrite <- seq_shift, map_map. apply map_ext. intros i. lia.
Qed.

(** Neither action raises when the indent width is not zero, and neither
    changes the settings. *)
Lemma action_ok (shifted : bool) (lineno : Z) (t : EditorText) :
  0 < settings_indent t ->
  exists t' r,
    (if shifted then dedent else indent) lineno t = (t', Ok r)
    /\ settings_indent t' = settings_indent t.
Proof.
  intros Hw. destruct shifted.
  - rewrite dedent_eq by lia. destruct (leading lineno t =? 0).
    + now exists t, 0.
    + eexists _, _. split; [reflexivity|].
      now rewrite cursor_moved_settings, tk_delete_settings.
  - rewrite indent_eq by lia. eexists _, _. split; [reflexivity|].
    now rewrite cursor_moved_settings, tk_insert_settings.
Qed.

Lemma for_range_applied (action : Z -> M Z) (b : Z) (n : nat) :
  forall (a : Z) (t : EditorText),
    n = Z.to_nat (b + 1 - a) ->
    (forall l x, 0 < settings_indent x ->
                 exists x' r, action l x = (x', Ok r)
                              /\ settings_indent x' = settings_indent x) ->
    0 < settings_indent t ->
    exists t',
      for_each (py_range a (b + 1)) (fun lineno => action lineno ;; ret tt) t
      = (t', Ok tt)
      /\ applied_in_order action a b t t'
      /\ settings_indent t' = settings_indent t.
Proof.
  induction n as [|n IH]; intros a t Hn Hact Hw.
  - rewrite py_range_empty by lia. exists t. split; [reflexivity|].
    split; [apply applied_done; lia|reflexivity].
  - rewrite py_range_cons by lia. cbn [for_each].
    destruct (Hact a t Hw) as (t1 & r & Hrun & Hset).
    destruct (IH (a + 1) t1 ltac:(lia) Hact ltac:(lia)) as (t' & Hloop & Happ & Hset').
    exists t'. unfold bind at 1 2. rewrite Hrun. unfold ret at 1.
    split; [exact Hloop|]. split; [|lia].
    eapply applied_step; [lia|exact Hrun|exact Happ].
Qed.

(** The action on one line of the buffer, as a change of that line. *)
Lemma action_on_line (shifted : bool) (t : EditorText) (lineno : Z)
    (line : list N) :
  0 < settings_indent t ->
  1 <= lineno ->
  lines t !! (Z.to_nat lineno - 1)%nat = Some line ->
  exists t' r,
    (if shifted then dedent else indent) lineno t = (t', Ok r)
    /\ lines t'
       = <[(Z.to_nat lineno - 1)%nat :=
             (if shifted then dedent_line else indent_line)
               (settings_indent t) line]> (lines t)
    /\ settings_indent t' = settings_indent t.
Proof.
  intros Hw H1 Hl.
  pose proof (leading_valid t lineno line H1 Hl) as Hlead.
  destruct shifted.
  - destruct (Z.eq_dec (leading lineno t) 0) as [Hz|Hnz].
    + exists t, 0. rewrite dedent_eq by lia.
      rewrite (proj2 (Z.eqb_eq _ _) Hz). split; [reflexivity|].
      split; [|reflexivity]. unfold dedent_line.
      rewrite <- Hlead, (proj2 (Z.eqb_eq _ _) Hz).
      symmetry. now apply list_insert_id.
    + assert (Hs : 0 < leading lineno t) by (unfold leading in *; lia).
      destruct (dedent_on_line t lineno line Hw H1 Hl Hs)
        as (t' & Hrun & Hlines & Hset & _).
      exists t', (leading lineno t - howmany2del lineno t).
      split; [assumption|]. split; [|assumption].
      rewrite Hlines. unfold dedent_line, howmany2del.
      rewrite <- Hlead, (proj2 (Z.eqb_neq _ _) Hnz). reflexivity.
  - destruct (indent_on_line t lineno line Hw H1 Hl)
      as (t' & Hrun & Hlines & Hset & _).
    exists t', (leading lineno t + spaces2add lineno t).
    split; [assumption|]. split; [|assumption].
    rewrite Hlines. unfold indent_line, spaces2add. now rewrite <- Hlead.
Qed.

Lemma applied_lines (shifted : bool) (a b : Z) (t t' : EditorText) :
  applied_in_order (if shifted then dedent else indent) a b t t' ->
  0 < settings_indent t ->
  1 <= a ->
  b <= Z.of_nat (length (lines t)) ->
  forall i : nat,
    lines t' !! i
    = if (a - 1 <=? Z.of_nat i) && (Z.of_nat i <? b)
      then (if shifted then dedent_line else indent_line) (settings_indent t)
             <$> lines t !! i
      else lines t !! i.
Proof.
  induction 1 as [a b t Hlt | a b t t1 t' r Hle Hrun Happ IH];
    intros Hw H1 Hb i.
  - destruct (a - 1 <=? Z.of_nat i) eqn:E1; [|reflexivity].
    destruct (Z.of_nat i <? b) eqn:E2; [|reflexivity].
    apply Z.leb_le in E1. apply Z.ltb_lt in E2. lia.
  - destruct (valid_line t a ltac:(lia)) as [line Hl].
    destruct (action_on_line shifted t a line Hw H1 Hl)
      as (t1' & r' & Hrun' & Hlines & Hset).
    rewrite Hrun in Hrun'. inversion Hrun'; subst t1' r'. clear Hrun'.
    assert (Hlen : length (lines t1) = length (lines t))
      by (rewrite Hlines; apply length_insert).
    rewrite IH by lia. rewrite Hset, Hlines.
    destruct (decide (i = (Z.to_nat a - 1)%nat)) as [->|Hne].
    + rewrite list_lookup_insert_eq by (now apply lookup_lt_Some in Hl).
      rewrite Hl.
      destruct (a + 1 - 1 <=? Z.of_nat (Z.to_nat a - 1)) eqn:E1;
        [apply Z.leb_le in E1; lia|].
      destruct (a - 1 <=? Z.of_nat (Z.to_nat a - 1)) eqn:E2;
        [|apply Z.leb_gt in E2; lia].
      destruct (Z.of_nat (Z.to_nat a - 1) <? b) eqn:E3;
        [|apply Z.ltb_ge in E3; lia].
      reflexivity.
    + rewrite list_lookup_insert_ne by congruence.
      destruct (a + 1 - 1 <=? Z.of_nat i) eqn:E1;
        destruct (a - 1 <=? Z.of_nat i) eqn:E2; try reflexivity.
      * apply Z.leb_le in E1. apply Z.leb_gt in E2. lia.
      * apply Z.leb_gt in E1. apply Z.leb_le in E2. lia.
Qed.

Lemma unpack_sel (t : EditorText) :
  (ranges <- tag_ranges_sel ;; unpack2 ranges) t
  = match sel_ranges t with
    | [(sel_start, sel_end)] => (t, Ok (sel_start, sel_end))
    | _ => (t, Raise ValueError)
    end.
Proof.
  unfold bind, tag_ranges_sel, gets.
  destruct (sel_ranges t) as [|[a b] [|[c d] rest]]; reflexivity.
Qed.

Lemma tab_on_block (shifted : bool) (t : EditorText) (sel_start sel_end : Pos) :
  0 < settings_indent t ->
  sel_ranges t = [(sel_start, sel_end)] ->
  exists t',
    _on_tab shifted t = (t', Ok RetBreak)
    /\ applied_in_order (if shifted then dedent else indent)
         (lineno_of sel_start) (lineno_of sel_end) t t'.
Proof.
  intros Hw Hsel.
  destruct (for_range_applied (if shifted then dedent else indent)
              (lineno_of sel_end)
              (Z.to_nat (lineno_of sel_end + 1 - lineno_of sel_start))
              (lineno_of sel_start) t eq_refl
              (fun l x => action_ok shifted l x) Hw)
    as (t' & Hloop & Happ & _).
  exists t'. split; [|exact Happ].
  unfold _on_tab, try_except_else. unfold bind at 1.
  rewrite unpack_sel, Hsel, Hloop. reflexivity.
Qed.

Lemma tab_off_block (shifted : bool) (t : EditorText) :
  0 < settings_indent t ->
  (forall sel_start sel_end, sel_ranges t <> [(sel_start, sel_end)]) ->
  snd (_on_tab shifted t) = Ok RetBreak.
Proof.
  intros Hw Hsel.
  unfold _on_tab, try_except_else. unfold bind at 1.
  rewrite unpack_sel.
  assert (Hraise :
    match sel_ranges t with
    | [(sel_start, sel_end)] => (t, Ok (sel_start, sel_end))
    | _ => (t, Raise ValueError)
    end = (t, Raise ValueError)).
  { destruct (sel_ranges t) as [|[a b] [|[c d] rest]]; try reflexivity.
    now destruct (Hsel a b). }
  rewrite Hraise. cbn [bool_decide decide_rel].
  change (bool_decide (ValueError = ValueError)) with true. cbv iota.
  unfold bind at 1, index, gets. unfold bind at 1, get, gets.
  match goal with
  | |- context [if ?c then _ else _] => destruct c
  end.
  - destruct (action_ok shifted (lineno_of (resolve (lines t) (insert_mark t) MarkInsert))
                t Hw) as (t' & r & Hrun & _).
    unfold bind. rewrite Hrun. reflexivity.
  - reflexivity.
Qed.

(** C9. With a positive indent width the Tab handler returns ['break']
    in every case. When one range is selected, from a position on line
    [a] to a position on line [b], the action ([dedent] when shifted,
    [indent] otherwise) is called on [a], [a+1], ..., [b], once each and
    in this order; when these are lines of the buffer, each of them is
    indented or dedented once and the other lines are left alone. *)
Theorem tab_key (t : EditorText) (shifted : bool) :
  0 < settings_indent t ->
  snd (_on_tab shifted t) = Ok RetBreak
  /\ forall sel_start sel_end,
       sel_ranges t = [(sel_start, sel_end)] ->
       applied_in_order (if shifted then dedent else indent)
         (lineno_of sel_start) (lineno_of sel_end) t (fst (_on_tab shifted t))
       /\ ((1 <= pline sel_start)%nat ->
           (pline sel_end <= length (lines t))%nat ->
           forall i : nat,
             lines (fst (_on_tab shifted t)) !! i
             = if (pline sel_start - 1 <=? i)%nat && (i <? pline sel_end)%nat
               then (if shifted then dedent_line else indent_line)
                      (settings_indent t) <$> lines t !! i
               else lines t !! i).
Proof.
  intros Hw. split.
  - destruct (sel_ranges t) as [|[a b] [|r2 rest]] eqn:Hsel.
    + apply tab_off_block; [assumption|]. intros. now rewrite Hsel.
    + destruct (tab_on_block shifted t a b Hw Hsel) as (t' & Hrun & _).
      now rewrite Hrun.
    + apply tab_off_block; [assumption|]. intros. now rewrite Hsel.
  - intros sel_start sel_end Hsel.
    destruct (tab_on_block shifted t sel_start sel_end Hw Hsel)
      as (t' & Hrun & Happ).
    rewrite Hrun. cbn [fst]. split; [exact Happ|].
    intros H1 Hb i.
    rewrite (applied_lines shifted _ _ t t' Happ Hw)
      by (unfold lineno_of; lia).
    unfold lineno_of.
    replace (Z.of_nat (pline sel_start) - 1 <=? Z.of_nat i)
      with (pline sel_start - 1 <=? i)%nat.
    + replace (Z.of_nat i <? Z.of_nat (pline sel_end))
        with (i <? pline sel_end)%nat; [reflexivity|].
      destruct (i <? pline sel_end)%nat eqn:E1;
        destruct (Z.of_nat i <? Z.of_nat (pline sel_end)) eqn:E2;
        try reflexivity.
      * apply Nat.ltb_lt in E1. apply Z.ltb_ge in E2. lia.
      * apply Nat.ltb_ge in E1. apply Z.ltb_lt in E2. lia.
    + destruct (pline sel_start - 1 <=? i)%nat eqn:E1;
        destruct (Z.of_nat (pline sel_start) - 1 <=? Z.of_nat i) eqn:E2;
        try reflexivity.
      * apply Nat.leb_le in E1. apply Z.leb_gt in E2. lia.
      * apply Nat.leb_gt in E1. apply Z.leb_le in E2. lia.
Qed.

Lemma tab_key_witness :
  snd (_on_tab false
         (set_sel [(mkPos 1 1, mkPos 2 1)]
            (widget ["a"%string; " b"%string; "c"%string] (mkPos 1 0) 4)))
  = Ok RetBreak
  /\ lines (fst (_on_tab false
                   (set_sel [(mkPos 1 1, mkPos 2 1)]
                      (widget ["a"%string; " b"%string; "c"%string] (mkPos 1 0) 4))))
       !! 0%nat = Some (py "    a")
  /\ lines (fst (_on_tab false
                   (set_sel [(mkPos 1 1, mkPos 2 1)]
                      (widget ["a"%string; " b"%string; "c"%string] (mkPos 1 0) 4))))
       !! 1%nat = Some (py "    b")
  /\ lines (fst (_on_tab false
                   (set_sel [(mkPos 1 1, mkPos 2 1)]
                      (widget ["a"%string; " b"%string; "c"%string] (mkPos 1 0) 4))))
       !! 2%nat = Some (py "c").
Proof.
  destruct (tab_key
              (set_sel [(mkPos 1 1, mkPos 2 1)]
                 (widget ["a"%string; " b"%string; "c"%string] (mkPos 1 0) 4))
              false eq_refl) as [Hret Hsel].
  destruct (Hsel (mkPos 1 1) (mkPos 2 1) eq_refl) as [_ Hlines].
  assert (H1 : (1 <= 1)%nat) by constructor.
  assert (H2 : (2 <= 3)%nat) by (repeat constructor).
  split; [exact Hret|].
  split; [exact (Hlines H1 H2 0%nat)|].
  split; [exact (Hlines H1 H2 1%nat)|exact (Hlines H1 H2 2%nat)].
Defined.

(** ** Auto-indent *)

Lemma resolve_MinusLines (ls : list (list N)) (ins : Pos) (i : Index) (n : nat) :
  resolve ls ins (MinusLines i n)
  = clamp_col ls (Nat.max 1 (pline (resolve ls ins i) - n))
      (pcol (resolve ls ins i)).
Proof. reflexivity. Qed.

Lemma resolve_prev_line_start (ls : list (list N)) (ins : Pos) (lineno : Z) :
  2 <= lineno <= Z.of_nat (length ls) ->
  resolve ls ins (MinusLines (LineChar lineno 0) 1)
  = mkPos (Z.to_nat lineno - 1) 0.
Proof.
  intros H. rewrite resolve_MinusLines, resolve_line_start by lia.
  unfold clamp_col. cbn [pline pcol].
  destruct (length ls <? Nat.max 1 (Z.to_nat lineno - 1))%nat eqn:E;
    [apply Nat.ltb_lt in E; lia|].
  f_equal; lia.
Qed.

Lemma shift_insert_at_mark (p : Pos) (k : nat) :
  shift_insert false p (repeat space k) p = mkPos (pline p) (pcol p + k).
Proof.
  unfold shift_insert. rewrite pos_ltb_irrefl. simpl orb. cbv iota.
  rewrite Nat.eqb_refl, advance_repeat_space. cbn [pline pcol].
  f_equal. lia.
Qed.

Lemma tk_insert_at_mark (t : EditorText) (l c k : nat) (line : list N) :
  insert_mark t = mkPos (S l) c ->
  lines t !! l = Some line ->
  lines (tk_insert MarkInsert (repeat space k) t)
  = <[l := take c line ++ repeat space k ++ drop c line]> (lines t).
Proof.
  intros Hmark Hl. destruct k as [|k].
  - rewrite tk_insert_nil. simpl app. rewrite take_drop.
    symmetry. now apply list_insert_id.
  - destruct (tk_insert_spaces t MarkInsert l c (S k) line) as [H _];
      [exact Hmark | exact Hl | lia | exact H].
Qed.

(** C3, as the code has it. With a positive indent width and the cursor
    at the start of a line of the buffer that has a line above it, the
    auto-indent reads the line above: when that line, trailing whitespace
    apart, ends with a colon or an opening bracket, the new line is
    indented by one level; then as many spaces as the line above has
    leading whitespace are inserted at the cursor. Nothing else in the
    buffer changes. *)
Theorem autoindent_new_line (t : EditorText) (l : nat) (prev cur : list N) :
  0 < settings_indent t ->
  insert_mark t = mkPos (S (S l)) 0 ->
  lines t !! l = Some prev ->
  lines t !! S l = Some cur ->
  exists t',
    _autoindent t = (t', Ok tt)
    /\ t' = tk_insert MarkInsert (repeat space (spacecount (prev ++ [newline])))
              (if block_opener (rstrip (prev ++ [newline]))
               then fst (indent (Z.of_nat (S (S l))) t) else t)
    /\ lines t'
       = <[S l :=
             repeat space
               ((if block_opener (rstrip (prev ++ [newline]))
                 then Z.to_nat (spaces2add (Z.of_nat (S (S l))) t) else 0)
                + spacecount (prev ++ [newline])) ++ cur]> (lines t).
Proof.
  intros Hw Hmark Hprev Hcur.
  pose proof (lookup_lt_Some _ _ _ Hcur) as Hlt.
  assert (Hget :
    get_range (lines t)
      (resolve (lines t) (insert_mark t)
         (MinusLines (LineChar (lineno_of (insert_mark t)) 0) 1))
      (resolve (lines t) (insert_mark t)
         (LineChar (lineno_of (insert_mark t)) 0))
    = prev ++ [newline]).
  { rewrite Hmark. unfold lineno_of. cbn [pline].
    rewrite resolve_prev_line_start, resolve_line_start by lia.
    replace (Z.to_nat (Z.of_nat (S (S l))) - 1)%nat with (S l) by lia.
    replace (Z.to_nat (Z.of_nat (S (S l)))) with (S (S l)) by lia.
    now apply get_range_line. }
  unfold _autoindent. unfold bind at 1, index at 1, gets at 1.
  change (resolve (lines t) (insert_mark t) MarkInsert) with (insert_mark t).
  unfold bind at 1, get at 1, gets at 1. rewrite Hget.
  unfold str_mul. rewrite Nat2Z.id.
  rewrite Hmark. unfold lineno_of. cbn [pline].
  destruct (block_opener (rstrip (prev ++ [newline]))).
  - destruct (indent_on_line t (Z.of_nat (S (S l))) cur Hw ltac:(lia))
      as (t1 & Hrun & Hlines & _ & Hmark1 & _).
    { now replace (Z.to_nat (Z.of_nat (S (S l))) - 1)%nat with (S l) by lia. }
    replace (Z.to_nat (Z.of_nat (S (S l))) - 1)%nat with (S l) in Hlines by lia.
    rewrite Nat2Z.id, Hmark, shift_insert_at_mark in Hmark1.
    cbn [pline pcol] in Hmark1. rewrite Nat.add_0_l in Hmark1.
    unfold bind, ret, insert, modify. rewrite Hrun. cbn [fst].
    eexists. split; [reflexivity|]. split; [reflexivity|].
    rewrite (tk_insert_at_mark t1 (S l) _ _
               (repeat space (Z.to_nat (spaces2add (Z.of_nat (S (S l))) t)) ++ cur)
               Hmark1).
    + rewrite Hlines, list_insert_insert_eq. f_equal.
      rewrite take_app_length', drop_app_length'
        by (now rewrite repeat_length).
      now rewrite repeat_app, <- app_assoc.
    + rewrite Hlines. now apply list_lookup_insert_eq.
  - unfold bind, ret, insert, modify.
    eexists. split; [reflexivity|]. split; [reflexivity|].
    rewrite (tk_insert_at_mark t (S l) 0 _ cur Hmark Hcur).
    now rewrite take_0, drop_0.
Qed.

Lemma autoindent_new_line_witness :
  (exists t',
      _autoindent (widget ["    if x:"%string; ""%string] (mkPos 2 0) 4)
      = (t', Ok tt)
      /\ lines t' = [py "    if x:"; py "        "])
  /\ (exists t',
         _autoindent (widget ["    y = 1"%string; ""%string] (mkPos 2 0) 4)
         = (t', Ok tt)
         /\ lines t' = [py "    y = 1"; py "    "]).
Proof.
  split.
  - destruct (autoindent_new_line
                (widget ["    if x:"%string; ""%string] (mkPos 2 0) 4)
                0 (py "    if x:") [] eq_refl eq_refl eq_refl eq_refl)
      as (t' & H1 & _ & H2).
    exists t'. split; [exact H1 | exact H2].
  - destruct (autoindent_new_line
                (widget ["    y = 1"%string; ""%string] (mkPos 2 0) 4)
                0 (py "    y = 1") [] eq_refl eq_refl eq_refl eq_refl)
      as (t' & H1 & _ & H2).
    exists t'. split; [exact H1 | exact H2].
Defined.

(** C3, as the spec has it, fails: Return pressed at the end of the only
    line ["    if x:"], with indent width 4, leaves 8 leading spaces on
    the new line, the 4 of the line above and one level more, not 4. *)
Lemma autoindent_block_counterexample :
  ~ leading 2 (fst (press_Return (widget ["    if x:"%string] (mkPos 1 9) 4))) = 4.
Proof. vm_compute. discriminate. Qed.

Example return_after_block_opener :
  lines (fst (press_Return (widget ["    if x:"%string] (mkPos 1 9) 4)))
  = [py "    if x:"; py "        "]
  /\ leading 2 (fst (press_Return (widget ["    if x:"%string] (mkPos 1 9) 4))) = 8.
Proof. split; vm_compute; reflexivity. Qed.

Example return_after_statement :
  lines (fst (press_Return (widget ["    y = 1"%string] (mkPos 1 9) 4)))
  = [py "    y = 1"; py "    "]
  /\ leading 2 (fst (press_Return (widget ["    y = 1"%string] (mkPos 1 9) 4))) = 4.
Proof. split; vm_compute; reflexivity. Qed.

(** The docstring of [spacecount]. *)
Example spacecount_doctest :
  spacecount (py "  123") = 2%nat /\ spacecount (py "  " ++ [newline]) = 2%nat.
Proof. split; reflexivity. Qed.

(** * More of the widget *)

(** ** The cursor-move check, again *)

(** X1. A second cursor-move check right after a first one changes
    nothing and calls no listener: a move of the cursor is notified
    once. *)
Theorem cursor_move_check_twice (t : EditorText) :
  _do_cursor_move (fst (_do_cursor_move t)) = (fst (_do_cursor_move t), Ok tt)
  /\ trace (fst (_do_cursor_move (fst (_do_cursor_move t))))
     = trace (fst (_do_cursor_move t)).
Proof.
  assert (H : _do_cursor_move (fst (_do_cursor_move t))
              = (fst (_do_cursor_move t), Ok tt)).
  { rewrite !do_cursor_move_eq. cbn [fst]. f_equal.
    unfold cursor_moved at 1.
    rewrite bool_decide_eq_false_2; [reflexivity|].
    intros Hne. apply Hne. symmetry. apply cursor_moved_cache. }
  split; [exact H|]. now rewrite H.
Qed.

(** ** [indent] and [dedent]: round trip and line numbers out of range *)

(** X2. With a positive indent width, on a line of the buffer whose
    leading-space count [s] is a multiple of the width, [indent] returns
    [s + w] and the [dedent] that follows returns [s] and gives every
    line of the buffer its text back. *)
Theorem indent_dedent_round_trip (t : EditorText) (lineno : Z) :
  0 < settings_indent t ->
  1 <= lineno <= Z.of_nat (length (lines t)) ->
  leading lineno t mod settings_indent t = 0 ->
  exists t1 t2,
    indent lineno t = (t1, Ok (leading lineno t + settings_indent t))
    /\ dedent lineno t1 = (t2, Ok (leading lineno t))
    /\ lines t2 = lines t.
Proof.
  intros Hw Hline Hmod.
  destruct (valid_line t lineno Hline) as [line Hl].
  destruct (indent_on_line t lineno line Hw ltac:(lia) Hl)
    as (t1 & Hrun1 & Hlines1 & Hset1 & _ & _ & Hlead1).
  assert (Hk : spaces2add lineno t = settings_indent t)
    by (unfold spaces2add; lia).
  rewrite Hk in *.
  assert (Hl1 : lines t1 !! (Z.to_nat lineno - 1)%nat
                = Some (repeat space (Z.to_nat (settings_indent t)) ++ line)).
  { rewrite Hlines1. apply list_lookup_insert_eq.
    now apply lookup_lt_Some in Hl. }
  assert (Hpos : 0 < leading lineno t1) by (unfold leading in *; lia).
  assert (Hw1 : 0 < settings_indent t1) by lia.
  destruct (dedent_on_line t1 lineno _ Hw1 ltac:(lia) Hl1 Hpos)
    as (t2 & Hrun2 & Hlines2 & _).
  assert (Hh : howmany2del lineno t1 = settings_indent t).
  { unfold howmany2del. rewrite Hset1, Hlead1.
    rewrite Z.add_mod, Hmod, Z_mod_same_full by lia.
    now rewrite Z.add_0_l, Z.mod_0_l by lia. }
  exists t1, t2. rewrite Hrun1, Hrun2, Hh, Hlead1.
  split; [reflexivity|]. split; [f_equal; f_equal; lia|].
  rewrite Hlines2, Hh, Hlines1, list_insert_insert_eq.
  rewrite drop_app_length' by (now rewrite repeat_length).
  now apply list_insert_id.
Qed.

Lemma indent_dedent_round_trip_witness :
  exists t1 t2,
    indent 1 (widget ["    x"%string; "y"%string] (mkPos 1 0) 4) = (t1, Ok 8)
    /\ dedent 1 t1 = (t2, Ok 4)
    /\ lines t2 = [py "    x"; py "y"].
Proof.
  destruct (indent_dedent_round_trip
              (widget ["    x"%string; "y"%string] (mkPos 1 0) 4) 1)
    as (t1 & t2 & H1 & H2 & H3).
  - reflexivity.
  - vm_compute. split; discriminate.
  - reflexivity.
  - exists t1, t2. split; [exact H1|]. split; [exact H2 | exact H3].
Defined.

(** X3. A line number past the last line, up to the largest the
    toolkit's [int] holds a line index for, is not refused. [dedent] then
    changes nothing and returns 0. [indent], with a positive indent width
    [w] and a buffer that has a line, returns [w] and puts [w] spaces at
    the end of the last line. *)
Theorem line_past_end (t : EditorText) (lineno : Z) (last_line : list N) :
  0 < settings_indent t ->
  Z.of_nat (length (lines t)) < lineno <= 2 ^ 31 ->
  lines t !! (length (lines t) - 1)%nat = Some last_line ->
  dedent lineno t = (t, Ok 0)
  /\ exists t',
       indent lineno t = (t', Ok (settings_indent t))
       /\ lines t'
          = <[(length (lines t) - 1)%nat :=
                last_line ++ repeat space (Z.to_nat (settings_indent t))]>
              (lines t).
Proof.
  intros Hw Hhigh Hlast.
  pose proof (lookup_lt_Some _ _ _ Hlast) as Hlt.
  assert (Hlead : leading lineno t = 0).
  { unfold leading. now rewrite line_text_beyond. }
  split.
  - rewrite dedent_eq by lia. now rewrite Hlead.
  - rewrite indent_eq by lia. rewrite Hlead, Z.mod_0_l, Z.sub_0_r by lia.
    eexists. split; [reflexivity|].
    rewrite cursor_moved_lines. unfold str_mul, tk_insert.
    destruct (Z.to_nat (settings_indent t)) as [|k] eqn:Ek; [lia|].
    cbn [repeat]. rewrite resolve_line_beyond by assumption.
    unfold end_pos. cbn [pline].
    destruct (length (lines t) <? S (length (lines t)))%nat eqn:E;
      [|apply Nat.ltb_ge in E; lia].
    unfold back_char. cbn [pline pcol].
    destruct (1 <? S (length (lines t)))%nat eqn:E1;
      [|apply Nat.ltb_ge in E1; lia].
    cbn [pline pcol set_buffer lines].
    replace (S (length (lines t)) - 1)%nat with (length (lines t)) by lia.
    unfold line_at. rewrite Hlast. cbn [default].
    rewrite firstn_all, drop_all, (drop_ge (lines t)) by lia.
    change (space :: repeat space k) with (repeat space (S k)).
    rewrite splice_repeat_space, !app_nil_r.
    rewrite (insert_take_drop (lines t)) by assumption.
    rewrite (drop_ge (lines t)) by lia. reflexivity.
Qed.

(** Past that, the toolkit's [int] wraps: 2147483649 is a line before
    the first, and [indent] works on line 1. *)
Example indent_wrapped_line_number :
  snd (indent 2147483649 (widget ["    a"%string; "b"%string] (mkPos 1 0) 4))
  = Ok 8
  /\ lines (fst (indent 2147483649
                   (widget ["    a"%string; "b"%string] (mkPos 1 0) 4)))
     = [py "        a"; py "b"].
Proof. split; vm_compute; reflexivity. Qed.

Lemma line_past_end_witness :
  dedent 9 (widget ["  a"%string; "b"%string] (mkPos 1 0) 4)
  = (widget ["  a"%string; "b"%string] (mkPos 1 0) 4, Ok 0)
  /\ exists t',
       indent 9 (widget ["  a"%string; "b"%string] (mkPos 1 0) 4) = (t', Ok 4)
       /\ lines t' = [py "  a"; py "b    "].
Proof.
  exact (line_past_end (widget ["  a"%string; "b"%string] (mkPos 1 0) 4) 9
           (py "b") eq_refl ltac:(vm_compute; split; [reflexivity | discriminate])
           eq_refl).
Defined.

(** ** [spacecount]: where the count stops *)

(** X4. After a run of whitespace characters other than the newline,
    the first character that is a newline or no whitespace ends the
    count, whatever follows it. *)
Theorem spacecount_stops (pre rest : list N) (c : N) :
  Forall (fun x => indent_char x = true) pre ->
  indent_char c = false ->
  spacecount (pre ++ c :: rest) = length pre.
Proof.
  intros Hpre Hc. induction Hpre as [|x pre Hx _ IH].
  - simpl app. now rewrite spacecount_cons, Hc.
  - simpl app. rewrite spacecount_cons, Hx, IH. reflexivity.
Qed.

Lemma spacecount_stops_witness :
  spacecount (py "  " ++ N_of_ascii "1" :: py "23  ") = 2%nat.
Proof.
  apply (spacecount_stops (py "  ") (py "23  ") (N_of_ascii "1")).
  - repeat constructor.
  - reflexivity.
Defined.

(** ** The text before the cursor *)

Lemma get_range_prefix (ls : list (list N)) (i c : nat) (line : list N) :
  ls !! i = Some line ->
  (c <= length line)%nat ->
  get_range ls (mkPos (S i) 0) (mkPos (S i) c) = take c line.
Proof.
  intros Hl Hc. unfold get_range, offset, text_from. cbn [pline pcol].
  replace (S i - 1)%nat with i by lia.
  rewrite (drop_S _ _ _ Hl), drop_0.
  replace (length (with_newlines (take i ls)) + c
           - (length (with_newlines (take i ls)) + 0))%nat with c by lia.
  now rewrite take_app_le.
Qed.

Lemma before_cursor_text (t : EditorText) (i c : nat) (line : list N) :
  insert_mark t = mkPos (S i) c ->
  lines t !! i = Some line ->
  (c <= length line)%nat ->
  get_range (lines t)
    (resolve (lines t) (insert_mark t)
       (LineChar (lineno_of (resolve (lines t) (insert_mark t) MarkInsert)) 0))
    (resolve (lines t) (insert_mark t) MarkInsert)
  = take c line.
Proof.
  intros Hmark Hl Hc.
  pose proof (lookup_lt_Some _ _ _ Hl) as Hlt.
  change (resolve (lines t) (insert_mark t) MarkInsert) with (insert_mark t).
  rewrite Hmark. unfold lineno_of. cbn [pline].
  rewrite resolve_line_start by lia.
  rewrite Nat2Z.id. now apply get_range_prefix.
Qed.

(** X5. Tab with a positive indent width, when the selection is not one
    range, the cursor being on a line of the buffer. When the text before
    the cursor on its line is empty or whitespace, the line of the cursor,
    and no other, is indented, or dedented when shifted. Otherwise the
    buffer is left alone and a completion request is printed: "next", or
    "previous" when shifted. ['break'] is returned in both cases. *)
Theorem tab_on_cursor_line (t : EditorText) (shifted : bool) (i c : nat)
    (line : list N) :
  0 < settings_indent t ->
  (forall a b, sel_ranges t <> [(a, b)]) ->
  insert_mark t = mkPos (S i) c ->
  lines t !! i = Some line ->
  (c <= length line)%nat ->
  if str_isspace (take c line) || bool_decide (take c line = [])
  then exists t',
      _on_tab shifted t = (t', Ok RetBreak)
      /\ lines t'
         = <[i := (if shifted then dedent_line else indent_line)
                    (settings_indent t) line]> (lines t)
  else _on_tab shifted t
       = (log (Printed ["complete"%string;
                        if shifted then "previous"%string else "next"%string]) t,
          Ok RetBreak).
Proof.
  intros Hw Hsel Hmark Hl Hc.
  assert (Hraise :
    match sel_ranges t with
    | [(sel_start, sel_end)] => (t, Ok (sel_start, sel_end))
    | _ => (t, Raise ValueError)
    end = (t, Raise ValueError)).
  { destruct (sel_ranges t) as [|[a b] [|[a' b'] rest]]; try reflexivity.
    now destruct (Hsel a b). }
  destruct (str_isspace (take c line) || bool_decide (take c line = []))
    eqn:Hcond.
  - destruct (action_on_line shifted t (Z.of_nat (S i)) line Hw ltac:(lia))
      as (t' & r & Hrun & Hlines & _).
    { now replace (Z.to_nat (Z.of_nat (S i)) - 1)%nat with i by lia. }
    replace (Z.to_nat (Z.of_nat (S i)) - 1)%nat with i in Hlines by lia.
    exists t'. split; [|exact Hlines].
    unfold _on_tab, try_except_else. unfold bind at 1.
    rewrite unpack_sel, Hraise.
    change (bool_decide (ValueError = ValueError)) with true. cbv iota.
    unfold bind at 1, index, gets. unfold bind at 1, get, gets.
    rewrite (before_cursor_text t i c line Hmark Hl Hc), Hcond.
    change (resolve (lines t) (insert_mark t) MarkInsert) with (insert_mark t).
    rewrite Hmark. unfold lineno_of. cbn [pline].
    unfold bind. rewrite Hrun. reflexivity.
  - unfold _on_tab, try_except_else. unfold bind at 1.
    rewrite unpack_sel, Hraise.
    change (bool_decide (ValueError = ValueError)) with true. cbv iota.
    unfold bind at 1, index, gets. unfold bind at 1, get, gets.
    rewrite (before_cursor_text t i c line Hmark Hl Hc), Hcond.
    reflexivity.
Qed.

Lemma tab_on_cursor_line_witness :
  (exists t',
      _on_tab false (widget ["  x"%string] (mkPos 1 2) 4) = (t', Ok RetBreak)
      /\ lines t' = [py "    x"])
  /\ _on_tab true (widget ["  x"%string] (mkPos 1 3) 4)
     = (log (Printed ["complete"%string; "previous"%string])
          (widget ["  x"%string] (mkPos 1 3) 4),
        Ok RetBreak).
Proof.
  split.
  - exact (tab_on_cursor_line (widget ["  x"%string] (mkPos 1 2) 4) false 0 2
             (py "  x") eq_refl ltac:(discriminate) eq_refl eq_refl
             ltac:(repeat constructor)).
  - exact (tab_on_cursor_line (widget ["  x"%string] (mkPos 1 3) 4) true 0 3
             (py "  x") eq_refl ltac:(discriminate) eq_refl eq_refl
             ltac:(repeat constructor)).
Defined.

(** ** Backspace and closing brackets in the indentation *)

Lemma cursor_moved_idle (t : EditorText) : idle (cursor_moved t) = idle t.
Proof. unfold cursor_moved. now destruct (bool_decide _). Qed.

Lemma tk_delete_idle (t : EditorText) (i1 i2 : Index) :
  idle (tk_delete i1 i2 t) = idle t.
Proof. unfold tk_delete. repeat (destruct (pos_ltb _ _)); reflexivity. Qed.

Lemma tk_insert_idle (t : EditorText) (i : Index) (s : list N) :
  idle (tk_insert i s t) = idle t.
Proof. now destruct s. Qed.

Lemma dedent_idle (t : EditorText) (lineno : Z) :
  0 < settings_indent t -> idle (fst (dedent lineno t)) = idle t.
Proof.
  intros Hw. rewrite dedent_eq by lia.
  destruct (leading lineno t =? 0); [reflexivity|].
  cbn [fst]. now rewrite cursor_moved_idle, tk_delete_idle.
Qed.

(** Whitespace before the cursor, on a line that holds no newline, is
    leading whitespace of the line: [dedent] has something to delete. *)
Lemma leading_before_cursor (line : list N) (c : nat) :
  str_isspace (take c line) = true ->
  newline ∉ line ->
  (1 <= spacecount (line ++ [newline]))%nat.
Proof.
  intros Hsp Hnl. destruct line as [|x line]; [now rewrite take_nil in Hsp|].
  destruct c as [|c]; [discriminate|].
  simpl in Hsp. apply andb_prop in Hsp as [Hx _].
  simpl app. rewrite spacecount_cons. unfold indent_char. rewrite Hx.
  destruct (x =? newline)%N eqn:E.
  - apply N.eqb_eq in E. subst x. exfalso. apply Hnl. left.
  - simpl. lia.
Qed.

Lemma dedent_line_shorter (w : Z) (line : list N) :
  0 < w ->
  (1 <= spacecount (line ++ [newline]))%nat ->
  (length line - Z.to_nat w <= length (dedent_line w line) < length line)%nat.
Proof.
  intros Hw Hs. unfold dedent_line.
  pose proof (spacecount_line_le line []) as Hle.
  assert (Hpos : 0 < Z.of_nat (spacecount (line ++ [newline]))) by lia.
  pose proof (howmany2del_bounds _ _ Hw Hpos) as [Hh Hhw].
  destruct (Z.of_nat (spacecount (line ++ [newline])) =? 0) eqn:E;
    [apply Z.eqb_eq in E; lia|].
  rewrite length_drop. lia.
Qed.

Lemma dedent_at_cursor (t : EditorText) (i c : nat) (line : list N) :
  0 < settings_indent t ->
  lines t !! i = Some line ->
  str_isspace (take c line) = true ->
  newline ∉ line ->
  exists t' r,
    dedent (Z.of_nat (S i)) t = (t', Ok r)
    /\ lines t' = <[i := dedent_line (settings_indent t) line]> (lines t)
    /\ (length line - Z.to_nat (settings_indent t)
        <= length (dedent_line (settings_indent t) line) < length line)%nat
    /\ idle t' = idle t.
Proof.
  intros Hw Hl Hsp Hnl.
  destruct (action_on_line true t (Z.of_nat (S i)) line Hw ltac:(lia))
    as (t' & r & Hrun & Hlines & _).
  { now replace (Z.to_nat (Z.of_nat (S i)) - 1)%nat with i by lia. }
  replace (Z.to_nat (Z.of_nat (S i)) - 1)%nat with i in Hlines by lia.
  exists t', r. split; [exact Hrun|]. split; [exact Hlines|]. split.
  - apply dedent_line_shorter; [assumption|].
    now apply (leading_before_cursor line c).
  - pose proof (dedent_idle t (Z.of_nat (S i)) Hw) as Hidle.
    now rewrite Hrun in Hidle.
Qed.

(** X6. Backspace with nothing selected, a positive indent width and the
    cursor on a line of the buffer. When the text before the cursor on
    its line is whitespace and not empty, the line is dedented, which
    removes at least one and at most [w] characters, ['break'] is
    returned and no idle callback is scheduled. Otherwise the buffer is
    left to the toolkit: the widget only schedules a cursor-move check
    and returns [None]. *)
Theorem backspace_in_line (t : EditorText) (i c : nat) (line : list N) :
  0 < settings_indent t ->
  sel_ranges t = [] ->
  insert_mark t = mkPos (S i) c ->
  lines t !! i = Some line ->
  (c <= length line)%nat ->
  newline ∉ line ->
  if str_isspace (take c line)
  then exists t',
      _on_backspace t = (t', Ok RetBreak)
      /\ lines t' = <[i := dedent_line (settings_indent t) line]> (lines t)
      /\ (length line - Z.to_nat (settings_indent t)
          <= length (dedent_line (settings_indent t) line) < length line)%nat
      /\ idle t' = idle t
  else _on_backspace t = (set_idle (idle t ++ [TaskCursorMove]) t, Ok RetNone).
Proof.
  intros Hw Hsel Hmark Hl Hc Hnl.
  assert (Hrun : _on_backspace t
    = if str_isspace (take c line)
      then (fst (dedent (Z.of_nat (S i)) t),
            match snd (dedent (Z.of_nat (S i)) t) with
            | Ok _ => Ok RetBreak
            | Raise e => Raise e
            end)
      else (set_idle (idle t ++ [TaskCursorMove]) t, Ok RetNone)).
  { unfold _on_backspace. unfold bind at 1, tag_ranges_sel, gets.
    rewrite Hsel. cbn [map concat].
    unfold bind at 1, index, gets. unfold bind at 1, get, gets.
    rewrite (before_cursor_text t i c line Hmark Hl Hc).
    change (resolve (lines t) (insert_mark t) MarkInsert) with (insert_mark t).
    rewrite Hmark. unfold lineno_of. cbn [pline].
    destruct (str_isspace (take c line)); [|reflexivity].
    unfold bind. now destruct (dedent (Z.of_nat (S i)) t) as [t' [r|e]]. }
  rewrite Hrun. destruct (str_isspace (take c line)) eqn:Hsp; [|reflexivity].
  destruct (dedent_at_cursor t i c line Hw Hl Hsp Hnl)
    as (t' & r & Hded & Hlines & Hlen & Hidle).
  exists t'. rewrite Hded. cbn [fst snd]. repeat split; assumption || lia.
Qed.

Lemma backspace_in_line_witness :
  (exists t',
      _on_backspace (widget ["      x"%string] (mkPos 1 3) 4) = (t', Ok RetBreak)
      /\ lines t' = [py "    x"])
  /\ _on_backspace (widget ["  x"%string] (mkPos 1 0) 4)
     = (set_idle [TaskCursorMove] (widget ["  x"%string] (mkPos 1 0) 4),
        Ok RetNone).
Proof.
  split.
  - destruct (backspace_in_line (widget ["      x"%string] (mkPos 1 3) 4) 0 3
                (py "      x") eq_refl eq_refl eq_refl eq_refl
                ltac:(repeat constructor)
                ltac:(intros H; repeat (inversion H as [|? ? ? H']; subst; clear H; rename H' into H)))
      as (t' & H1 & H2 & _).
    exists t'. split; [exact H1 | exact H2].
  - exact (backspace_in_line (widget ["  x"%string] (mkPos 1 0) 4) 0 0
             (py "  x") eq_refl eq_refl eq_refl eq_refl
             ltac:(repeat constructor)
             ltac:(intros H; repeat (inversion H as [|? ? ? H']; subst; clear H; rename H' into H))).
Defined.

(** X7. A closing bracket typed with a positive indent width and the
    cursor on a line of the buffer. When the text before the cursor on
    its line is whitespace and not empty, the line is dedented, which
    removes at least one and at most [w] characters, and [True] is
    returned. Otherwise, at the start of the line too, the widget is left
    as it is and [False] is returned. *)
Theorem closing_brace_in_line (t : EditorText) (i c : nat) (line : list N) :
  0 < settings_indent t ->
  insert_mark t = mkPos (S i) c ->
  lines t !! i = Some line ->
  (c <= length line)%nat ->
  newline ∉ line ->
  if str_isspace (take c line)
  then exists t',
      _on_closing_brace t = (t', Ok true)
      /\ lines t' = <[i := dedent_line (settings_indent t) line]> (lines t)
      /\ (length line - Z.to_nat (settings_indent t)
          <= length (dedent_line (settings_indent t) line) < length line)%nat
  else _on_closing_brace t = (t, Ok false).
Proof.
  intros Hw Hmark Hl Hc Hnl.
  assert (Hrun : _on_closing_brace t
    = if str_isspace (take c line)
      then (fst (dedent (Z.of_nat (S i)) t),
            match snd (dedent (Z.of_nat (S i)) t) with
            | Ok _ => Ok true
            | Raise e => Raise e
            end)
      else (t, Ok false)).
  { unfold _on_closing_brace.
    unfold bind at 1, index, gets. unfold bind at 1, get, gets.
    rewrite (before_cursor_text t i c line Hmark Hl Hc).
    change (resolve (lines t) (insert_mark t) MarkInsert) with (insert_mark t).
    rewrite Hmark. unfold lineno_of. cbn [pline].
    destruct (str_isspace (take c line)); [|reflexivity].
    unfold bind. now destruct (dedent (Z.of_nat (S i)) t) as [t' [r|e]]. }
  rewrite Hrun. destruct (str_isspace (take c line)) eqn:Hsp; [|reflexivity].
  destruct (dedent_at_cursor t i c line Hw Hl Hsp Hnl)
    as (t' & r & Hded & Hlines & Hlen & _).
  exists t'. rewrite Hded. cbn [fst snd]. repeat split; assumption || lia.
Qed.

Lemma closing_brace_in_line_witness :
  (exists t',
      _on_closing_brace (widget ["f("%string; "    "%string] (mkPos 2 4) 4)
      = (t', Ok true)
      /\ lines t' = [py "f("; []])
  /\ _on_closing_brace (widget ["f(x"%string] (mkPos 1 3) 4)
     = (widget ["f(x"%string] (mkPos 1 3) 4, Ok false).
Proof.
  split.
  - destruct (closing_brace_in_line
                (widget ["f("%string; "    "%string] (mkPos 2 4) 4) 1 4
                (py "    ") eq_refl eq_refl eq_refl
                ltac:(repeat constructor)
                ltac:(intros H; repeat (inversion H as [|? ? ? H']; subst; clear H; rename H' into H)))
      as (t' & H1 & H2 & _).
    exists t'. split; [exact H1 | exact H2].
  - exact (closing_brace_in_line (widget ["f(x"%string] (mkPos 1 3) 4) 0 3
             (py "f(x") eq_refl eq_refl eq_refl
             ltac:(repeat constructor)
             ltac:(intros H; repeat (inversion H as [|? ? ? H']; subst; clear H; rename H' into H))).
Defined.

(** ** Stripping the whitespace left at the end of the previous line *)

Lemma spacecount_app (a b : list N) :
  spacecount (a ++ b)
  = if decide (spacecount a = length a) then (length a + spacecount b)%nat
    else spacecount a.
Proof.
  induction a as [|x a IH].
  - simpl. now destruct (decide (spacecount [] = 0%nat)).
  - simpl app. rewrite !spacecount_cons, IH. simpl length.
    pose proof (spacecount_le_length a).
    destruct (indent_char x).
    + destruct (decide (spacecount a = length a));
        destruct (decide (S (spacecount a) = S (length a))); lia.
    + destruct (decide (0%nat = S (length a))); [lia|reflexivity].
Qed.

(** On a string that holds no newline, [rstrip] takes off what
    [spacecount] counts on the reversed string. *)
Lemma rstrip_spacecount_reverse (s : list N) :
  newline ∉ s ->
  rstrip s = take (length s - spacecount (reverse s)) s.
Proof.
  induction s as [|c s IH]; intros Hnl; [reflexivity|].
  assert (Hc : c <> newline) by (intros ->; apply Hnl; left).
  assert (Hs : newline ∉ s) by (intros H; apply Hnl; now right).
  specialize (IH Hs).
  pose proof (spacecount_le_length (reverse s)) as Hle.
  rewrite length_reverse in Hle.
  rewrite reverse_cons, spacecount_app, length_reverse.
  change (spacecount [c]) with (spacecount (c :: [])).
  rewrite spacecount_cons, spacecount_nil. unfold indent_char.
  rewrite (proj2 (N.eqb_neq _ _) Hc), andb_true_r.
  cbn [rstrip]. rewrite IH. simpl length.
  destruct (decide (spacecount (reverse s) = length s)) as [Hall|Hsome].
  - rewrite Hall, Nat.sub_diag, take_0.
    destruct (isspace c).
    + replace (S (length s) - (length s + 1))%nat with 0%nat by lia.
      reflexivity.
    + replace (S (length s) - (length s + 0))%nat with 1%nat by lia.
      reflexivity.
  - replace (S (length s) - spacecount (reverse s))%nat
      with (S (length s - spacecount (reverse s))) by lia.
    destruct s as [|x s]; [simpl in *; lia|].
    destruct (length (x :: s) - spacecount (reverse (x :: s)))%nat eqn:E;
      [simpl in *; lia|].
    reflexivity.
Qed.

Lemma iter_back_char (ls : list (list N)) (l c k : nat) :
  (k <= c)%nat ->
  Nat.iter k (back_char ls) (mkPos l c) = mkPos l (c - k).
Proof.
  revert c. induction k as [|k IH]; intros c Hk; simpl.
  - f_equal. lia.
  - rewrite IH by lia. unfold back_char. cbn [pline pcol].
    destruct (c - k)%nat as [|n] eqn:E; [lia|]. f_equal. lia.
Qed.

Lemma tk_delete_in_line (t : EditorText) (i1 i2 : Index) (i c1 c2 : nat)
    (line : list N) :
  resolve (lines t) (insert_mark t) i1 = mkPos (S i) c1 ->
  resolve (lines t) (insert_mark t) i2 = mkPos (S i) c2 ->
  lines t !! i = Some line ->
  (c1 < c2 <= length line)%nat ->
  lines (tk_delete i1 i2 t) = <[i := take c1 line ++ drop c2 line]> (lines t)
  /\ insert_mark (tk_delete i1 i2 t)
     = shift_delete (mkPos (S i) c1) (mkPos (S i) c2) (insert_mark t)
  /\ settings_indent (tk_delete i1 i2 t) = settings_indent t
  /\ idle (tk_delete i1 i2 t) = idle t.
Proof.
  intros H1 H2 Hl Hc.
  pose proof (lookup_lt_Some _ _ _ Hl) as Hlt.
  rewrite tk_delete_settings, tk_delete_idle.
  unfold tk_delete. rewrite H1, H2.
  assert (Hlt12 : pos_ltb (mkPos (S i) c1) (mkPos (S i) c2) = true).
  { unfold pos_ltb. cbn [pline pcol].
    rewrite Nat.ltb_irrefl, Nat.eqb_refl. simpl.
    apply Nat.ltb_lt. lia. }
  rewrite Hlt12. cbn [pline pcol].
  destruct (length (lines t) <? S i)%nat eqn:E; [apply Nat.ltb_lt in E; lia|].
  simpl andb. cbv iota. rewrite Hlt12.
  cbn [pline pcol set_buffer lines insert_mark].
  unfold line_at. replace (S i - 1)%nat with i by lia. rewrite Hl.
  cbn [default]. repeat split.
  symmetry. apply insert_take_drop. assumption.
Qed.

Lemma strip_whitespace_on_line (t : EditorText) (l c0 : nat) (prev : list N) :
  insert_mark t = mkPos (S (S l)) c0 ->
  lines t !! l = Some prev ->
  (S l < length (lines t))%nat ->
  exists t',
    _strip_whitespace t = (t', Ok tt)
    /\ lines t'
       = <[l := take (length prev - spacecount (reverse prev)) prev]> (lines t)
    /\ insert_mark t' = insert_mark t
    /\ settings_indent t' = settings_indent t
    /\ idle t' = idle t
    /\ _cursorpos t' = _cursorpos t
    /\ trace t' = trace t.
Proof.
  intros Hmark Hl Hlt.
  pose proof (spacecount_le_length (reverse prev)) as Hle.
  rewrite length_reverse in Hle.
  assert (Hstart : resolve (lines t) (insert_mark t)
                     (MinusLines (LineChar (Z.of_nat (S (S l))) 0) 1)
                   = mkPos (S l) 0).
  { rewrite resolve_prev_line_start by lia. f_equal. lia. }
  assert (Hend : resolve (lines t) (insert_mark t)
                   (MinusChars (LineChar (Z.of_nat (S (S l))) 0) 1)
                 = mkPos (S l) (length prev)).
  { cbn [resolve]. fold (resolve (lines t) (insert_mark t)
                           (LineChar (Z.of_nat (S (S l))) 0)).
    rewrite resolve_line_start by lia. rewrite Nat2Z.id.
    cbn [Nat.iter nat_rect]. unfold back_char. cbn [pline pcol].
    change (1 <? S (S l))%nat with true. cbv iota.
    replace (S (S l) - 1)%nat with (S l) by lia.
    unfold line_at. replace (S l - 1)%nat with l by lia.
    now rewrite Hl. }
  unfold _strip_whitespace. unfold bind at 1, index, gets.
  change (resolve (lines t) (insert_mark t) MarkInsert) with (insert_mark t).
  rewrite Hmark. unfold lineno_of. cbn [pline].
  unfold bind at 1, get, gets.
  rewrite Hstart, Hend.
  rewrite (get_range_prefix _ l (length prev) prev Hl) by lia.
  rewrite firstn_all.
  destruct (spacecount (reverse prev) =? 0)%nat eqn:E.
  - apply Nat.eqb_eq in E. exists t. split; [reflexivity|].
    rewrite E, Nat.sub_0_r, firstn_all.
    repeat split; try reflexivity; [|exact Hmark].
    symmetry. now apply list_insert_id.
  - apply Nat.eqb_neq in E.
    destruct (tk_delete_in_line t
                (MinusChars (MinusChars (LineChar (Z.of_nat (S (S l))) 0) 1)
                   (spacecount (reverse prev)))
                (MinusChars (LineChar (Z.of_nat (S (S l))) 0) 1)
                l (length prev - spacecount (reverse prev)) (length prev) prev)
      as (Hlines & Hm & Hset & Hidle).
    + change (resolve (lines t) (insert_mark t)
                (MinusChars (MinusChars (LineChar (Z.of_nat (S (S l))) 0) 1)
                   (spacecount (reverse prev))))
        with (Nat.iter (spacecount (reverse prev)) (back_char (lines t))
                (resolve (lines t) (insert_mark t)
                   (MinusChars (LineChar (Z.of_nat (S (S l))) 0) 1))).
      rewrite Hend. now apply iter_back_char.
    + exact Hend.
    + exact Hl.
    + lia.
    + eexists. unfold delete, modify. split; [reflexivity|].
      rewrite Hlines, Hm, Hset, Hidle, drop_all, app_nil_r.
      repeat split.
      * rewrite Hmark. unfold shift_delete, pos_leb, pos_ltb. cbn [pline pcol].
        replace (S l <? S (S l))%nat with true by (symmetry; apply Nat.ltb_lt; lia).
        replace (S (S l) <? S l)%nat with false by (symmetry; apply Nat.ltb_ge; lia).
        replace (S (S l) =? S l)%nat with false by (symmetry; apply Nat.eqb_neq; lia).
        simpl. f_equal. lia.
      * unfold tk_delete. repeat (destruct (pos_ltb _ _)); reflexivity.
      * unfold tk_delete. repeat (destruct (pos_ltb _ _)); reflexivity.
Qed.

(** X8. With the cursor on a line of the buffer that has a line above
    it, and no newline inside that line above, [_strip_whitespace] makes
    the line above its own [rstrip], changes no other line and leaves the
    cursor where it is. *)
Theorem strip_whitespace_previous_line (t : EditorText) (l c0 : nat)
    (prev : list N) :
  insert_mark t = mkPos (S (S l)) c0 ->
  lines t !! l = Some prev ->
  (S l < length (lines t))%nat ->
  newline ∉ prev ->
  exists t',
    _strip_whitespace t = (t', Ok tt)
    /\ lines t' = <[l := rstrip prev]> (lines t)
    /\ insert_mark t' = insert_mark t.
Proof.
  intros Hmark Hl Hlt Hnl.
  destruct (strip_whitespace_on_line t l c0 prev Hmark Hl Hlt)
    as (t' & Hrun & Hlines & Hm & _).
  exists t'. split; [exact Hrun|]. split; [|exact Hm].
  now rewrite rstrip_spacecount_reverse.
Qed.

Lemma strip_whitespace_previous_line_witness :
  exists t',
    _strip_whitespace
      (widget ["x = 1  "%string; "  y"%string] (mkPos 2 2) 4) = (t', Ok tt)
    /\ lines t' = [py "x = 1"; py "  y"]
    /\ insert_mark t' = mkPos 2 2.
Proof.
  exact (strip_whitespace_previous_line
           (widget ["x = 1  "%string; "  y"%string] (mkPos 2 2) 4) 0 2
           (py "x = 1  ") eq_refl eq_refl ltac:(repeat constructor)
           ltac:(intros H; repeat (inversion H as [|? ? ? H']; subst; clear H; rename H' into H))).
Defined.

(** X9. With the cursor on the first line there is no line above:
    [_strip_whitespace] leaves the widget as it is. *)
Theorem strip_whitespace_first_line (t : EditorText) :
  (pline (insert_mark t) <= 1)%nat ->
  _strip_whitespace t = (t, Ok tt).
Proof.
  intros Hfirst.
  assert (Hp : resolve (lines t) (insert_mark t)
                 (LineChar (lineno_of (insert_mark t)) 0) = mkPos 1 0).
  { unfold lineno_of.
    destruct (Z_lt_le_dec (Z.of_nat (pline (insert_mark t))) 1) as [E1|E1];
      [now rewrite resolve_line_before by lia|].
    replace (Z.of_nat (pline (insert_mark t))) with 1 by lia.
    destruct (Nat.eq_dec (length (lines t)) 0%nat) as [E2|E2].
    - rewrite resolve_line_beyond by lia. unfold end_pos. now rewrite E2.
    - now rewrite resolve_line_start by lia. }
  assert (Hstart : resolve (lines t) (insert_mark t)
                     (MinusLines (LineChar (lineno_of (insert_mark t)) 0) 1)
                   = resolve (lines t) (insert_mark t)
                       (MinusChars (LineChar (lineno_of (insert_mark t)) 0) 1)).
  { rewrite resolve_MinusLines. cbn [resolve Nat.iter nat_rect].
    fold (resolve (lines t) (insert_mark t)
            (LineChar (lineno_of (insert_mark t)) 0)).
    rewrite Hp. cbn [pline pcol]. unfold back_char. cbn [pline pcol].
    change (Nat.max 1 (1 - 1)) with 1%nat.
    change (1 <? 1)%nat with false. cbv iota.
    unfold clamp_col, end_pos.
    destruct (length (lines t) <? 1)%nat eqn:E2; [|reflexivity].
    apply Nat.ltb_lt in E2. f_equal. lia. }
  unfold _strip_whitespace. unfold bind at 1, index, gets.
  change (resolve (lines t) (insert_mark t) MarkInsert) with (insert_mark t).
  unfold bind at 1, get, gets. rewrite Hstart.
  unfold get_range. rewrite Nat.sub_diag, take_0. reflexivity.
Qed.

Lemma strip_whitespace_first_line_witness :
  _strip_whitespace (widget ["x  "%string; "y"%string] (mkPos 1 3) 4)
  = (widget ["x  "%string; "y"%string] (mkPos 1 3) 4, Ok tt).
Proof.
  apply (strip_whitespace_first_line
           (widget ["x  "%string; "y"%string] (mkPos 1 3) 4)).
  constructor.
Defined.

(** ** The Return key, from the key press to the last idle callback *)

Lemma on_return_eq (t : EditorText) :
  _on_return t
  = (set_idle (idle t ++ [TaskAutoindent; TaskStripWhitespace; TaskCursorMove]) t,
     Ok tt).
Proof.
  unfold _on_return, bind, after_idle, modify. destruct t. unfold set_idle.
  simpl. now rewrite <- !app_assoc.
Qed.

Lemma tk_insert_newline (t : EditorText) (i c : nat) (line : list N) :
  insert_mark t = mkPos (S i) c ->
  lines t !! i = Some line ->
  lines (tk_insert MarkInsert [newline] t)
  = take i (lines t) ++ [take c line; drop c line] ++ drop (S i) (lines t)
  /\ insert_mark (tk_insert MarkInsert [newline] t) = mkPos (S (S i)) 0
  /\ sel_ranges (tk_insert MarkInsert [newline] t)
     = map (fun r => (shift_insert false (mkPos (S i) c) [newline] (fst r),
                      shift_insert true (mkPos (S i) c) [newline] (snd r)))
         (sel_ranges t).
Proof.
  intros Hmark Hl. pose proof (lookup_lt_Some _ _ _ Hl) as Hlt.
  unfold tk_insert.
  change (resolve (lines t) (insert_mark t) MarkInsert) with (insert_mark t).
  rewrite Hmark. cbn [pline pcol].
  destruct (length (lines t) <? S i)%nat eqn:E; [apply Nat.ltb_lt in E; lia|].
  cbn [pline pcol set_buffer lines insert_mark sel_ranges].
  unfold line_at. replace (S i - 1)%nat with i by lia. rewrite Hl.
  cbn [default]. split; [reflexivity|]. split; [|reflexivity].
  unfold shift_insert. rewrite pos_ltb_irrefl. cbn [orb andb pline pcol advance].
  rewrite Nat.eqb_refl. change (newline =? newline)%N with true.
  cbn [pline pcol]. f_equal. lia.
Qed.

Lemma indent_idle (t : EditorText) (lineno : Z) :
  0 < settings_indent t -> idle (fst (indent lineno t)) = idle t.
Proof.
  intros Hw. rewrite indent_eq by lia. cbn [fst].
  now rewrite cursor_moved_idle, tk_insert_idle.
Qed.

Lemma tk_insert_spaces_at_mark (t : EditorText) (l c k : nat) (line : list N) :
  insert_mark t = mkPos (S l) c ->
  lines t !! l = Some line ->
  lines (tk_insert MarkInsert (repeat space k) t)
  = <[l := take c line ++ repeat space k ++ drop c line]> (lines t)
  /\ insert_mark (tk_insert MarkInsert (repeat space k) t) = mkPos (S l) (c + k)
  /\ settings_indent (tk_insert MarkInsert (repeat space k) t) = settings_indent t
  /\ idle (tk_insert MarkInsert (repeat space k) t) = idle t.
Proof.
  intros Hmark Hl. rewrite tk_insert_settings, tk_insert_idle.
  split; [now apply tk_insert_at_mark|]. split; [|now split].
  destruct k as [|k].
  - rewrite tk_insert_nil, Hmark. f_equal. lia.
  - destruct (tk_insert_spaces t MarkInsert l c (S k) line) as [_ H];
      [exact Hmark | exact Hl | lia |].
    rewrite H, Hmark. apply shift_insert_at_mark.
Qed.

(** The auto-indent on the new line, with what it leaves of the rest of
    the widget. *)
Lemma autoindent_on_line (t : EditorText) (l : nat) (prev cur : list N) :
  0 < settings_indent t ->
  insert_mark t = mkPos (S (S l)) 0 ->
  lines t !! l = Some prev ->
  lines t !! S l = Some cur ->
  exists t',
    _autoindent t = (t', Ok tt)
    /\ lines t'
       = <[S l :=
             repeat space
               ((if block_opener (rstrip (prev ++ [newline]))
                 then Z.to_nat (spaces2add (Z.of_nat (S (S l))) t) else 0)
                + spacecount (prev ++ [newline])) ++ cur]> (lines t)
    /\ insert_mark t'
       = mkPos (S (S l))
           ((if block_opener (rstrip (prev ++ [newline]))
             then Z.to_nat (spaces2add (Z.of_nat (S (S l))) t) else 0)
            + spacecount (prev ++ [newline]))
    /\ idle t' = idle t.
Proof.
  intros Hw Hmark Hprev Hcur.
  pose proof (lookup_lt_Some _ _ _ Hcur) as Hlt.
  assert (Hget :
    get_range (lines t)
      (resolve (lines t) (insert_mark t)
         (MinusLines (LineChar (lineno_of (insert_mark t)) 0) 1))
      (resolve (lines t) (insert_mark t)
         (LineChar (lineno_of (insert_mark t)) 0))
    = prev ++ [newline]).
  { rewrite Hmark. unfold lineno_of. cbn [pline].
    rewrite resolve_prev_line_start, resolve_line_start by lia.
    replace (Z.to_nat (Z.of_nat (S (S l))) - 1)%nat with (S l) by lia.
    replace (Z.to_nat (Z.of_nat (S (S l)))) with (S (S l)) by lia.
    now apply get_range_line. }
  unfold _autoindent. unfold bind at 1, index at 1, gets at 1.
  change (resolve (lines t) (insert_mark t) MarkInsert) with (insert_mark t).
  unfold bind at 1, get at 1, gets at 1. rewrite Hget.
  unfold str_mul. rewrite Nat2Z.id.
  rewrite Hmark. unfold lineno_of. cbn [pline].
  destruct (block_opener (rstrip (prev ++ [newline]))).
  - destruct (indent_on_line t (Z.of_nat (S (S l))) cur Hw ltac:(lia))
      as (t1 & Hrun & Hlines & _ & Hmark1 & _).
    { now replace (Z.to_nat (Z.of_nat (S (S l))) - 1)%nat with (S l) by lia. }
    replace (Z.to_nat (Z.of_nat (S (S l))) - 1)%nat with (S l) in Hlines by lia.
    rewrite Nat2Z.id, Hmark, shift_insert_at_mark in Hmark1.
    cbn [pline pcol] in Hmark1. rewrite Nat.add_0_l in Hmark1.
    pose proof (indent_idle t (Z.of_nat (S (S l))) Hw) as Hidle1.
    rewrite Hrun in Hidle1. cbn [fst] in Hidle1.
    destruct (tk_insert_spaces_at_mark t1 (S l) _
                (spacecount (prev ++ [newline]))
                (repeat space (Z.to_nat (spaces2add (Z.of_nat (S (S l))) t)) ++ cur)
                Hmark1) as (Hl2 & Hm2 & _ & Hidle2).
    { rewrite Hlines. now apply list_lookup_insert_eq. }
    unfold bind, ret, insert, modify. rewrite Hrun.
    eexists. split; [reflexivity|].
    rewrite Hl2, Hm2, Hidle2, Hidle1.
    split; [|now split].
    rewrite Hlines, list_insert_insert_eq. f_equal.
    rewrite take_app_length', drop_app_length' by (now rewrite repeat_length).
    now rewrite repeat_app, <- app_assoc.
  - destruct (tk_insert_spaces_at_mark t (S l) 0
                (spacecount (prev ++ [newline])) cur Hmark Hcur)
      as (Hl2 & Hm2 & _ & Hidle2).
    unfold bind, ret, insert, modify.
    eexists. split; [reflexivity|].
    rewrite Hl2, Hm2, Hidle2, take_0, drop_0. now split.
Qed.

Lemma insert_in_middle {A} (l1 l2 : list A) (x y : A) :
  <[length l1 := y]> (l1 ++ x :: l2) = l1 ++ y :: l2.
Proof.
  rewrite insert_app_r_alt by lia. now rewrite Nat.sub_diag.
Qed.

Lemma insert_two {A} (l1 rest : list A) (i : nat) (a b a' b' : A) :
  i = length l1 ->
  <[i := a']> (<[S i := b']> (l1 ++ [a; b] ++ rest)) = l1 ++ [a'; b'] ++ rest.
Proof.
  intros ->. rewrite !insert_app_r_alt by lia.
  replace (S (length l1) - length l1)%nat with 1%nat by lia.
  now rewrite Nat.sub_diag.
Qed.

(** X10. The Return key, with a positive indent width [w], nothing
    selected, no idle callback pending and the cursor at column [c] of a
    line that holds no newline. The line is split at the cursor. The part
    before the cursor loses its trailing whitespace. The part after the
    cursor becomes the next line, behind new spaces: as many as the part
    before has leading whitespace characters and, when the part before
    ends with a block opener, [w - s mod w] more, where [s] is the number
    of whitespace characters the part after starts with; that is one full
    level only when [s] is a multiple of [w]. The cursor ends behind the
    new spaces, the cursor cache agrees with it and no idle callback is
    left. *)
Theorem return_key (t : EditorText) (i c : nat) (line : list N) :
  0 < settings_indent t ->
  sel_ranges t = [] ->
  idle t = [] ->
  insert_mark t = mkPos (S i) c ->
  lines t !! i = Some line ->
  (c <= length line)%nat ->
  newline ∉ line ->
  exists t',
    press_Return t = (t', Ok tt)
    /\ lines t'
       = take i (lines t)
           ++ [rstrip (take c line);
               repeat space
                 (autoindent_width (settings_indent t) (take c line) (drop c line))
                 ++ drop c line]
           ++ drop (S i) (lines t)
    /\ insert_mark t'
       = mkPos (S (S i))
           (autoindent_width (settings_indent t) (take c line) (drop c line))
    /\ _cursorpos t' = insert_mark t'
    /\ idle t' = []
    /\ Z.of_nat (autoindent_width (settings_indent t) (take c line) (drop c line))
       = (if block_opener (rstrip (take c line ++ [newline]))
          then settings_indent t
               - Z.of_nat (spacecount (drop c line ++ [newline]))
                 mod settings_indent t
          else 0)
         + Z.of_nat (spacecount (take c line ++ [newline])).
Proof.
  intros Hw Hsel Hidle Hmark Hl Hc Hnl.
  pose proof (lookup_lt_Some _ _ _ Hl) as Hlt.
  assert (Hlen : length (take i (lines t)) = i) by (rewrite length_take; lia).
  (* the key press: the binding, then the newline of the class binding *)
  set (t1 := set_idle (idle t ++ [TaskAutoindent; TaskStripWhitespace; TaskCursorMove]) t).
  set (t2 := tk_insert MarkInsert [newline] t1).
  set (t2' := set_idle [] t2).
  destruct (tk_insert_newline t1 i c line Hmark Hl) as (Hl2 & Hm2 & _).
  fold t2 in Hl2, Hm2. change (lines t1) with (lines t) in Hl2.
  assert (Hprev2 : lines t2' !! i = Some (take c line)).
  { change (lines t2') with (lines t2). rewrite Hl2.
    now apply list_lookup_middle. }
  assert (Hcur2 : lines t2' !! S i = Some (drop c line)).
  { change (lines t2') with (lines t2). rewrite Hl2.
    change (take i (lines t) ++ [take c line; drop c line] ++ drop (S i) (lines t))
      with (take i (lines t) ++ [take c line] ++ drop c line :: drop (S i) (lines t)).
    rewrite app_assoc. apply list_lookup_middle.
    rewrite length_app. simpl. lia. }
  assert (Hw2 : settings_indent t2' = settings_indent t).
  { change (settings_indent t2') with (settings_indent t2).
    unfold t2. now rewrite tk_insert_settings. }
  (* the three idle callbacks *)
  destruct (autoindent_on_line t2' i (take c line) (drop c line)
              ltac:(lia) Hm2 Hprev2 Hcur2)
    as (t3 & Hrun3 & Hl3 & Hm3 & Hidle3).
  assert (Hwidth :
    ((if block_opener (rstrip (take c line ++ [newline]))
      then Z.to_nat (spaces2add (Z.of_nat (S (S i))) t2') else 0)
     + spacecount (take c line ++ [newline]))%nat
    = autoindent_width (settings_indent t) (take c line) (drop c line)).
  { unfold autoindent_width, spaces2add. rewrite Hw2.
    rewrite (leading_valid t2' (Z.of_nat (S (S i))) (drop c line)); [reflexivity|lia|].
    now replace (Z.to_nat (Z.of_nat (S (S i))) - 1)%nat with (S i) by lia. }
  rewrite Hwidth in Hl3, Hm3.
  assert (Hlen2 : length (lines t2') = S (length (lines t))).
  { change (lines t2') with (lines t2). rewrite Hl2.
    rewrite !length_app, length_take, length_drop. simpl. lia. }
  destruct (strip_whitespace_on_line t3 i _ (take c line) Hm3)
    as (t4 & Hrun4 & Hl4 & Hm4 & _ & Hidle4 & _).
  { rewrite Hl3. now rewrite list_lookup_insert_ne by lia. }
  { rewrite Hl3, length_insert. lia. }
  assert (Hnl' : newline ∉ take c line).
  { intros Hin. apply Hnl. rewrite <- (take_drop c line).
    apply elem_of_app. now left. }
  rewrite <- rstrip_spacecount_reverse in Hl4 by assumption.
  exists (cursor_moved t4).
  assert (Hrun : press_Return t = (cursor_moved t4, Ok tt)).
  { unfold press_Return. unfold bind at 1. rewrite on_return_eq. fold t1.
    unfold bind at 1, tk_TextInsert. unfold bind at 1, gets.
    change (sel_ranges t1) with (sel_ranges t). rewrite Hsel.
    unfold bind at 1, index, gets. unfold bind at 1, ret.
    unfold insert, modify. fold t2.
    unfold run_idle. unfold bind at 1, gets.
    change (idle t2) with (idle (tk_insert MarkInsert [newline] t1)).
    rewrite tk_insert_idle. change (idle t1)
      with (idle t ++ [TaskAutoindent; TaskStripWhitespace; TaskCursorMove]).
    rewrite Hidle. cbn [app].
    unfold bind at 1, modify. fold t2'.
    cbn [for_each]. unfold bind, reported, run_task, ret.
    rewrite Hrun3. cbn [fst]. rewrite Hrun4. cbn [fst].
    rewrite do_cursor_move_eq. reflexivity. }
  split; [exact Hrun|].
  rewrite cursor_moved_lines, cursor_moved_insert_mark, cursor_moved_idle.
  split; [|split; [|split; [|split]]].
  - rewrite Hl4, Hl3. change (lines t2') with (lines t2). rewrite Hl2.
    now apply insert_two.
  - now rewrite Hm4.
  - rewrite cursor_moved_cache. apply cursor_moved_insert_mark.
  - rewrite Hidle4, Hidle3. reflexivity.
  - unfold autoindent_width. rewrite Nat2Z.inj_add.
    destruct (block_opener (rstrip (take c line ++ [newline])));
      [|reflexivity].
    pose proof (Z.mod_pos_bound
                  (Z.of_nat (spacecount (drop c line ++ [newline])))
                  (settings_indent t) Hw).
    rewrite Z2Nat.id by lia. reflexivity.
Qed.

Lemma return_key_witness :
  (exists t',
     press_Return (widget ["    if x:  "%string; "y"%string] (mkPos 1 11) 4)
     = (t', Ok tt)
     /\ lines t' = [py "    if x:"; py "        "; py "y"]
     /\ insert_mark t' = mkPos 2 8)
  /\ (exists t',
        press_Return (widget ["if x:  y"%string] (mkPos 1 5) 4) = (t', Ok tt)
        /\ lines t' = [py "if x:"; py "    y"]
        /\ insert_mark t' = mkPos 2 2).
Proof.
  split.
  - destruct (return_key (widget ["    if x:  "%string; "y"%string] (mkPos 1 11) 4)
                0 11 (py "    if x:  ") eq_refl eq_refl eq_refl eq_refl eq_refl
                ltac:(repeat constructor)
                ltac:(intros H; repeat (inversion H as [|? ? ? H']; subst; clear H; rename H' into H)))
      as (t' & H1 & H2 & H3 & _).
    exists t'. split; [exact H1|]. split; [exact H2 | exact H3].
  - destruct (return_key (widget ["if x:  y"%string] (mkPos 1 5) 4)
                0 5 (py "if x:  y") eq_refl eq_refl eq_refl eq_refl eq_refl
                ltac:(repeat constructor)
                ltac:(intros H; repeat (inversion H as [|? ? ? H']; subst; clear H; rename H' into H)))
      as (t' & H1 & H2 & H3 & _).
    exists t'. split; [exact H1|]. split; [exact H2 | exact H3].
Defined.

(** ** Select-all *)

Lemma pos_ltb_lt (p q : Pos) :
  pos_ltb p q = true
  <-> (pline p < pline q \/ (pline p = pline q /\ pcol p < pcol q))%nat.
Proof.
  unfold pos_ltb.
  rewrite orb_true_iff, andb_true_iff, !Nat.ltb_lt, Nat.eqb_eq. reflexivity.
Qed.

Lemma pos_ltb_ge (p q : Pos) :
  pos_ltb p q = false
  <-> (pline q < pline p \/ (pline p = pline q /\ pcol q <= pcol p))%nat.
Proof.
  rewrite <- not_true_iff_false, pos_ltb_lt. lia.
Qed.

Lemma pos_leb_le (p q : Pos) :
  pos_leb p q = true
  <-> (pline p < pline q \/ (pline p = pline q /\ pcol p <= pcol q))%nat.
Proof.
  unfold pos_leb. rewrite negb_true_iff, pos_ltb_ge. lia.
Qed.

Lemma add_range_within (lo hi : Pos) (rs : list (Pos * Pos)) :
  Forall (fun r => pos_leb lo (fst r) = true
                   /\ pos_ltb (fst r) (snd r) = true
                   /\ pos_leb (snd r) hi = true) rs ->
  add_range lo hi rs = [(lo, hi)].
Proof.
  induction 1 as [|r rs (H1 & H2 & H3) _ IH]; [reflexivity|].
  cbn [add_range].
  apply pos_leb_le in H1, H3. apply pos_ltb_lt in H2.
  assert (E1 : pos_ltb (snd r) lo = false) by (apply pos_ltb_ge; lia).
  assert (E2 : pos_ltb hi (fst r) = false) by (apply pos_ltb_ge; lia).
  assert (E3 : pos_ltb (fst r) lo = false) by (apply pos_ltb_ge; lia).
  assert (E4 : pos_ltb hi (snd r) = false) by (apply pos_ltb_ge; lia).
  unfold pos_min, pos_max. now rewrite E1, E2, E3, E4.
Qed.

Lemma resolve_end_minus_1c (t : EditorText) (last_line : list N) :
  lines t !! (length (lines t) - 1)%nat = Some last_line ->
  resolve (lines t) (insert_mark t) (MinusChars IdxEnd 1)
  = mkPos (length (lines t)) (length last_line).
Proof.
  intros Hlast. pose proof (lookup_lt_Some _ _ _ Hlast) as Hlt.
  cbn [resolve Nat.iter nat_rect]. unfold end_pos, back_char. cbn [pline pcol].
  destruct (1 <? S (length (lines t)))%nat eqn:E;
    [|apply Nat.ltb_ge in E; lia].
  replace (S (length (lines t)) - 1)%nat with (length (lines t)) by lia.
  unfold line_at. now rewrite Hlast.
Qed.

Lemma on_ctrl_a_eq (t : EditorText) (last_line : list N) :
  lines t !! (length (lines t) - 1)%nat = Some last_line ->
  _on_ctrl_a t
  = (if pos_ltb (mkPos 1 0) (mkPos (length (lines t)) (length last_line))
     then set_sel
            (add_range (mkPos 1 0)
               (mkPos (length (lines t)) (length last_line)) (sel_ranges t)) t
     else t,
     Ok RetBreak).
Proof.
  intros Hlast. pose proof (lookup_lt_Some _ _ _ Hlast) as Hlt.
  unfold _on_ctrl_a, bind, tag_add_sel, modify, ret, tk_tag_add_sel.
  rewrite (resolve_end_minus_1c t last_line Hlast).
  rewrite resolve_line_start by lia.
  change (Z.to_nat 1) with 1%nat. reflexivity.
Qed.

(** X11. Select-all on a buffer whose selection, if there is one, does
    not reach the last newline. When the buffer holds a character besides
    its last newline, the selection becomes the one range from the start
    of the buffer to the end of the last line; on an empty buffer nothing
    is selected. In both cases ['break'] is returned and nothing else of
    the widget changes: not the text, not the cursor, not its cache, and
    no listener is called. *)
Theorem select_all (t : EditorText) (last_line : list N) :
  lines t !! (length (lines t) - 1)%nat = Some last_line ->
  Forall (fun r => pos_leb (mkPos 1 0) (fst r) = true
                   /\ pos_ltb (fst r) (snd r) = true
                   /\ pos_leb (snd r)
                        (mkPos (length (lines t)) (length last_line)) = true)
    (sel_ranges t) ->
  _on_ctrl_a t
  = (if bool_decide (lines t = [[]]) then t
     else set_sel [(mkPos 1 0, mkPos (length (lines t)) (length last_line))] t,
     Ok RetBreak).
Proof.
  intros Hlast Hsel. pose proof (lookup_lt_Some _ _ _ Hlast) as Hlt.
  rewrite (on_ctrl_a_eq t last_line Hlast), add_range_within by assumption.
  f_equal. destruct (decide (lines t = [[]])) as [Hempty|Hfull].
  - rewrite bool_decide_eq_true_2 by assumption.
    rewrite Hempty in Hlast. simpl in Hlast. inversion Hlast; subst.
    rewrite Hempty. reflexivity.
  - rewrite bool_decide_eq_false_2 by assumption.
    replace (pos_ltb (mkPos 1 0) (mkPos (length (lines t)) (length last_line)))
      with true; [reflexivity|].
    symmetry. apply pos_ltb_lt. cbn [pline pcol].
    destruct (lines t) as [|x [|y rest]] eqn:E; simpl in *; [lia| |lia].
    inversion Hlast; subst. destruct last_line; [congruence|simpl; lia].
Qed.

Lemma select_all_witness :
  _on_ctrl_a (widget ["ab"%string; "c"%string] (mkPos 2 1) 4)
  = (set_sel [(mkPos 1 0, mkPos 2 1)]
       (widget ["ab"%string; "c"%string] (mkPos 2 1) 4), Ok RetBreak).
Proof.
  exact (select_all (widget ["ab"%string; "c"%string] (mkPos 2 1) 4) (py "c")
           eq_refl (Forall_nil_2 _)).
Defined.

(** X12. Select-all followed by Tab, with a positive indent width, on a
    buffer that is not empty and has no selection: ['break'] is returned
    and every line of the buffer is indented once, or dedented once when
    the Tab is shifted. *)
Theorem select_all_then_tab (t : EditorText) (shifted : bool)
    (last_line : list N) :
  0 < settings_indent t ->
  lines t !! (length (lines t) - 1)%nat = Some last_line ->
  lines t <> [[]] ->
  sel_ranges t = [] ->
  exists t',
    (_on_ctrl_a ;; _on_tab shifted) t = (t', Ok RetBreak)
    /\ lines t'
       = map ((if shifted then dedent_line else indent_line) (settings_indent t))
           (lines t).
Proof.
  intros Hw Hlast Hfull Hsel.
  pose proof (lookup_lt_Some _ _ _ Hlast) as Hlt.
  assert (Hrun : _on_ctrl_a t
                 = (set_sel [(mkPos 1 0, mkPos (length (lines t)) (length last_line))] t,
                    Ok RetBreak)).
  { rewrite (on_ctrl_a_eq t last_line Hlast), Hsel. cbn [add_range].
    replace (pos_ltb (mkPos 1 0) (mkPos (length (lines t)) (length last_line)))
      with true; [reflexivity|].
    symmetry. apply pos_ltb_lt. cbn [pline pcol].
    destruct (lines t) as [|x [|y rest]] eqn:E; simpl in *; [lia| |lia].
    inversion Hlast; subst. destruct last_line; [congruence|simpl; lia]. }
  set (t1 := set_sel [(mkPos 1 0, mkPos (length (lines t)) (length last_line))] t)
    in *.
  destruct (tab_on_block shifted t1 (mkPos 1 0)
              (mkPos (length (lines t)) (length last_line)) Hw eq_refl)
    as (t' & Htab & Happ).
  exists t'. unfold bind. rewrite Hrun, Htab. split; [reflexivity|].
  apply list_eq. intros i.
  rewrite (applied_lines shifted _ _ t1 t' Happ Hw)
    by (unfold lineno_of; cbn [pline]; change (lines t1) with (lines t); lia).
  change (lines t1) with (lines t).
  change (settings_indent t1) with (settings_indent t).
  rewrite list_lookup_fmap. unfold lineno_of. cbn [pline].
  change (Z.of_nat 1 - 1) with 0.
  destruct (0 <=? Z.of_nat i) eqn:E1; [|apply Z.leb_gt in E1; lia].
  destruct (Z.of_nat i <? Z.of_nat (length (lines t))) eqn:E2; [reflexivity|].
  apply Z.ltb_ge in E2. rewrite lookup_ge_None_2 by lia. reflexivity.
Qed.

Lemma select_all_then_tab_witness :
  exists t',
    (_on_ctrl_a ;; _on_tab false)
      (widget ["a"%string; "  b"%string] (mkPos 1 0) 4) = (t', Ok RetBreak)
    /\ lines t' = [py "    a"; py "    b"].
Proof.
  exact (select_all_then_tab (widget ["a"%string; "  b"%string] (mkPos 1 0) 4)
           false (py "  b") eq_refl eq_refl ltac:(discriminate) eq_refl).
Defined.

(** ** The line-jump dialog *)

(** X13. [gotoline] needs no bounds check, on a buffer of characters of
    the Basic Multilingual Plane, which the toolkit counts one by one, and
    for an answer and a cursor column within the toolkit's [int]. When
    the dialog is cancelled the widget is left as it is. Otherwise the
    text is not changed and the cursor goes to the column it was in, on
    the line asked for, or to the end of that line when the line is
    shorter; a line number below 1 gives the start of the buffer, a line
    number past the last line gives the end of the last line. On a buffer
    that has a line the cursor is then always at a position of the
    buffer. *)
Theorem gotoline_clamps (t : EditorText) (answer : option Z) :
  lines t <> [] ->
  Forall (Forall (fun ch => (ch < 65536)%N)) (lines t) ->
  Z.of_nat (pcol (insert_mark t)) < 2 ^ 31 ->
  match answer with
  | None => gotoline None t = (t, Ok tt)
  | Some lineno =>
      - 2 ^ 31 < lineno <= 2 ^ 31 ->
      exists t',
        gotoline (Some lineno) t = (t', Ok tt)
        /\ lines t' = lines t
        /\ insert_mark t'
           = (if lineno <? 1 then mkPos 1 0
              else if Z.of_nat (length (lines t)) <? lineno
                   then mkPos (length (lines t))
                          (length (line_at (lines t) (length (lines t))))
                   else mkPos (Z.to_nat lineno)
                          (Nat.min (pcol (insert_mark t))
                             (length (line_at (lines t) (Z.to_nat lineno)))))
        /\ valid_pos (lines t) (insert_mark t')
  end.
Proof.
  intros Hne _ Hcol. destruct answer as [lineno|]; [|reflexivity].
  intros Hrange.
  assert (Hlen : (1 <= length (lines t))%nat).
  { destruct (lines t); [contradiction|simpl; lia]. }
  unfold gotoline, bind, index, gets, mark_set_insert, modify.
  eexists. split; [reflexivity|]. split; [reflexivity|].
  change (resolve (lines t) (insert_mark t) MarkInsert) with (insert_mark t).
  cbn [tk_mark_set_insert insert_mark].
  rewrite resolve_LineChar, line_index_int, char_index_int, Nat2Z.id by lia.
  unfold clamp_col, end_pos, valid_pos.
  destruct (Z.ltb_spec lineno 1) as [E1|E1].
  - destruct (Z.ltb_spec (lineno - 1) 0) as [_|E]; [|lia].
    cbn [pline pcol].
    destruct (length (lines t) <? 1)%nat eqn:E; [apply Nat.ltb_lt in E; lia|].
    split; [reflexivity|]. cbn [pline pcol]. lia.
  - destruct (Z.ltb_spec (lineno - 1) 0) as [E|_]; [lia|].
    replace (S (Z.to_nat (lineno - 1))) with (Z.to_nat lineno) by lia.
    destruct (length (lines t) <? Z.to_nat lineno)%nat eqn:E2.
    + apply Nat.ltb_lt in E2. cbn [pline pcol].
      destruct (length (lines t) <? S (length (lines t)))%nat eqn:E3;
        [|apply Nat.ltb_ge in E3; lia].
      unfold back_char. cbn [pline pcol].
      destruct (1 <? S (length (lines t)))%nat eqn:E4;
        [|apply Nat.ltb_ge in E4; lia].
      replace (S (length (lines t)) - 1)%nat with (length (lines t)) by lia.
      destruct (Z.of_nat (length (lines t)) <? lineno) eqn:E5;
        [|apply Z.ltb_ge in E5; lia].
      split; [reflexivity|]. cbn [pline pcol]. lia.
    + apply Nat.ltb_ge in E2. cbn [pline pcol].
      destruct (length (lines t) <? Z.to_nat lineno)%nat eqn:E3;
        [apply Nat.ltb_lt in E3; lia|].
      destruct (Z.of_nat (length (lines t)) <? lineno) eqn:E5;
        [apply Z.ltb_lt in E5; lia|].
      split; [reflexivity|]. cbn [pline pcol]. lia.
Qed.

(** An answer that the toolkit's [int] does not hold wraps: 4294967298
    is line 2. *)
Example gotoline_wrapped_answer :
  insert_mark
    (fst (gotoline (Some 4294967298)
            (widget ["hello"%string; "abc"%string; "xyz"%string] (mkPos 1 2) 4)))
  = mkPos 2 2.
Proof. vm_compute. reflexivity. Qed.

Lemma gotoline_clamps_witness :
  exists t',
    gotoline (Some 2)
      (widget ["hello"%string; "ab"%string; "xyz"%string] (mkPos 1 4) 4)
    = (t', Ok tt)
    /\ insert_mark t' = mkPos 2 2.
Proof.
  destruct (gotoline_clamps
              (widget ["hello"%string; "ab"%string; "xyz"%string] (mkPos 1 4) 4)
              (Some 2) ltac:(discriminate)
              ltac:(repeat (constructor; try reflexivity))
              ltac:(reflexivity)
              ltac:(vm_compute; split; [reflexivity | discriminate]))
    as (t' & H1 & _ & H2 & _).
  exists t'. split; [exact H1 | exact H2].
Defined.

(** ** The buffer as one text *)

Lemma valid_pos_line (ls : list (list N)) (p : Pos) :
  valid_pos ls p ->
  ls !! (pline p - 1)%nat = Some (line_at ls (pline p))
  /\ (pcol p <= length (line_at ls (pline p)))%nat.
Proof.
  intros [Hl Hc]. split; [|exact Hc]. unfold line_at.
  destruct (lookup_lt_is_Some_2 ls (pline p - 1)%nat ltac:(lia)) as [x Hx].
  now rewrite Hx.
Qed.

Lemma with_newlines_cons (l : list N) (ls : list (list N)) :
  with_newlines (l :: ls) = l ++ newline :: with_newlines ls.
Proof. unfold with_newlines. simpl. now rewrite <- app_assoc. Qed.

Lemma buffer_split (ls : list (list N)) (p : Pos) :
  valid_pos ls p ->
  with_newlines ls
  = (with_newlines (take (pline p - 1) ls)
       ++ take (pcol p) (line_at ls (pline p)))
      ++ text_from ls p
  /\ offset ls p
     = length (with_newlines (take (pline p - 1) ls)
                 ++ take (pcol p) (line_at ls (pline p)))
  /\ text_from ls p
     = drop (pcol p) (line_at ls (pline p))
         ++ newline :: with_newlines (drop (pline p) ls).
Proof.
  intros Hv. destruct (valid_pos_line ls p Hv) as [Hl Hc].
  destruct Hv as [Hline _].
  assert (Htf : text_from ls p
                = drop (pcol p) (line_at ls (pline p))
                    ++ newline :: with_newlines (drop (pline p) ls)).
  { unfold text_from. rewrite (drop_S _ _ _ Hl).
    now replace (S (pline p - 1)) with (pline p) by lia. }
  split; [|split; [|exact Htf]].
  - rewrite Htf, <- app_assoc.
    rewrite (app_assoc (take _ _)), take_drop.
    rewrite <- with_newlines_cons, <- with_newlines_app.
    replace (pline p) with (S (pline p - 1)) at 3 by lia.
    now rewrite take_drop_middle.
  - unfold offset. rewrite length_app, length_take. lia.
Qed.

Lemma take_offset (ls : list (list N)) (p : Pos) :
  valid_pos ls p ->
  take (offset ls p) (with_newlines ls)
  = with_newlines (take (pline p - 1) ls) ++ take (pcol p) (line_at ls (pline p)).
Proof.
  intros Hv. destruct (buffer_split ls p Hv) as (Hsplit & Hoff & _).
  rewrite Hsplit at 1. rewrite Hoff. apply take_app_length.
Qed.

Lemma drop_offset (ls : list (list N)) (p : Pos) :
  valid_pos ls p ->
  drop (offset ls p) (with_newlines ls) = text_from ls p.
Proof.
  intros Hv. destruct (buffer_split ls p Hv) as (Hsplit & Hoff & _).
  rewrite Hsplit at 1. rewrite Hoff. apply drop_app_length.
Qed.

Lemma offset_text_from (ls : list (list N)) (p : Pos) :
  valid_pos ls p ->
  (offset ls p + length (text_from ls p) = length (with_newlines ls))%nat.
Proof.
  intros Hv. destruct (buffer_split ls p Hv) as (Hsplit & Hoff & _).
  rewrite Hsplit at 1. rewrite length_app. lia.
Qed.

Lemma get_range_text (ls : list (list N)) (p q : Pos) :
  valid_pos ls p ->
  get_range ls p q
  = take (offset ls q - offset ls p) (drop (offset ls p) (with_newlines ls)).
Proof. intros Hv. unfold get_range. now rewrite drop_offset. Qed.

Lemma with_newlines_splice (pre s post : list N) :
  with_newlines (splice pre s post) = pre ++ s ++ post ++ [newline].
Proof.
  revert pre. induction s as [|c s IH]; intros pre.
  - simpl. rewrite with_newlines_cons. unfold with_newlines. simpl.
    now rewrite <- app_assoc.
  - cbn [splice]. destruct (c =? newline)%N eqn:E.
    + apply N.eqb_eq in E. subst c.
      rewrite with_newlines_cons, IH. reflexivity.
    + rewrite IH, <- app_assoc. reflexivity.
Qed.

Lemma insert_lines_text (ls : list (list N)) (p : Pos) (s : list N) :
  valid_pos ls p ->
  with_newlines (insert_lines ls p s)
  = take (offset ls p) (with_newlines ls) ++ s
      ++ drop (offset ls p) (with_newlines ls).
Proof.
  intros Hv. rewrite take_offset, drop_offset by assumption.
  destruct (buffer_split ls p Hv) as (_ & _ & Htf). rewrite Htf.
  unfold insert_lines. rewrite !with_newlines_app, with_newlines_splice.
  rewrite <- !app_assoc. reflexivity.
Qed.

Lemma delete_lines_text (ls : list (list N)) (p q : Pos) :
  valid_pos ls p ->
  valid_pos ls q ->
  with_newlines (delete_lines ls p q)
  = take (offset ls p) (with_newlines ls)
      ++ drop (offset ls q) (with_newlines ls).
Proof.
  intros Hp Hq. rewrite take_offset, drop_offset by assumption.
  destruct (buffer_split ls q Hq) as (_ & _ & Htf). rewrite Htf.
  unfold delete_lines. rewrite with_newlines_app, with_newlines_cons.
  rewrite <- !app_assoc. reflexivity.
Qed.

Lemma resolve_At_valid (ls : list (list N)) (ins p : Pos) :
  valid_pos ls p -> resolve ls ins (At p) = p.
Proof.
  intros [[H1 H2] Hc]. cbn [resolve]. unfold clamp_col.
  destruct (pline p <? 1)%nat eqn:E1; [apply Nat.ltb_lt in E1; lia|].
  destruct (length ls <? pline p)%nat eqn:E2; [apply Nat.ltb_lt in E2; lia|].
  destruct p as [l c]. cbn [pline pcol] in *. f_equal. lia.
Qed.

Lemma tk_insert_valid (t : EditorText) (i : Index) (s : list N) :
  s <> [] ->
  valid_pos (lines t) (resolve (lines t) (insert_mark t) i) ->
  lines (tk_insert i s t)
  = insert_lines (lines t) (resolve (lines t) (insert_mark t) i) s
  /\ insert_mark (tk_insert i s t)
     = shift_insert false (resolve (lines t) (insert_mark t) i) s (insert_mark t)
  /\ sel_ranges (tk_insert i s t)
     = map (fun r =>
              (shift_insert false (resolve (lines t) (insert_mark t) i) s (fst r),
               shift_insert true (resolve (lines t) (insert_mark t) i) s (snd r)))
         (sel_ranges t).
Proof.
  intros Hs [[H1 H2] _]. unfold tk_insert. destruct s as [|c s]; [contradiction|].
  destruct (length (lines t) <? pline (resolve (lines t) (insert_mark t) i))%nat
    eqn:E; [apply Nat.ltb_lt in E; lia|].
  repeat split.
Qed.

Lemma tk_delete_valid (t : EditorText) (i1 i2 : Index) :
  valid_pos (lines t) (resolve (lines t) (insert_mark t) i1) ->
  valid_pos (lines t) (resolve (lines t) (insert_mark t) i2) ->
  pos_ltb (resolve (lines t) (insert_mark t) i1)
          (resolve (lines t) (insert_mark t) i2) = true ->
  lines (tk_delete i1 i2 t)
  = delete_lines (lines t) (resolve (lines t) (insert_mark t) i1)
      (resolve (lines t) (insert_mark t) i2)
  /\ insert_mark (tk_delete i1 i2 t)
     = shift_delete (resolve (lines t) (insert_mark t) i1)
         (resolve (lines t) (insert_mark t) i2) (insert_mark t)
  /\ sel_ranges (tk_delete i1 i2 t)
     = filter (fun r => pos_ltb (fst r) (snd r) = true)
         (map (fun r =>
                 (shift_delete (resolve (lines t) (insert_mark t) i1)
                    (resolve (lines t) (insert_mark t) i2) (fst r),
                  shift_delete (resolve (lines t) (insert_mark t) i1)
                    (resolve (lines t) (insert_mark t) i2) (snd r)))
            (sel_ranges t)).
Proof.
  intros _ [[H1 H2] _] Hlt. unfold tk_delete. rewrite Hlt.
  destruct (length (lines t) <? pline (resolve (lines t) (insert_mark t) i2))%nat
    eqn:E; [apply Nat.ltb_lt in E; lia|].
  simpl andb. cbv iota. rewrite Hlt. repeat split.
Qed.

Lemma splice_head (pre s post : list N) :
  exists x rest, splice pre s post = (pre ++ x) :: rest.
Proof.
  revert pre. induction s as [|c s IH]; intros pre.
  - now exists post, [].
  - cbn [splice]. destruct (c =? newline)%N.
    + exists [], (splice [] s post). now rewrite app_nil_r.
    + destruct (IH (pre ++ [c])) as (x & rest & H).
      exists (c :: x), rest. rewrite H. now rewrite <- app_assoc.
Qed.

(** A position that is not after the place of an insertion is still a
    position of the buffer, at the same offset. *)
Lemma insert_lines_before (ls : list (list N)) (p m : Pos) (s : list N) :
  valid_pos ls p ->
  valid_pos ls m ->
  pos_leb m p = true ->
  valid_pos (insert_lines ls p s) m
  /\ offset (insert_lines ls p s) m = offset ls m.
Proof.
  intros Hp Hm Hle. apply pos_leb_le in Hle.
  destruct (valid_pos_line ls p Hp) as [Hlp Hcp].
  destruct (valid_pos_line ls m Hm) as [Hlm Hcm].
  destruct Hp as [Hp1 _]. destruct Hm as [Hm1 _].
  destruct (splice_head (take (pcol p) (line_at ls (pline p))) s
              (drop (pcol p) (line_at ls (pline p)))) as (x & rest & Hsp).
  assert (Hlen : length (take (pline p - 1) ls) = (pline p - 1)%nat)
    by (rewrite length_take; lia).
  unfold insert_lines. rewrite Hsp. split.
  - unfold valid_pos. rewrite !length_app, Hlen. cbn [length].
    rewrite length_drop. split; [lia|].
    unfold line_at at 1. cbn [app].
    destruct (decide (pline m = pline p)) as [Heq|Hne].
    + rewrite Heq. rewrite list_lookup_middle by (now rewrite Hlen).
      simpl default. rewrite length_app, length_take. lia.
    + rewrite lookup_app_l by (rewrite Hlen; lia).
      rewrite lookup_take_lt by lia. rewrite Hlm. exact Hcm.
  - unfold offset. f_equal. f_equal.
    rewrite take_app_le by (rewrite Hlen; lia).
    rewrite take_take. now rewrite Nat.min_l by lia.
Qed.

(** The start of a deleted range is still a position of the buffer, at
    the same offset, and every position of the range is moved to it. *)
Lemma delete_lines_start (ls : list (list N)) (p q : Pos) :
  valid_pos ls p ->
  valid_pos ls q ->
  pos_ltb p q = true ->
  valid_pos (delete_lines ls p q) p
  /\ offset (delete_lines ls p q) p = offset ls p.
Proof.
  intros Hp Hq Hlt. apply pos_ltb_lt in Hlt.
  destruct (valid_pos_line ls p Hp) as [Hlp Hcp].
  destruct Hp as [Hp1 _]. destruct Hq as [Hq1 _].
  assert (Hlen : length (take (pline p - 1) ls) = (pline p - 1)%nat)
    by (rewrite length_take; lia).
  unfold delete_lines. split.
  - unfold valid_pos. rewrite length_app, Hlen. cbn [length].
    rewrite length_drop. split; [lia|].
    unfold line_at at 1. rewrite list_lookup_middle by (now rewrite Hlen).
    simpl default. rewrite length_app, length_take. lia.
  - unfold offset. f_equal. f_equal.
    rewrite take_app_le by (rewrite Hlen; lia).
    rewrite take_take. now rewrite Nat.min_l by lia.
Qed.

Lemma shift_delete_inside (p q m : Pos) :
  pos_ltb p q = true ->
  pos_leb p m = true ->
  pos_leb m q = true ->
  shift_delete p q m = p.
Proof.
  intros Hpq Hpm Hmq.
  apply pos_ltb_lt in Hpq. apply pos_leb_le in Hpm, Hmq.
  unfold shift_delete.
  destruct (pos_leb m p) eqn:E1.
  - apply pos_leb_le in E1. destruct m, p. cbn [pline pcol] in *.
    f_equal; lia.
  - destruct (pos_ltb m q) eqn:E2; [reflexivity|].
    apply pos_ltb_ge in E2.
    destruct (pline m =? pline q)%nat eqn:E3.
    + apply Nat.eqb_eq in E3. destruct p. cbn [pline pcol] in *.
      f_equal. lia.
    + apply Nat.eqb_neq in E3. lia.
Qed.

Lemma offset_lt (ls : list (list N)) (p q : Pos) :
  valid_pos ls p ->
  valid_pos ls q ->
  pos_ltb p q = true ->
  (offset ls p < offset ls q)%nat.
Proof.
  intros Hp Hq Hlt. apply pos_ltb_lt in Hlt.
  destruct (valid_pos_line ls p Hp) as [Hlp Hcp].
  destruct Hp as [Hp1 _]. destruct Hq as [Hq1 _].
  unfold offset.
  destruct (decide (pline p = pline q)) as [Heq|Hne].
  - rewrite Heq. lia.
  - assert (Htake : take (pline q - 1) ls
                    = take (pline p - 1) ls
                        ++ line_at ls (pline p)
                        :: take (pline q - 1 - pline p) (drop (pline p) ls)).
    { rewrite <- (take_drop (pline p - 1) ls) at 1.
      rewrite take_app_ge by (rewrite length_take; lia).
      rewrite length_take.
      replace (pline q - 1 - (pline p - 1) `min` length ls)%nat
        with (S (pline q - 1 - pline p)) by lia.
      rewrite (drop_S _ _ _ Hlp). cbn [take].
      now replace (S (pline p - 1)) with (pline p) by lia. }
    rewrite Htake, with_newlines_app, with_newlines_cons, !length_app.
    cbn [length]. lia.
Qed.

Lemma offset_le_length (ls : list (list N)) (p : Pos) :
  valid_pos ls p -> (offset ls p < length (with_newlines ls))%nat.
Proof.
  intros Hv. pose proof (offset_text_from ls p Hv) as H.
  destruct (buffer_split ls p Hv) as (_ & _ & Htf).
  rewrite Htf, length_app in H. cbn [length] in H. lia.
Qed.

(** ** Cut and paste *)

Lemma cursor_moved_sel_ranges (t : EditorText) :
  sel_ranges (cursor_moved t) = sel_ranges t.
Proof. unfold cursor_moved. now destruct (bool_decide _). Qed.

Lemma paste_tail (t : EditorText) :
  (try_except_else (ranges <- tag_ranges_sel ;; unpack2 ranges) ValueError
     (ret tt)
     (fun '(sel_start, sel_end) => delete (At sel_start) (At sel_end)) ;;
   _do_cursor_move) t
  = (cursor_moved
       match sel_ranges t with
       | [(sel_start, sel_end)] => tk_delete (At sel_start) (At sel_end) t
       | _ => t
       end,
     Ok tt).
Proof.
  unfold bind at 1, try_except_else. rewrite unpack_sel.
  destruct (sel_ranges t) as [|[a b] [|[a' b'] rest]]; cbv beta iota;
    try change (bool_decide (ValueError = ValueError)) with true;
    cbv beta iota; unfold ret, delete, modify;
    now rewrite do_cursor_move_eq.
Qed.

Lemma cut_selection (d : Desktop) (a b : Pos) :
  sel_ranges (desk_text d) = [(a, b)] ->
  valid_pos (lines (desk_text d)) a ->
  valid_pos (lines (desk_text d)) b ->
  pos_ltb a b = true ->
  pos_leb a (insert_mark (desk_text d)) = true ->
  pos_leb (insert_mark (desk_text d)) b = true ->
  exists d1,
    cut d = (d1, Ok tt)
    /\ desk_clipboard d1 = Some (get_range (lines (desk_text d)) a b)
    /\ desk_x11 d1 = desk_x11 d
    /\ lines (desk_text d1) = delete_lines (lines (desk_text d)) a b
    /\ insert_mark (desk_text d1) = a
    /\ sel_ranges (desk_text d1) = []
    /\ _cursorpos (desk_text d1) = insert_mark (desk_text d1).
Proof.
  intros Hsel Ha Hb Hab Ham Hmb.
  assert (Hfl : sel_first_last (desk_text d) = Some (a, b)).
  { unfold sel_first_last. now rewrite Hsel. }
  destruct (tk_delete_valid (desk_text d) (At a) (At b)) as (Hl & Hm & Hs).
  { now rewrite resolve_At_valid. }
  { now rewrite resolve_At_valid. }
  { now rewrite !resolve_At_valid. }
  rewrite !resolve_At_valid in Hl, Hm, Hs by assumption.
  rewrite shift_delete_inside in Hm by assumption.
  rewrite Hsel in Hs. cbn [map fst snd] in Hs.
  rewrite !shift_delete_inside in Hs
    by (assumption || (apply pos_leb_le; apply pos_ltb_lt in Hab; lia)).
  rewrite filter_cons_False in Hs
    by (cbn [fst snd]; rewrite pos_ltb_irrefl; discriminate).
  eexists. unfold cut, lift, event_generate, tk_textCut. rewrite Hfl.
  cbn [desk_text]. rewrite do_cursor_move_eq. cbn [fst snd].
  split; [reflexivity|]. unfold with_text. cbn [desk_text desk_clipboard desk_x11].
  rewrite cursor_moved_lines, cursor_moved_insert_mark, cursor_moved_sel_ranges,
    cursor_moved_cache, cursor_moved_insert_mark.
  repeat split; assumption.
Qed.

Lemma tk_insert_text (t : EditorText) (i : Index) (s : list N) :
  valid_pos (lines t) (resolve (lines t) (insert_mark t) i) ->
  buffer_text (tk_insert i s t)
  = take (offset (lines t) (resolve (lines t) (insert_mark t) i)) (buffer_text t)
      ++ s
      ++ drop (offset (lines t) (resolve (lines t) (insert_mark t) i))
           (buffer_text t).
Proof.
  intros Hv. unfold buffer_text. destruct s as [|c s].
  - rewrite tk_insert_nil. simpl app. now rewrite take_drop.
  - destruct (tk_insert_valid t i (c :: s) ltac:(discriminate) Hv) as (Hl & _).
    rewrite Hl. now apply insert_lines_text.
Qed.

Lemma tk_insert_sel_empty (t : EditorText) (i : Index) (s : list N) :
  sel_ranges t = [] -> sel_ranges (tk_insert i s t) = [].
Proof.
  intros Hsel. destruct s as [|c s]; [exact Hsel|].
  unfold tk_insert. cbn [set_buffer sel_ranges]. now rewrite Hsel.
Qed.

Lemma paste_without_selection (d : Desktop) (s : list N) :
  desk_clipboard d = Some s ->
  sel_ranges (desk_text d) = [] ->
  valid_pos (lines (desk_text d)) (insert_mark (desk_text d)) ->
  exists d2,
    paste d = (d2, Ok tt)
    /\ buffer_text (desk_text d2)
       = take (offset (lines (desk_text d)) (insert_mark (desk_text d)))
           (buffer_text (desk_text d))
           ++ s
           ++ drop (offset (lines (desk_text d)) (insert_mark (desk_text d)))
                (buffer_text (desk_text d))
    /\ _cursorpos (desk_text d2) = insert_mark (desk_text d2).
Proof.
  intros Hclip Hsel Hv.
  assert (Hev : event_generate VPaste d
                = with_text (tk_insert MarkInsert s (desk_text d)) d).
  { unfold event_generate, tk_textPaste, sel_first_last.
    rewrite Hclip, Hsel. now destruct (desk_x11 d). }
  eexists. unfold paste, lift. rewrite Hev. cbn [with_text desk_text].
  rewrite paste_tail, (tk_insert_sel_empty _ _ _ Hsel). cbn [fst snd].
  split; [reflexivity|]. cbn [with_text desk_text].
  split; [|apply cursor_moved_cache].
  unfold buffer_text at 1. rewrite cursor_moved_lines.
  fold (buffer_text (tk_insert MarkInsert s (desk_text d))).
  now rewrite tk_insert_text.
Qed.

(** X14. Cut followed by paste gives the text back. With one selected
    range, from a position [a] of the buffer to a later one [b], and the
    cursor in the range or at one of its ends, on any windowing system:
    [cut] puts the selected text on the clipboard and takes it out of the
    buffer, and the [paste] that follows leaves the text of the buffer as
    it was before the cut. *)
Theorem cut_then_paste (d : Desktop) (a b : Pos) :
  sel_ranges (desk_text d) = [(a, b)] ->
  valid_pos (lines (desk_text d)) a ->
  valid_pos (lines (desk_text d)) b ->
  pos_ltb a b = true ->
  pos_leb a (insert_mark (desk_text d)) = true ->
  pos_leb (insert_mark (desk_text d)) b = true ->
  exists d1 d2,
    cut d = (d1, Ok tt)
    /\ desk_clipboard d1 = Some (get_range (lines (desk_text d)) a b)
    /\ buffer_text (desk_text d1)
       = take (offset (lines (desk_text d)) a) (buffer_text (desk_text d))
           ++ drop (offset (lines (desk_text d)) b) (buffer_text (desk_text d))
    /\ paste d1 = (d2, Ok tt)
    /\ buffer_text (desk_text d2) = buffer_text (desk_text d).
Proof.
  intros Hsel Ha Hb Hab Ham Hmb.
  destruct (cut_selection d a b Hsel Ha Hb Hab Ham Hmb)
    as (d1 & Hcut & Hclip & _ & Hl1 & Hm1 & Hs1 & _).
  destruct (delete_lines_start _ a b Ha Hb Hab) as [Hva Hoa].
  pose proof (delete_lines_text _ a b Ha Hb) as Htext1.
  pose proof (offset_lt _ a b Ha Hb Hab) as Hlt.
  pose proof (offset_le_length _ b Hb) as Hlen.
  assert (Hbt1 : buffer_text (desk_text d1)
                 = take (offset (lines (desk_text d)) a) (buffer_text (desk_text d))
                     ++ drop (offset (lines (desk_text d)) b)
                          (buffer_text (desk_text d))).
  { unfold buffer_text at 1. now rewrite Hl1. }
  destruct (paste_without_selection d1 _ Hclip Hs1) as (d2 & Hpaste & Htext2 & _).
  { rewrite Hm1, Hl1. exact Hva. }
  exists d1, d2. split; [exact Hcut|]. split; [exact Hclip|].
  split; [exact Hbt1|]. split; [exact Hpaste|].
  rewrite Htext2, Hm1, Hl1, Hoa, Hbt1. unfold buffer_text in *.
  set (F := with_newlines (lines (desk_text d))) in *.
  set (oa := offset (lines (desk_text d)) a) in *.
  set (ob := offset (lines (desk_text d)) b) in *.
  assert (Htake : oa = length (take oa F)) by (rewrite length_take; lia).
  rewrite take_app_length', drop_app_length' by assumption.
  rewrite get_range_text by assumption. fold F oa ob.
  replace (drop ob F) with (drop (ob - oa) (drop oa F))
    by (rewrite drop_drop; f_equal; lia).
  rewrite (take_drop (ob - oa) (drop oa F)). apply take_drop.
Qed.

Lemma cut_then_paste_witness :
  exists d1 d2,
    cut (mkDesktop
           (set_sel [(mkPos 1 2, mkPos 2 3)]
              (widget ["hello world"%string; "second"%string] (mkPos 2 3) 4))
           None true) = (d1, Ok tt)
    /\ desk_clipboard d1 = Some (py "llo world" ++ newline :: py "sec")
    /\ lines (desk_text d1) = [py "heond"]
    /\ paste d1 = (d2, Ok tt)
    /\ buffer_text (desk_text d2)
       = py "hello world" ++ newline :: py "second" ++ [newline].
Proof.
  destruct (cut_then_paste
              (mkDesktop
                 (set_sel [(mkPos 1 2, mkPos 2 3)]
                    (widget ["hello world"%string; "second"%string] (mkPos 2 3) 4))
                 None true) (mkPos 1 2) (mkPos 2 3) eq_refl
              ltac:(vm_compute; repeat constructor)
              ltac:(vm_compute; repeat constructor)
              eq_refl eq_refl eq_refl)
    as (d1 & d2 & H1 & H2 & _ & H4 & H5).
  exists d1, d2. split; [exact H1|]. split; [exact H2|].
  split; [|split; [exact H4 | exact H5]].
  pose proof (f_equal (fun r => lines (desk_text (fst r))) H1) as H.
  cbn [fst] in H. rewrite <- H. vm_compute. reflexivity.
Defined.

(** ** Positions behind an insertion *)

Lemma splice_shape (pre s post : list N) (l : nat) :
  exists front lastpre,
    splice pre s post = front ++ [lastpre ++ post]
    /\ advance (mkPos l (length pre)) s
       = mkPos (l + length front) (length lastpre).
Proof.
  revert pre l. induction s as [|c s IH]; intros pre l.
  - exists [], pre. split; [reflexivity|]. simpl. f_equal. lia.
  - cbn [splice advance pline pcol]. destruct (c =? newline)%N.
    + destruct (IH [] (S l)) as (front & lastpre & Hsp & Hadv).
      exists (pre :: front), lastpre. rewrite Hsp. split; [reflexivity|].
      change 0%nat with (length (@nil N)). rewrite Hadv.
      simpl. f_equal. lia.
    + destruct (IH (pre ++ [c]) l) as (front & lastpre & Hsp & Hadv).
      exists front, lastpre. split; [exact Hsp|].
      rewrite length_app in Hadv. simpl in Hadv.
      now replace (S (length pre)) with (length pre + 1)%nat by lia.
Qed.

Lemma line_at_drop (ls : list (list N)) (l : nat) (x : list N)
    (rest : list (list N)) :
  (1 <= l)%nat ->
  drop (l - 1) ls = x :: rest ->
  line_at ls l = x /\ (l <= length ls)%nat.
Proof.
  intros Hl Hdrop.
  assert (Hx : ls !! (l - 1)%nat = Some x).
  { pose proof (lookup_drop ls (l - 1) 0) as H. rewrite Hdrop in H.
    simpl in H. now rewrite Nat.add_0_r in H. }
  split; [unfold line_at; now rewrite Hx|].
  apply lookup_lt_Some in Hx. lia.
Qed.

(** A position at or behind the place of an insertion moves with the
    text that follows the insertion: it is a position of the new buffer,
    and the text from it to the end is what it was. *)
Lemma insert_lines_after (ls : list (list N)) (p m : Pos) (s : list N)
    (stay : bool) :
  valid_pos ls p ->
  valid_pos ls m ->
  pos_ltb m p || stay && bool_decide (m = p) = false ->
  valid_pos (insert_lines ls p s) (shift_insert stay p s m)
  /\ text_from (insert_lines ls p s) (shift_insert stay p s m) = text_from ls m.
Proof.
  intros Hp Hm Hcond.
  destruct (valid_pos_line ls p Hp) as [Hlp Hcp].
  destruct (valid_pos_line ls m Hm) as [Hlm Hcm].
  destruct (buffer_split ls m Hm) as (_ & _ & Htfm).
  destruct Hp as [Hp1 _]. destruct Hm as [Hm1 _].
  apply orb_false_iff in Hcond as [Hnlt Hstay]. apply pos_ltb_ge in Hnlt.
  destruct (splice_shape (take (pcol p) (line_at ls (pline p))) s
              (drop (pcol p) (line_at ls (pline p))) (pline p))
    as (front & lastpre & Hsp & Hadv).
  rewrite length_take, Nat.min_l in Hadv by lia.
  assert (Hp' : mkPos (pline p) (pcol p) = p) by now destruct p.
  rewrite Hp' in Hadv.
  assert (Hlen : length (take (pline p - 1) ls) = (pline p - 1)%nat)
    by (rewrite length_take; lia).
  unfold shift_insert.
  replace (pos_ltb m p || stay && bool_decide (m = p)) with false
    by (symmetry; apply orb_false_iff; split; [now apply pos_ltb_ge|assumption]).
  unfold insert_lines. rewrite Hsp, Hadv. cbn [pline pcol].
  destruct (pline m =? pline p)%nat eqn:Eline.
  - apply Nat.eqb_eq in Eline.
    assert (Hcol : (pcol p <= pcol m)%nat) by lia.
    assert (Hdrop :
      drop (pline p + length front - 1)
        (take (pline p - 1) ls ++ (front ++ [lastpre ++ drop (pcol p) (line_at ls (pline p))])
           ++ drop (pline p) ls)
      = (lastpre ++ drop (pcol p) (line_at ls (pline p))) :: drop (pline p) ls).
    { rewrite <- app_assoc. rewrite app_assoc.
      cbn [app]. apply drop_app_length'.
      rewrite length_app, Hlen. lia. }
    split.
    + destruct (line_at_drop _ (pline p + length front) _ _ ltac:(lia) Hdrop)
        as [Hline Hle].
      unfold valid_pos. cbn [pline pcol]. rewrite Hline.
      split; [lia|]. rewrite length_app, length_drop.
      rewrite Eline in Hcm. lia.
    + unfold text_from at 1. cbn [pline pcol]. rewrite Hdrop.
      rewrite Htfm, Eline. f_equal.
      rewrite drop_app_ge by lia.
      replace (length lastpre + (pcol m - pcol p) - length lastpre)%nat
        with (pcol m - pcol p)%nat by lia.
      rewrite drop_drop. f_equal. lia.
  - apply Nat.eqb_neq in Eline.
    assert (Hgt : (pline p < pline m)%nat) by lia.
    assert (Hdrop :
      drop (pline m + (pline p + length front - pline p) - 1)
        (take (pline p - 1) ls ++ (front ++ [lastpre ++ drop (pcol p) (line_at ls (pline p))])
           ++ drop (pline p) ls)
      = drop (pline m - 1) ls).
    { rewrite app_assoc. rewrite drop_app_ge
        by (rewrite !length_app, Hlen; simpl; lia).
      rewrite !length_app, Hlen. simpl length.
      rewrite drop_drop. f_equal. lia. }
    rewrite (drop_S _ _ _ Hlm) in Hdrop.
    split.
    + destruct (line_at_drop _ (pline m + (pline p + length front - pline p)) _ _
                  ltac:(lia) Hdrop) as [Hline Hle].
      unfold valid_pos. cbn [pline pcol]. rewrite Hline. split; [lia|exact Hcm].
    + unfold text_from. cbn [pline pcol]. rewrite Hdrop.
      rewrite (drop_S _ _ _ Hlm). reflexivity.
Qed.

Lemma shift_insert_offset (ls : list (list N)) (p m : Pos) (s : list N)
    (stay : bool) :
  valid_pos ls p ->
  valid_pos ls m ->
  valid_pos (insert_lines ls p s) (shift_insert stay p s m)
  /\ offset (insert_lines ls p s) (shift_insert stay p s m)
     = (offset ls m
        + if pos_ltb m p || stay && bool_decide (m = p) then 0 else length s)%nat.
Proof.
  intros Hp Hm.
  destruct (pos_ltb m p || stay && bool_decide (m = p)) eqn:Hcond.
  - assert (Hle : pos_leb m p = true).
    { apply orb_true_iff in Hcond as [Hlt|Heq].
      - apply pos_ltb_lt in Hlt. apply pos_leb_le. lia.
      - apply andb_true_iff in Heq as [_ Heq].
        apply bool_decide_eq_true in Heq. subst m.
        apply pos_leb_le. lia. }
    unfold shift_insert. rewrite Hcond.
    destruct (insert_lines_before ls p m s Hp Hm Hle) as [Hv Ho].
    split; [exact Hv|]. rewrite Ho. lia.
  - destruct (insert_lines_after ls p m s stay Hp Hm Hcond) as [Hv Htf].
    split; [exact Hv|].
    pose proof (offset_text_from _ _ Hv) as H1.
    pose proof (offset_text_from _ _ Hm) as H2.
    rewrite Htf, insert_lines_text, !length_app in H1 by assumption.
    rewrite length_take, length_drop in H1.
    pose proof (offset_le_length _ _ Hp). lia.
Qed.

Lemma offset_lt_inv (ls : list (list N)) (p q : Pos) :
  valid_pos ls p ->
  valid_pos ls q ->
  (offset ls p < offset ls q)%nat ->
  pos_ltb p q = true.
Proof.
  intros Hp Hq Hlt. destruct (pos_ltb p q) eqn:E; [reflexivity|].
  apply pos_ltb_ge in E.
  destruct (pos_ltb q p) eqn:E2.
  - pose proof (offset_lt ls q p Hq Hp E2). lia.
  - apply pos_ltb_ge in E2.
    assert (p = q) by (destruct p, q; cbn [pline pcol] in *; f_equal; lia).
    subst. lia.
Qed.

Lemma tk_delete_text (t : EditorText) (a b : Pos) :
  valid_pos (lines t) a ->
  valid_pos (lines t) b ->
  pos_ltb a b = true ->
  buffer_text (tk_delete (At a) (At b) t)
  = take (offset (lines t) a) (buffer_text t)
      ++ drop (offset (lines t) b) (buffer_text t).
Proof.
  intros Ha Hb Hab.
  destruct (tk_delete_valid t (At a) (At b)) as (Hl & _).
  { now rewrite resolve_At_valid. }
  { now rewrite resolve_At_valid. }
  { now rewrite !resolve_At_valid. }
  rewrite !resolve_At_valid in Hl by assumption.
  unfold buffer_text. rewrite Hl. now apply delete_lines_text.
Qed.

(** Paste on X11, where the toolkit leaves the selection alone: the text
    is inserted at the cursor, the selected range moves with it, and the
    widget then deletes the range as it is after the insertion. *)
Lemma paste_x11_selection (d : Desktop) (a b : Pos) (s : list N) :
  desk_x11 d = true ->
  desk_clipboard d = Some s ->
  sel_ranges (desk_text d) = [(a, b)] ->
  valid_pos (lines (desk_text d)) a ->
  valid_pos (lines (desk_text d)) b ->
  valid_pos (lines (desk_text d)) (insert_mark (desk_text d)) ->
  pos_ltb a b = true ->
  pos_leb a (insert_mark (desk_text d)) = true ->
  pos_leb (insert_mark (desk_text d)) b = true ->
  exists d2,
    paste d = (d2, Ok tt)
    /\ buffer_text (desk_text d2)
       = take (offset (lines (desk_text d)) a
               + if pos_ltb a (insert_mark (desk_text d)) then 0 else length s)
           (take (offset (lines (desk_text d)) (insert_mark (desk_text d)))
              (buffer_text (desk_text d))
              ++ s
              ++ drop (offset (lines (desk_text d)) (insert_mark (desk_text d)))
                   (buffer_text (desk_text d)))
         ++ drop (offset (lines (desk_text d)) b
                  + if pos_leb b (insert_mark (desk_text d)) then 0 else length s)
              (take (offset (lines (desk_text d)) (insert_mark (desk_text d)))
                 (buffer_text (desk_text d))
                 ++ s
                 ++ drop (offset (lines (desk_text d)) (insert_mark (desk_text d)))
                      (buffer_text (desk_text d))).
Proof.
  intros Hx Hclip Hsel Ha Hb Hm Hab Ham Hmb.
  set (t := desk_text d) in *. set (m := insert_mark t) in *.
  assert (Hev : event_generate VPaste d
                = with_text (tk_insert MarkInsert s t) d).
  { unfold event_generate, tk_textPaste. now rewrite Hclip, Hx. }
  pose proof (offset_lt _ a b Ha Hb Hab) as Hoab.
  apply pos_ltb_lt in Hab. apply pos_leb_le in Ham, Hmb.
  eexists. unfold paste, lift. rewrite Hev. cbn [with_text desk_text].
  rewrite paste_tail. cbn [fst snd]. split; [reflexivity|].
  cbn [with_text desk_text]. unfold buffer_text at 1.
  rewrite cursor_moved_lines.
  destruct s as [|c s].
  - (* an empty clipboard text: nothing is inserted *)
    rewrite tk_insert_nil. fold t. rewrite Hsel.
    fold (buffer_text (tk_delete (At a) (At b) t)).
    rewrite tk_delete_text by (assumption || (apply pos_ltb_lt; lia)).
    simpl app. rewrite take_drop. simpl length.
    destruct (pos_ltb a m), (pos_leb b m); now rewrite !Nat.add_0_r.
  - destruct (tk_insert_valid t MarkInsert (c :: s) ltac:(discriminate) Hm)
      as (Hl1 & _ & Hs1).
    change (resolve (lines t) (insert_mark t) MarkInsert) with m in Hl1, Hs1.
    rewrite Hsel in Hs1. cbn [map fst snd] in Hs1.
    destruct (shift_insert_offset (lines t) m a (c :: s) false Hm Ha) as [Hva Hoa].
    destruct (shift_insert_offset (lines t) m b (c :: s) true Hm Hb) as [Hvb Hob].
    rewrite orb_false_r in Hoa.
    assert (Hbm : pos_ltb b m || true && bool_decide (b = m) = pos_leb b m).
    { destruct (pos_leb b m) eqn:E.
      - apply pos_leb_le in E. apply orb_true_iff.
        destruct (decide (b = m)) as [->|Hne].
        + right. now rewrite bool_decide_eq_true_2.
        + left. apply pos_ltb_lt.
          destruct b, m. cbn [pline pcol] in *.
          assert (~ (pline0 = pline1 /\ pcol0 = pcol1)) by (intros [-> ->]; auto).
          lia.
      - apply orb_false_iff. split.
        + apply pos_ltb_ge. unfold pos_leb in E. apply negb_false_iff in E.
          apply pos_ltb_lt in E. lia.
        + simpl. apply bool_decide_eq_false_2. intros ->.
          unfold pos_leb in E. now rewrite pos_ltb_irrefl in E. }
    rewrite Hbm in Hob.
    set (a' := shift_insert false m (c :: s) a) in *.
    set (b' := shift_insert true m (c :: s) b) in *.
    rewrite <- Hl1 in Hva, Hvb, Hoa, Hob.
    assert (Hlt' : pos_ltb a' b' = true).
    { apply (offset_lt_inv _ a' b' Hva Hvb). rewrite Hoa, Hob.
      destruct (pos_ltb a m) eqn:E1; destruct (pos_leb b m) eqn:E2; try lia.
      apply pos_ltb_ge in E1. apply pos_leb_le in E2. lia. }
    rewrite Hs1.
    fold (buffer_text (tk_delete (At a') (At b') (tk_insert MarkInsert (c :: s) t))).
    rewrite tk_delete_text by assumption.
    rewrite Hoa, Hob, tk_insert_text by exact Hm.
    reflexivity.
Qed.

(** Paste on the other windowing systems, where the toolkit deletes the
    selection before it inserts. *)
Lemma paste_other_selection (d : Desktop) (a b : Pos) (s : list N) :
  desk_x11 d = false ->
  desk_clipboard d = Some s ->
  sel_ranges (desk_text d) = [(a, b)] ->
  valid_pos (lines (desk_text d)) a ->
  valid_pos (lines (desk_text d)) b ->
  pos_ltb a b = true ->
  pos_leb a (insert_mark (desk_text d)) = true ->
  pos_leb (insert_mark (desk_text d)) b = true ->
  exists d2,
    paste d = (d2, Ok tt)
    /\ buffer_text (desk_text d2)
       = take (offset (lines (desk_text d)) a) (buffer_text (desk_text d))
           ++ s
           ++ drop (offset (lines (desk_text d)) b) (buffer_text (desk_text d)).
Proof.
  intros Hx Hclip Hsel Ha Hb Hab Ham Hmb.
  set (t := desk_text d) in *.
  assert (Hev : event_generate VPaste d
                = with_text (tk_insert MarkInsert s (tk_delete (At a) (At b) t)) d).
  { unfold event_generate, tk_textPaste, sel_first_last.
    rewrite Hclip, Hx. fold t. now rewrite Hsel. }
  destruct (tk_delete_valid t (At a) (At b)) as (Hl & Hm & Hs).
  { now rewrite resolve_At_valid. }
  { now rewrite resolve_At_valid. }
  { now rewrite !resolve_At_valid. }
  rewrite !resolve_At_valid in Hl, Hm, Hs by assumption.
  rewrite shift_delete_inside in Hm by assumption.
  rewrite Hsel in Hs. cbn [map fst snd] in Hs.
  rewrite !shift_delete_inside in Hs
    by (assumption || (apply pos_leb_le; apply pos_ltb_lt in Hab; lia)).
  rewrite filter_cons_False in Hs
    by (cbn [fst snd]; rewrite pos_ltb_irrefl; discriminate).
  destruct (delete_lines_start _ a b Ha Hb Hab) as [Hva Hoa].
  pose proof (offset_lt _ a b Ha Hb Hab) as Hlt.
  pose proof (offset_le_length _ b Hb) as Hlen.
  eexists. unfold paste, lift. rewrite Hev. cbn [with_text desk_text].
  rewrite paste_tail, (tk_insert_sel_empty _ _ _ Hs). cbn [fst snd].
  split; [reflexivity|]. cbn [with_text desk_text].
  unfold buffer_text at 1. rewrite cursor_moved_lines.
  fold (buffer_text (tk_insert MarkInsert s (tk_delete (At a) (At b) t))).
  rewrite tk_insert_text.
  - change (resolve (lines (tk_delete (At a) (At b) t))
              (insert_mark (tk_delete (At a) (At b) t)) MarkInsert)
      with (insert_mark (tk_delete (At a) (At b) t)).
    rewrite Hm, Hl, Hoa, tk_delete_text by assumption.
    unfold buffer_text.
    rewrite take_app_length', drop_app_length'
      by (rewrite length_take; lia).
    reflexivity.
  - change (resolve (lines (tk_delete (At a) (At b) t))
              (insert_mark (tk_delete (At a) (At b) t)) MarkInsert)
      with (insert_mark (tk_delete (At a) (At b) t)).
    now rewrite Hm, Hl.
Qed.

Lemma paste_selection_ends (d : Desktop) (a b : Pos) (s : list N) :
  desk_clipboard d = Some s ->
  sel_ranges (desk_text d) = [(a, b)] ->
  valid_pos (lines (desk_text d)) a ->
  valid_pos (lines (desk_text d)) b ->
  pos_ltb a b = true ->
  insert_mark (desk_text d) = a \/ insert_mark (desk_text d) = b ->
  exists d2,
    paste d = (d2, Ok tt)
    /\ buffer_text (desk_text d2)
       = take (offset (lines (desk_text d)) a) (buffer_text (desk_text d))
           ++ s
           ++ drop (offset (lines (desk_text d)) b) (buffer_text (desk_text d)).
Proof.
  intros Hclip Hsel Ha Hb Hab Hends.
  pose proof (offset_lt _ a b Ha Hb Hab) as Hlt.
  pose proof (offset_le_length _ b Hb) as Hlen.
  assert (Haa : pos_leb a a = true) by (apply pos_leb_le; lia).
  assert (Hbb : pos_leb b b = true) by (apply pos_leb_le; lia).
  assert (Hab' : pos_leb a b = true)
    by (apply pos_leb_le; apply pos_ltb_lt in Hab; lia).
  assert (Hba : pos_leb b a = false)
    by (unfold pos_leb; now rewrite Hab).
  destruct (desk_x11 d) eqn:Hx.
  - destruct Hends as [Hm|Hm].
    + destruct (paste_x11_selection d a b s Hx Hclip Hsel Ha Hb)
        as (d2 & Hrun & Htext); try (rewrite Hm; assumption); [assumption|].
      exists d2. split; [exact Hrun|]. rewrite Htext, Hm.
      rewrite pos_ltb_irrefl, Hba. unfold buffer_text.
      set (F := with_newlines (lines (desk_text d))) in *.
      set (oa := offset (lines (desk_text d)) a) in *.
      set (ob := offset (lines (desk_text d)) b) in *.
      rewrite !app_assoc.
      rewrite take_app_length'
        by (rewrite length_app, length_take; lia).
      f_equal.
      rewrite (drop_app_ge (take oa F ++ s))
        by (rewrite length_app, length_take; lia).
      rewrite length_app, length_take, drop_drop. f_equal. lia.
    + destruct (paste_x11_selection d a b s Hx Hclip Hsel Ha Hb)
        as (d2 & Hrun & Htext); try (rewrite Hm; assumption); [assumption|].
      exists d2. split; [exact Hrun|]. rewrite Htext, Hm.
      rewrite Hab, Hbb, !Nat.add_0_r. unfold buffer_text.
      set (F := with_newlines (lines (desk_text d))) in *.
      set (oa := offset (lines (desk_text d)) a) in *.
      set (ob := offset (lines (desk_text d)) b) in *.
      rewrite take_app_le by (rewrite length_take; lia).
      rewrite take_take, Nat.min_l by lia.
      rewrite drop_app_length' by (rewrite length_take; lia).
      reflexivity.
  - destruct Hends as [Hm|Hm];
      apply (paste_other_selection d a b s Hx Hclip Hsel Ha Hb Hab);
      rewrite Hm; assumption.
Qed.

Lemma paste_ends_synced (d : Desktop) :
  snd (paste d) = Ok tt
  /\ _cursorpos (desk_text (fst (paste d))) = insert_mark (desk_text (fst (paste d)))
  /\ desk_clipboard (fst (paste d)) = desk_clipboard d.
Proof.
  unfold paste, lift. rewrite paste_tail. cbn [fst snd with_text desk_text desk_clipboard].
  split; [reflexivity|]. split; [apply cursor_moved_cache|].
  unfold event_generate, tk_textPaste.
  destruct (desk_clipboard d) eqn:E; cbn [with_text desk_clipboard]; congruence.
Qed.

(** X15. Paste over a selection. With a text on the clipboard, one
    selected range from a position [a] of the buffer to a later one [b],
    and the cursor at one end of the range, [paste] replaces the selected
    text by the text of the clipboard, on X11 as on the other windowing
    systems; the clipboard keeps its text and the cursor cache agrees
    with the cursor afterwards. *)
Theorem paste_replaces_selection (d : Desktop) (a b : Pos) (s : list N) :
  desk_clipboard d = Some s ->
  sel_ranges (desk_text d) = [(a, b)] ->
  valid_pos (lines (desk_text d)) a ->
  valid_pos (lines (desk_text d)) b ->
  pos_ltb a b = true ->
  insert_mark (desk_text d) = a \/ insert_mark (desk_text d) = b ->
  exists d2,
    paste d = (d2, Ok tt)
    /\ buffer_text (desk_text d2)
       = take (offset (lines (desk_text d)) a) (buffer_text (desk_text d))
           ++ s
           ++ drop (offset (lines (desk_text d)) b) (buffer_text (desk_text d))
    /\ desk_clipboard d2 = Some s
    /\ _cursorpos (desk_text d2) = insert_mark (desk_text d2).
Proof.
  intros Hclip Hsel Ha Hb Hab Hends.
  destruct (paste_selection_ends d a b s Hclip Hsel Ha Hb Hab Hends)
    as (d2 & Hrun & Htext).
  destruct (paste_ends_synced d) as (_ & Hsync & Hkeep).
  rewrite Hrun in Hsync, Hkeep. cbn [fst] in Hsync, Hkeep.
  exists d2. split; [exact Hrun|]. split; [exact Htext|].
  split; [|exact Hsync]. now rewrite Hkeep.
Qed.

Lemma paste_replaces_selection_witness :
  exists d2,
    paste (mkDesktop
             (set_sel [(mkPos 1 2, mkPos 2 3)]
                (widget ["hello world"%string; "second"%string] (mkPos 1 2) 4))
             (Some (py "XY")) true) = (d2, Ok tt)
    /\ buffer_text (desk_text d2) = py "heXYond" ++ [newline].
Proof.
  destruct (paste_replaces_selection
              (mkDesktop
                 (set_sel [(mkPos 1 2, mkPos 2 3)]
                    (widget ["hello world"%string; "second"%string] (mkPos 1 2) 4))
                 (Some (py "XY")) true)
              (mkPos 1 2) (mkPos 2 3) (py "XY") eq_refl eq_refl
              ltac:(vm_compute; repeat constructor)
              ltac:(vm_compute; repeat constructor)
              eq_refl (or_introl eq_refl)) as (d2 & H1 & H2 & _).
  exists d2. split; [exact H1 | exact H2].
Defined.

(** X16. Paste with the cursor strictly inside the selection. With a
    text on the clipboard, one selected range from a position [a] of the
    buffer to a later one [b], and the cursor at a position of the buffer
    after [a] and before [b]: on X11 the pasted text becomes part of the
    selection and is deleted with it, so that the buffer only loses the
    selected text; on the other windowing systems the selected text is
    replaced by the text of the clipboard. *)
Theorem paste_inside_selection (d : Desktop) (a b : Pos) (s : list N) :
  desk_clipboard d = Some s ->
  sel_ranges (desk_text d) = [(a, b)] ->
  valid_pos (lines (desk_text d)) a ->
  valid_pos (lines (desk_text d)) b ->
  valid_pos (lines (desk_text d)) (insert_mark (desk_text d)) ->
  pos_ltb a (insert_mark (desk_text d)) = true ->
  pos_ltb (insert_mark (desk_text d)) b = true ->
  exists d2,
    paste d = (d2, Ok tt)
    /\ buffer_text (desk_text d2)
       = take (offset (lines (desk_text d)) a) (buffer_text (desk_text d))
           ++ (if desk_x11 d then [] else s)
           ++ drop (offset (lines (desk_text d)) b) (buffer_text (desk_text d)).
Proof.
  intros Hclip Hsel Ha Hb Hm Ham Hmb.
  pose proof (offset_lt _ _ _ Ha Hm Ham) as Hlt1.
  pose proof (offset_lt _ _ _ Hm Hb Hmb) as Hlt2.
  pose proof (offset_le_length _ b Hb) as Hlen.
  assert (Hab : pos_ltb a b = true).
  { apply pos_ltb_lt. apply pos_ltb_lt in Ham, Hmb. lia. }
  assert (Ham' : pos_leb a (insert_mark (desk_text d)) = true).
  { apply pos_leb_le. apply pos_ltb_lt in Ham. lia. }
  assert (Hmb' : pos_leb (insert_mark (desk_text d)) b = true).
  { apply pos_leb_le. apply pos_ltb_lt in Hmb. lia. }
  destruct (desk_x11 d) eqn:Hx.
  - destruct (paste_x11_selection d a b s Hx Hclip Hsel Ha Hb Hm Hab Ham' Hmb')
      as (d2 & Hrun & Htext).
    exists d2. split; [exact Hrun|]. rewrite Htext, Ham.
    replace (pos_leb b (insert_mark (desk_text d))) with false
      by (unfold pos_leb; now rewrite Hmb).
    rewrite Nat.add_0_r. unfold buffer_text. simpl app.
    set (F := with_newlines (lines (desk_text d))) in *.
    set (oa := offset (lines (desk_text d)) a) in *.
    set (ob := offset (lines (desk_text d)) b) in *.
    set (om := offset (lines (desk_text d)) (insert_mark (desk_text d))) in *.
    rewrite take_app_le by (rewrite length_take; lia).
    rewrite take_take, Nat.min_l by lia. f_equal.
    rewrite app_assoc.
    rewrite drop_app_ge by (rewrite length_app, length_take; lia).
    rewrite length_app, length_take, drop_drop. f_equal. lia.
  - exact (paste_other_selection d a b s Hx Hclip Hsel Ha Hb Hab Ham' Hmb').
Qed.

Lemma paste_inside_selection_witness :
  exists d2,
    paste (mkDesktop
             (set_sel [(mkPos 1 2, mkPos 1 5)]
                (widget ["hello world"%string] (mkPos 1 3) 4))
             (Some (py "XY")) true) = (d2, Ok tt)
    /\ buffer_text (desk_text d2) = py "he world" ++ [newline].
Proof.
  exact (paste_inside_selection
           (mkDesktop
              (set_sel [(mkPos 1 2, mkPos 1 5)]
                 (widget ["hello world"%string] (mkPos 1 3) 4))
              (Some (py "XY")) true)
           (mkPos 1 2) (mkPos 1 5) (py "XY") eq_refl eq_refl
           ltac:(vm_compute; repeat constructor)
           ltac:(vm_compute; repeat constructor)
           ltac:(vm_compute; repeat constructor)
           eq_refl eq_refl).
Defined.

(** X17. Copy changes nothing of the buffer, and copy followed by paste
    is no change of the text either. With one selected range from a
    position [a] of the buffer to a later one [b] and the cursor at one
    end of the range: [copy] puts the selected text on the clipboard and
    leaves the text of the buffer, the cursor and the selection as they
    are; the [paste] that follows replaces the selected text by itself. *)
Theorem copy_then_paste (d : Desktop) (a b : Pos) :
  sel_ranges (desk_text d) = [(a, b)] ->
  valid_pos (lines (desk_text d)) a ->
  valid_pos (lines (desk_text d)) b ->
  pos_ltb a b = true ->
  insert_mark (desk_text d) = a \/ insert_mark (desk_text d) = b ->
  exists d1 d2,
    copy d = (d1, Ok tt)
    /\ desk_clipboard d1 = Some (get_range (lines (desk_text d)) a b)
    /\ lines (desk_text d1) = lines (desk_text d)
    /\ insert_mark (desk_text d1) = insert_mark (desk_text d)
    /\ sel_ranges (desk_text d1) = sel_ranges (desk_text d)
    /\ paste d1 = (d2, Ok tt)
    /\ buffer_text (desk_text d2) = buffer_text (desk_text d).
Proof.
  intros Hsel Ha Hb Hab Hends.
  pose proof (offset_lt _ a b Ha Hb Hab) as Hlt.
  pose proof (offset_le_length _ b Hb) as Hlen.
  set (d1 := mkDesktop (cursor_moved (desk_text d))
               (Some (get_range (lines (desk_text d)) a b)) (desk_x11 d)).
  assert (Hcopy : copy d = (d1, Ok tt)).
  { unfold copy, lift, event_generate, tk_textCopy, sel_first_last.
    rewrite Hsel. cbn [fst snd List.last desk_text].
    now rewrite do_cursor_move_eq. }
  destruct (paste_selection_ends d1 a b (get_range (lines (desk_text d)) a b))
    as (d2 & Hpaste & Htext).
  { reflexivity. }
  { cbn [d1 desk_text]. now rewrite cursor_moved_sel_ranges. }
  { cbn [d1 desk_text]. now rewrite cursor_moved_lines. }
  { cbn [d1 desk_text]. now rewrite cursor_moved_lines. }
  { exact Hab. }
  { cbn [d1 desk_text]. now rewrite cursor_moved_insert_mark. }
  exists d1, d2. split; [exact Hcopy|]. split; [reflexivity|].
  cbn [d1 desk_text].
  rewrite cursor_moved_lines, cursor_moved_insert_mark, cursor_moved_sel_ranges.
  repeat (split; [reflexivity|]). split; [exact Hpaste|].
  rewrite Htext. cbn [d1 desk_text]. unfold buffer_text.
  rewrite cursor_moved_lines, get_range_text by assumption.
  set (F := with_newlines (lines (desk_text d))) in *.
  set (oa := offset (lines (desk_text d)) a) in *.
  set (ob := offset (lines (desk_text d)) b) in *.
  replace (drop ob F) with (drop (ob - oa) (drop oa F))
    by (rewrite drop_drop; f_equal; lia).
  rewrite (take_drop (ob - oa) (drop oa F)). apply take_drop.
Qed.

Lemma copy_then_paste_witness :
  exists d1 d2,
    copy (mkDesktop
            (set_sel [(mkPos 1 2, mkPos 1 5)]
               (widget ["hello world"%string] (mkPos 1 5) 4))
            None true) = (d1, Ok tt)
    /\ desk_clipboard d1 = Some (py "llo")
    /\ paste d1 = (d2, Ok tt)
    /\ buffer_text (desk_text d2) = py "hello world" ++ [newline].
Proof.
  destruct (copy_then_paste
              (mkDesktop
                 (set_sel [(mkPos 1 2, mkPos 1 5)]
                    (widget ["hello world"%string] (mkPos 1 5) 4))
                 None true)
              (mkPos 1 2) (mkPos 1 5) eq_refl
              ltac:(vm_compute; repeat constructor)
              ltac:(vm_compute; repeat constructor)
              eq_refl (or_intror eq_refl))
    as (d1 & d2 & H1 & H2 & _ & _ & _ & H3 & H4).
  exists d1, d2. split; [exact H1|]. split; [exact H2|].
  split; [exact H3 | exact H4].
Defined.

(** * The virtual-environment plugin *)


Lemma startswith_spec (p s : list N) :
  startswith p s = true <-> exists b, s = p ++ b.
Proof.
  revert s. induction p as [|a p IH]; intros s; cbn [startswith].
  - split; [intros _; now exists s | reflexivity].
  - destruct s as [|c s].
    + split; [discriminate | intros [b H]; discriminate].
    + rewrite andb_true_iff, N.eqb_eq, IH. split.
      * intros [-> [b ->]]. now exists b.
      * intros [b H]. injection H as -> ->. split; [reflexivity | now exists b].
Qed.

Lemma contains_spec (p s : list N) :
  contains p s = true <-> exists a b, s = a ++ p ++ b.
Proof.
  induction s as [|c s IH]; cbn [contains]; rewrite orb_true_iff, startswith_spec.
  - split.
    + intros [[b H] | H]; [|discriminate]. now exists [], b.
    + intros (a & b & H). left. destruct a; [now exists b | discriminate].
  - rewrite IH. split.
    + intros [[b H] | (a & b & H)]; [now exists [], b|].
      exists (c :: a), b. now rewrite H.
    + intros (a & b & H). destruct a as [|x a]; [left; now exists b|].
      right. injection H as -> ->. now exists a, b.
Qed.

Lemma str_ltb_irrefl (a : list N) : str_ltb a a = false.
Proof.
  induction a as [|x a IH]; [reflexivity|]. cbn [str_ltb].
  now rewrite N.eqb_refl.
Qed.

Lemma str_ltb_trans (a b c : list N) :
  str_ltb a b = true -> str_ltb b c = true -> str_ltb a c = true.
Proof.
  revert b c. induction a as [|x a IH]; intros [|y b] [|z c]; cbn [str_ltb];
    try discriminate; try reflexivity.
  destruct (N.eqb_spec x y) as [->|Hxy].
  - destruct (N.eqb_spec y z) as [->|Hyz]; [apply IH | trivial].
  - destruct (N.eqb_spec y z) as [->|Hyz].
    + intros H _. destruct (N.eqb_spec x z); [contradiction | exact H].
    + rewrite !N.ltb_lt. intros H1 H2.
      destruct (N.eqb_spec x z); [lia | apply N.ltb_lt; lia].
Qed.

Lemma str_ltb_total (a b : list N) :
  a = b \/ str_ltb a b = true \/ str_ltb b a = true.
Proof.
  revert b. induction a as [|x a IH]; intros [|y b]; cbn [str_ltb]; auto.
  rewrite (N.eqb_sym y x).
  destruct (N.eqb_spec x y) as [->|Hxy].
  - destruct (IH b) as [->|[H|H]]; auto.
  - rewrite !N.ltb_lt. lia.
Qed.

Lemma preferred_irrefl (a : list N) : preferred a a = false.
Proof. unfold preferred. rewrite Nat.eqb_refl. apply str_ltb_irrefl. Qed.

Lemma preferred_trans (a b c : list N) :
  preferred a b = true -> preferred b c = true -> preferred a c = true.
Proof.
  unfold preferred.
  destruct (Nat.eqb_spec (length a) (length b)) as [Hab|Hab],
           (Nat.eqb_spec (length b) (length c)) as [Hbc|Hbc],
           (Nat.eqb_spec (length a) (length c)) as [Hac|Hac];
    rewrite ?Nat.ltb_lt; try lia; try apply str_ltb_trans.
Qed.

Lemma preferred_total (a b : list N) :
  a = b \/ preferred a b = true \/ preferred b a = true.
Proof.
  unfold preferred. rewrite (Nat.eqb_sym (length b)).
  destruct (Nat.eqb_spec (length a) (length b)) as [H|H].
  - apply str_ltb_total.
  - rewrite !Nat.ltb_lt. lia.
Qed.

Lemma preferred_asym (a b : list N) :
  preferred a b = true -> preferred b a = true -> False.
Proof.
  intros H1 H2. pose proof (preferred_trans _ _ _ H1 H2) as H.
  now rewrite preferred_irrefl in H.
Qed.

Lemma join_snoc (sep : list N) (parts : list (list N)) (name : list N) :
  length (join sep (parts ++ [name]))
  = (match parts with [] => 0 | _ => length (join sep parts) + length sep end
     + length name)%nat.
Proof.
  induction parts as [|p parts IH]; [cbn; lia|].
  destruct parts as [|q parts]; [cbn [app join]; rewrite ?length_app; cbn [length]; lia|].
  change (join sep ((p :: q :: parts) ++ [name]))
    with (p ++ sep ++ join sep ((q :: parts) ++ [name])).
  change (join sep (p :: q :: parts)) with (p ++ sep ++ join sep (q :: parts)).
  rewrite !length_app, IH, ?length_app. lia.
Qed.

Lemma path_str_child (root : list (list N)) :
  exists k, forall name, length (path_str (root ++ [name])) = (k + length name)%nat.
Proof.
  destruct root as [|first rest].
  - exists 0%nat. intros name. cbn [app path_str join].
    now destruct (startswith _ name); rewrite ?length_app; cbn; lia.
  - cbn [app path_str]. destruct (startswith (py "/") first).
    + eexists. intros name. rewrite length_app, join_snoc.
      rewrite Nat.add_assoc. reflexivity.
    + eexists. intros name.
      change (first :: rest ++ [name]) with ((first :: rest) ++ [name]).
      rewrite join_snoc. reflexivity.
Qed.

Lemma path_ltb_child (root : list (list N)) (a b : list N) :
  a <> b -> path_ltb (root ++ [a]) (root ++ [b]) = str_ltb a b.
Proof.
  intros Hab. induction root as [|p root IH]; cbn [app path_ltb].
  - rewrite bool_decide_eq_false_2 by exact Hab. reflexivity.
  - now rewrite bool_decide_eq_true_2.
Qed.

Lemma key_ltb_child (root : list (list N)) (a b : list N) :
  key_ltb (venv_key (root ++ [a])) (venv_key (root ++ [b])) = preferred a b.
Proof.
  unfold key_ltb, venv_key, preferred. cbn [fst snd].
  destruct (path_str_child root) as [k Hk]. rewrite !Hk.
  replace (k + length a =? k + length b)%nat with (length a =? length b)%nat
    by (destruct (Nat.eqb_spec (length a) (length b)),
                 (Nat.eqb_spec (k + length a) (k + length b)); lia).
  replace (k + length a <? k + length b)%nat with (length a <? length b)%nat
    by (destruct (Nat.ltb_spec (length a) (length b)),
                 (Nat.ltb_spec (k + length a) (k + length b)); lia).
  destruct (length a =? length b)%nat; [|reflexivity].
  destruct (decide (a = b)) as [->|Hab].
  - rewrite bool_decide_eq_true_2 by reflexivity. now rewrite str_ltb_irrefl.
  - rewrite bool_decide_eq_false_2 by (intros H; apply app_inj_tail in H; tauto).
    now apply path_ltb_child.
Qed.

Lemma py_min_map {A B K : Type} (lt : K -> K -> bool) (key : B -> K)
    (f : A -> B) (R : A -> A -> bool) :
  (forall x y, lt (key (f x)) (key (f y)) = R x y) ->
  forall items best,
    py_min lt key (f best) (map f items) = f (py_min R id best items).
Proof.
  intros HR. induction items as [|x items IH]; intros best; [reflexivity|].
  cbn [map py_min]. rewrite HR. change (id x) with x. change (id best) with best.
  destruct (R x best); apply IH.
Qed.

Lemma py_min_least (items : list (list N)) (best : list N) :
  py_min preferred id best items ∈ best :: items
  /\ forall x, x ∈ best :: items ->
       x = py_min preferred id best items
       \/ preferred (py_min preferred id best items) x = true.
Proof.
  revert best. induction items as [|y items IH]; intros best; cbn [py_min].
  - split; [left|]. intros x Hx. apply elem_of_cons in Hx as [->|Hx]; [now left|].
    now apply elem_of_nil in Hx.
  - change (id y) with y. change (id best) with best.
    destruct (IH (if preferred y best then y else best)) as [Hin Hleast].
    set (r := py_min preferred id _ items) in *.
    split.
    + apply elem_of_cons in Hin as [Hin|Hin].
      * rewrite Hin. destruct (preferred y best); [right; left | left].
      * right; right; exact Hin.
    + intros x Hx.
      assert (Hy : y = r \/ preferred r y = true).
      { destruct (preferred y best) eqn:E; [apply Hleast; left|].
        destruct (Hleast best ltac:(left)) as [Hb|Hb].
        - rewrite <- Hb. destruct (preferred_total y best) as [H|[H|H]]; auto.
          congruence.
        - destruct (preferred_total y r) as [H|[H|H]]; auto.
          rewrite (preferred_trans _ _ _ H Hb) in E. discriminate. }
      assert (Hb : best = r \/ preferred r best = true).
      { destruct (preferred y best) eqn:E; [|apply Hleast; left].
        destruct Hy as [<-|Hy]; [now right|].
        right. exact (preferred_trans _ _ _ Hy E). }
      apply elem_of_cons in Hx as [->|Hx]; [exact Hb|].
      apply elem_of_cons in Hx as [->|Hx]; [exact Hy|].
      apply Hleast. now right.
Qed.

Lemma filter_map_comm {A B : Type} (f : B -> bool) (g : A -> B) (l : list A) :
  List.filter f (map g l) = map g (List.filter (fun x => f (g x)) l).
Proof.
  induction l as [|x l IH]; [reflexivity|]. cbn [map List.filter].
  destruct (f (g x)); cbn [map]; now rewrite IH.
Qed.

Lemma find_venv_names (fs : FileSystem) (root : list (list N)) :
  _find_venv fs root
  = match venv_names fs root with
    | [] => None
    | name :: rest => Some (root ++ [py_min preferred id name rest])
    end.
Proof.
  unfold _find_venv, glob_env, venv_names. rewrite filter_map_comm.
  destruct (List.filter _ (List.filter _ _)) as [|name rest]; [reflexivity|].
  cbn [map]. f_equal.
  apply (py_min_map key_ltb venv_key (fun name => root ++ [name]) preferred).
  intros x y. apply key_ltb_child.
Qed.

Lemma elem_of_venv_names (fs : FileSystem) (root : list (list N)) (name : list N) :
  name ∈ venv_names fs root
  <-> name ∈ scandir fs root
      /\ (exists a b, name = a ++ py "env" ++ b)
      /\ is_venv fs (root ++ [name]) = true.
Proof.
  unfold venv_names.
  rewrite !list_elem_of_In, !filter_In, <- contains_spec. tauto.
Qed.

(** X18. What [_find_venv] picks, on a platform other than Windows. It
    returns [None] exactly when no entry of the project root whose name
    contains [env] is a virtual environment. Otherwise it returns such an
    entry, and the one with the shortest name; among names of that length,
    the first in code-point order. *)
Theorem find_venv_choice (fs : FileSystem) (project_root : list (list N)) :
  win32 fs = false ->
  match _find_venv fs project_root with
  | None =>
      forall name,
        name ∈ scandir fs project_root ->
        (exists a b, name = a ++ py "env" ++ b) ->
        is_venv fs (project_root ++ [name]) = false
  | Some e =>
      exists name,
        e = project_root ++ [name]
        /\ name ∈ scandir fs project_root
        /\ (exists a b, name = a ++ py "env" ++ b)
        /\ is_venv fs e = true
        /\ forall other,
             other ∈ scandir fs project_root ->
             (exists a b, other = a ++ py "env" ++ b) ->
             is_venv fs (project_root ++ [other]) = true ->
             other = name
             \/ (length name < length other)%nat
             \/ (length name = length other /\ str_ltb name other = true)
  end.
Proof.
  intros _. rewrite find_venv_names.
  destruct (venv_names fs project_root) as [|first rest] eqn:E.
  - intros name Hin Hsub. destruct (is_venv fs (project_root ++ [name])) eqn:V;
      [|reflexivity].
    assert (H : name ∈ venv_names fs project_root)
      by now apply elem_of_venv_names.
    rewrite E in H. now apply elem_of_nil in H.
  - destruct (py_min_least rest first) as [Hin Hleast].
    set (r := py_min preferred id first rest) in *.
    rewrite <- E in Hin, Hleast.
    apply elem_of_venv_names in Hin as (Hdir & Hsub & Hvenv).
    exists r. repeat (split; [assumption || reflexivity|]).
    intros other Hother Hsub' Hvenv'.
    destruct (Hleast other) as [H|H]; [now apply elem_of_venv_names | now left |].
    right. unfold preferred in H.
    destruct (Nat.eqb_spec (length r) (length other)) as [Hlen|Hlen].
    + right. now split.
    + left. now apply Nat.ltb_lt.
Qed.

(** X19. [_find_venv] picks one environment consistently: on a platform
    other than Windows, two file systems that agree on which paths exist
    and whose project roots have the same entries, listed in any order,
    give the same result. *)
Theorem find_venv_any_order (fs1 fs2 : FileSystem) (project_root : list (list N)) :
  win32 fs1 = false ->
  win32 fs2 = false ->
  (forall path, path_exists fs1 path = path_exists fs2 path) ->
  (forall name, name ∈ scandir fs1 project_root <-> name ∈ scandir fs2 project_root) ->
  _find_venv fs1 project_root = _find_venv fs2 project_root.
Proof.
  intros W1 W2 Hex Hdir.
  assert (Hvenv : forall path, is_venv fs1 path = is_venv fs2 path).
  { intros path. unfold is_venv. rewrite W1, W2.
    cbn [app forallb]. now rewrite !Hex. }
  assert (Hnames : forall name,
             name ∈ venv_names fs1 project_root <-> name ∈ venv_names fs2 project_root).
  { intros name. rewrite !elem_of_venv_names, Hdir, Hvenv. tauto. }
  rewrite !find_venv_names.
  destruct (venv_names fs1 project_root) as [|n1 rest1] eqn:E1,
           (venv_names fs2 project_root) as [|n2 rest2] eqn:E2.
  - reflexivity.
  - exfalso. apply (elem_of_nil n2), Hnames. left.
  - exfalso. apply (elem_of_nil n1), Hnames. left.
  - destruct (py_min_least rest1 n1) as [Hin1 Hleast1],
             (py_min_least rest2 n2) as [Hin2 Hleast2].
    set (r1 := py_min preferred id n1 rest1) in *.
    set (r2 := py_min preferred id n2 rest2) in *.
    apply Hnames in Hin1. apply Hnames in Hin2.
    destruct (Hleast1 r2 Hin2) as [H1|H1]; [now rewrite H1|].
    destruct (Hleast2 r1 Hin1) as [H2|H2]; [now rewrite H2|].
    destruct (preferred_asym _ _ H1 H2).
Qed.

Lemma find_venv_choice_witness :
  exists name,
    _find_venv (file_system_of ["env-old"; "env"; "src"]%string)
      [py "/"; py "proj"] = Some ([py "/"; py "proj"] ++ [name])
    /\ (py "env-old" = name
        \/ (length name < length (py "env-old"))%nat
        \/ (length name = length (py "env-old")
            /\ str_ltb name (py "env-old") = true)).
Proof.
  pose proof (find_venv_choice (file_system_of ["env-old"; "env"; "src"]%string)
                [py "/"; py "proj"] eq_refl) as H.
  destruct (_find_venv _ _) as [e|] eqn:E.
  - destruct H as (name & -> & _ & _ & _ & Hleast). exists name.
    split; [reflexivity|]. apply Hleast.
    + vm_compute. repeat constructor.
    + now exists [], (py "-old").
    + reflexivity.
  - vm_compute in E. discriminate.
Defined.

Lemma find_venv_any_order_witness :
  _find_venv (file_system_of ["env-old"; "env"; "src"]%string) [py "/"; py "proj"]
  = _find_venv (file_system_of ["src"; "env"; "env-old"]%string) [py "/"; py "proj"].
Proof.
  apply find_venv_any_order; [reflexivity | reflexivity | reflexivity |].
  intros name. cbn [file_system_of scandir map].
  rewrite !elem_of_cons, !elem_of_nil. tauto.
Defined.
